(** * Live code execution engine: admission, safety gate, runner and worker

    A shallow embedding of the asynchronous execution pipeline of the
    backend (services/SafetyService.js, services/ExecutionService.js,
    services/CodeExecutionService.js, models/Execution.js,
    models/Session.js, models/Language.js, libs/queue.js and
    workers/codeExecutionWorker.js), followed by the properties of the
    pipeline that the specification states.

    Conventions.  JavaScript strings are [string]s of code units below 256;
    integers and millisecond timestamps are [Z]; the limits that reach the
    parameter validator are arbitrary JavaScript values ([Js.value]), and
    the pipeline behind it is followed for integer limits; a table of the durable
    store is a [gmap] from primary key to row; [async] code that touches
    the store, Redis or the queue runs in a small reader/state/error monad:
    the reader part holds what the outside world decides once per call
    (clock, generated uuid, the operating system's answers to the Runner),
    the state holds the stores, the queue and, request by request, which
    I/O requests fail. *)

From Stdlib Require Import ZArith Lia Bool List Ascii String.
From stdpp Require Import base option list gmap strings pretty.

Import ListNotations.
Local Open Scope string_scope.
Local Open Scope Z_scope.

(** ** JavaScript primitives used by the services *)

Module Js.

(** [a || b] on strings: the empty string is the only falsy string. *)
Definition or_str (a b : string) : string :=
  if decide (a = "") then b else a.

(** [a || b] where [a] may be [undefined] (a missing property). *)
Definition or_opt (a : option string) (b : string) : string :=
  match a with
  | Some s => or_str s b
  | None => b
  end.

Definition lower_ascii (c : ascii) : ascii :=
  let n := nat_of_ascii c in
  if ((65 <=? n) && (n <=? 90))%nat then ascii_of_nat (n + 32) else c.

(** [String.prototype.toLowerCase] on ASCII letters; every other code unit
    the model carries is left as it is, so this is the engine's function
    on strings of ASCII characters. *)
Fixpoint toLowerCase (s : string) : string :=
  match s with
  | EmptyString => EmptyString
  | String c s' => String (lower_ascii c) (toLowerCase s')
  end.

(** [hay.includes(needle)] *)
Fixpoint includes (needle hay : string) : bool :=
  String.prefix needle hay ||
  match hay with
  | EmptyString => false
  | String _ hay' => includes needle hay'
  end.

(** The value of an [exit code] property of a child-process error: a
    number for a normal exit, a string such as [ENOENT] for a spawn
    error, or absent. *)
Inductive code :=
| CodeNum (n : Z)
| CodeStr (s : string)
| CodeUndefined.

Definition truthy_code (c : code) : bool :=
  match c with
  | CodeNum n => negb (n =? 0)
  | CodeStr s => negb (String.eqb s "")
  | CodeUndefined => false
  end.

(** [c || 1] *)
Definition code_or_1 (c : code) : code :=
  if truthy_code c then c else CodeNum 1.

(** A Number: NaN, an infinity, or a finite value.  Every finite double
    is a rational [num / den]. *)
Inductive number :=
| NaN
| NegInfinity
| Finite (num : Z) (den : positive)
| PosInfinity.

(** The values a limit can be when it reaches the validator: whatever the
    parsed JSON body held under the key, or [undefined] when the key was
    absent.  A String and an Object carry the Number that [ToNumber] gives
    for them (the engine's StringToNumber, applied to the primitive of an
    object), which the code never computes itself. *)
Inductive value :=
| Undefined
| Null
| Boolean (b : bool)
| Number (n : number)
| Str (s : string) (numeric : number)
| Object (numeric : number).

Definition ToNumber (v : value) : number :=
  match v with
  | Undefined => NaN
  | Null => Finite 0 1
  | Boolean b => if b then Finite 1 1 else Finite 0 1
  | Number n => n
  | Str _ n => n
  | Object n => n
  end.

(** [x < y] on Numbers: false as soon as one of them is NaN. *)
Definition number_lt (x y : number) : bool :=
  match x, y with
  | NaN, _ | _, NaN => false
  | _, NegInfinity => false
  | NegInfinity, _ => true
  | PosInfinity, _ => false
  | Finite _ _, PosInfinity => true
  | Finite a b, Finite c d => a * Z.pos d <? c * Z.pos b
  end.

(** [a < b] and [a > b] where at least one operand is not a String, as in
    every comparison of a limit with a numeric bound. *)
Definition lt (a b : value) : bool := number_lt (ToNumber a) (ToNumber b).
Definition gt (a b : value) : bool := number_lt (ToNumber b) (ToNumber a).

Definition of_Z (z : Z) : value := Number (Finite z 1).

(** Every code unit is an ASCII character. *)
Definition ascii_only (s : string) : bool :=
  forallb (fun c => (nat_of_ascii c <? 128)%nat) (list_ascii_of_string s).

(** The string holds no NUL character. *)
Definition nul_free (s : string) : bool :=
  forallb (fun c => negb (nat_of_ascii c =? 0)%nat) (list_ascii_of_string s).

End Js.

(** An integer where a JavaScript value is expected is the Number with
    that value. *)
Coercion Js.of_Z : Z >-> Js.value.

(** ** services/SafetyService.js: parameter validation *)

Module Validation.

Record result := { valid : bool; errors : list string }.

Definition MAX_TIME_LIMIT : Z := 60000.
Definition MIN_TIME_LIMIT : Z := 100.
Definition MAX_MEMORY_LIMIT : Z := 2048.
Definition MIN_MEMORY_LIMIT : Z := 32.

Definition time_message : string :=
  "Time limit must be between " +:+ pretty MIN_TIME_LIMIT +:+ "ms and "
    +:+ pretty MAX_TIME_LIMIT +:+ "ms".

Definition memory_message : string :=
  "Memory limit must be between " +:+ pretty MIN_MEMORY_LIMIT +:+ "MB and "
    +:+ pretty MAX_MEMORY_LIMIT +:+ "MB".

(** [errors.push(x)] on the local array. *)
Definition push (errs : list string) (x : string) : list string := errs ++ [x].

(** The third parameter, [language], is never read. *)
Definition validateExecutionParams (timeLimit memoryLimit : Js.value) : result :=
  let errors := [] in
  let errors :=
    if Js.lt timeLimit MIN_TIME_LIMIT || Js.gt timeLimit MAX_TIME_LIMIT
    then push errors time_message else errors in
  let errors :=
    if Js.lt memoryLimit MIN_MEMORY_LIMIT || Js.gt memoryLimit MAX_MEMORY_LIMIT
    then push errors memory_message else errors in
  {| valid := (length errors =? 0)%nat; errors := errors |}.

(** The four bounds of the specification, for counting violations. *)
Inductive bound := TimeMin | TimeMax | MemoryMin | MemoryMax.

Definition violates (t m : Js.value) (b : bound) : bool :=
  match b with
  | TimeMin => Js.lt t 100
  | TimeMax => Js.gt t 60000
  | MemoryMin => Js.lt m 32
  | MemoryMax => Js.gt m 2048
  end.

Definition violated_bounds (t m : Js.value) : list bound :=
  filter (fun b => violates t m b = true) [TimeMin; TimeMax; MemoryMin; MemoryMax].

(** [v] is not a number below [lo] or above [hi]: it converts to a number
    between the two, or to NaN. *)
Definition not_outside (v : Js.value) (lo hi : Z) : Prop :=
  match Js.ToNumber v with
  | Js.NaN => True
  | Js.Finite n d => lo * Z.pos d ≤ n ≤ hi * Z.pos d
  | Js.NegInfinity | Js.PosInfinity => False
  end.

End Validation.

(** ** Regular expressions of the loop-pattern table

    The twelve literals of [detectInfiniteLoopPatterns] are sequences of
    single characters and of [\s], [\w] under [*] or [+]; all carry the
    flags [gi].  [exec_at] is the backtracking matcher of the language
    (greedy quantifiers, leftmost alternative first) on that fragment. *)

Module RegExp.

Inductive atom :=
| Chr (c : ascii)      (* a literal character, compared ignoring case *)
| Space                (* \s *)
| WordChar.            (* \w *)

Inductive item :=
| One (a : atom)
| Star (a : atom)
| Plus (a : atom).

Definition is_space (c : ascii) : bool :=
  let n := nat_of_ascii c in
  ((9 <=? n) && (n <=? 13) || (n =? 32) || (n =? 160))%nat.

Definition is_word (c : ascii) : bool :=
  let n := nat_of_ascii c in
  ((48 <=? n) && (n <=? 57) || (65 <=? n) && (n <=? 90) || (n =? 95)
   || (97 <=? n) && (n <=? 122))%nat.

Definition atom_match (a : atom) (c : ascii) : bool :=
  match a with
  | Chr x => Ascii.eqb (Js.lower_ascii x) (Js.lower_ascii c)
  | Space => is_space c
  | WordChar => is_word c
  end.

(** [exec_at p cs]: the number of characters the pattern consumes when
    matched at the head of [cs], if it matches there. *)
Fixpoint exec_at (p : list item) (cs : list ascii) {struct p} : option nat :=
  match p with
  | [] => Some 0%nat
  | One a :: p' =>
      match cs with
      | c :: cs' => if atom_match a c then S <$> exec_at p' cs' else None
      | [] => None
      end
  | Star a :: p' =>
      (fix many (cs : list ascii) : option nat :=
         match cs with
         | c :: cs' =>
             if atom_match a c
             then match many cs' with
                  | Some n => Some (S n)
                  | None => exec_at p' cs
                  end
             else exec_at p' cs
         | [] => exec_at p' []
         end) cs
  | Plus a :: p' =>
      match cs with
      | c :: cs' =>
          if atom_match a c
          then S <$>
            (fix many (cs : list ascii) : option nat :=
               match cs with
               | c :: cs' =>
                   if atom_match a c
                   then match many cs' with
                        | Some n => Some (S n)
                        | None => exec_at p' cs
                        end
                   else exec_at p' cs
               | [] => exec_at p' []
               end) cs'
          else None
      | [] => None
      end
  end.

(** Leftmost match at or after position [i] of the whole input, of which
    [cs] is the part from [i] on: start and end index. *)
Fixpoint search (p : list item) (cs : list ascii) (i : nat) : option (nat * nat) :=
  match exec_at p cs with
  | Some n => Some (i, (i + n)%nat)
  | None =>
      match cs with
      | [] => None
      | _ :: cs' => search p cs' (S i)
      end
  end.

(** A RegExp object: its source text, its compiled form and the mutable
    [lastIndex] that a global regular expression keeps between calls. *)
Record object := {
  source : string;
  flags : string;
  compiled : list item;
  lastIndex : nat
}.

Definition set_lastIndex (r : object) (i : nat) : object :=
  {| source := source r; flags := flags r; compiled := compiled r; lastIndex := i |}.

(** [r.test(s)] for a global regular expression: the search starts at
    [lastIndex]; a match moves [lastIndex] to its end, a failure resets
    it to 0. *)
Definition test (r : object) (s : string) : bool * object :=
  let cs := list_ascii_of_string s in
  if (length cs <? lastIndex r)%nat then (false, set_lastIndex r 0)
  else
    match search (compiled r) (drop (lastIndex r) cs) (lastIndex r) with
    | Some (_, e) => (true, set_lastIndex r e)
    | None => (false, set_lastIndex r 0)
    end.

Definition toString (r : object) : string :=
  "/" +:+ source r +:+ "/" +:+ flags r.

Definition lit (s : string) : list item :=
  map (fun c => One (Chr c)) (list_ascii_of_string s).

(** Evaluating a literal [/src/gi] creates a new object with
    [lastIndex = 0]. *)
Definition literal (src : string) (p : list item) : object :=
  {| source := src; flags := "gi"; compiled := p; lastIndex := 0 |}.

Definition while_True_colon : object :=
  literal "while\s+True\s*:"
    (lit "while" ++ [Plus Space] ++ lit "True" ++ [Star Space] ++ lit ":").

Definition while_1_colon : object :=
  literal "while\s+1\s*:"
    (lit "while" ++ [Plus Space] ++ lit "1" ++ [Star Space] ++ lit ":").

Definition for_in_iter : object :=
  literal "for\s+\w+\s+in\s+iter\(\s*int\s*,\s*1\s*\)"
    (lit "for" ++ [Plus Space; Plus WordChar; Plus Space] ++ lit "in"
     ++ [Plus Space] ++ lit "iter(" ++ [Star Space] ++ lit "int"
     ++ [Star Space] ++ lit "," ++ [Star Space] ++ lit "1" ++ [Star Space]
     ++ lit ")").

Definition while_paren_true : object :=
  literal "while\s*\(\s*true\s*\)"
    (lit "while" ++ [Star Space] ++ lit "(" ++ [Star Space] ++ lit "true"
     ++ [Star Space] ++ lit ")").

Definition while_paren_1 : object :=
  literal "while\s*\(\s*1\s*\)"
    (lit "while" ++ [Star Space] ++ lit "(" ++ [Star Space] ++ lit "1"
     ++ [Star Space] ++ lit ")").

Definition for_semi_semi : object :=
  literal "for\s*\(\s*;\s*;\s*\)"
    (lit "for" ++ [Star Space] ++ lit "(" ++ [Star Space] ++ lit ";"
     ++ [Star Space] ++ lit ";" ++ [Star Space] ++ lit ")").

End RegExp.

(** ** Data model (libs/schema.sql) *)

Inductive session_status := ACTIVE | INACTIVE.

Inductive execution_status := QUEUED | RUNNING | COMPLETED | FAILED | TIMEOUT.

Global Instance session_status_eq_dec : EqDecision session_status.
Proof. solve_decision. Defined.

Global Instance execution_status_eq_dec : EqDecision execution_status.
Proof. solve_decision. Defined.

Definition terminal (s : execution_status) : bool :=
  match s with
  | COMPLETED | FAILED | TIMEOUT => true
  | QUEUED | RUNNING => false
  end.

Definition status_name (s : execution_status) : string :=
  match s with
  | QUEUED => "QUEUED"
  | RUNNING => "RUNNING"
  | COMPLETED => "COMPLETED"
  | FAILED => "FAILED"
  | TIMEOUT => "TIMEOUT"
  end.

Record LanguageRow := {
  lang_id : Z;
  lang_name : string;
  template_code : string;
  runtime : string;
  version : string;
  file_name : string;
  default_time_limit_ms : Z;
  default_memory_mb : Z
}.

Record SessionRow := {
  sess_id : string;
  language_id : Z;
  sess_status : session_status;
  source_code : string;
  sess_created_at : Z;
  sess_updated_at : Z
}.

Record ExecutionRow := {
  exec_id : string;
  session_id : string;
  status : execution_status;
  stdout : option string;
  stderr : option string;
  execution_time_ms : option Z;
  exit_code : option Z;
  created_at : Z;
  started_at : option Z;
  finished_at : option Z;
  timeout : bool
}.

(** The payload of a queued job and BullMQ's bookkeeping for it. *)
Record JobData := {
  job_execution_id : string;
  job_session_id : string;
  job_time_limit : Z;
  job_memory_limit : Z
}.

Record Job := {
  job_id : string;
  job_data : JobData;
  attemptsMade : nat;
  job_delay : Z
}.

(** A lifecycle event as [logExecutionEvent] builds it before
    serialising it to JSON. *)
Inductive meta_value :=
| MetaNum (n : Z)
| MetaStr (s : string)
| MetaBool (b : bool)
| MetaNull.

Record Event := {
  ev_execution_id : string;
  ev_stage : string;
  ev_timestamp : Z;
  ev_metadata : list (string * meta_value)
}.

(** A JavaScript [Error] with the two extra properties admission sets. *)
Record error := {
  message : string;
  err_status : option Z;
  err_retryAfter : option Z
}.

Definition Error (msg : string) : error :=
  {| message := msg; err_status := None; err_retryAfter := None |}.

(** ** The world the services run in

    [db_script], [redis_script] and [queue_script] say, request by request,
    whether the next request to PostgreSQL, to Redis and to the queue
    fails, and with which message: each request removes the head; an empty
    script means no failure. *)

Record World := {
  languages : gmap Z LanguageRow;
  sessions : gmap string SessionRow;
  executions : gmap string ExecutionRow;
  queue : list Job;
  failed_jobs : list Job;
  redis_lists : gmap string (list Event);
  redis_ttl : gmap string Z;
  regexps : list RegExp.object;
  console_warn : list string;
  db_script : list (option string);
  redis_script : list (option string);
  queue_script : list (option string)
}.

Definition set_executions (f : gmap string ExecutionRow → gmap string ExecutionRow)
    (w : World) : World :=
  {| languages := languages w; sessions := sessions w;
     executions := f (executions w); queue := queue w;
     failed_jobs := failed_jobs w; redis_lists := redis_lists w;
     redis_ttl := redis_ttl w; regexps := regexps w;
     console_warn := console_warn w; db_script := db_script w;
     redis_script := redis_script w; queue_script := queue_script w |}.

Definition set_queue (f : list Job → list Job) (w : World) : World :=
  {| languages := languages w; sessions := sessions w;
     executions := executions w; queue := f (queue w);
     failed_jobs := failed_jobs w; redis_lists := redis_lists w;
     redis_ttl := redis_ttl w; regexps := regexps w;
     console_warn := console_warn w; db_script := db_script w;
     redis_script := redis_script w; queue_script := queue_script w |}.

Definition set_failed_jobs (f : list Job → list Job) (w : World) : World :=
  {| languages := languages w; sessions := sessions w;
     executions := executions w; queue := queue w;
     failed_jobs := f (failed_jobs w); redis_lists := redis_lists w;
     redis_ttl := redis_ttl w; regexps := regexps w;
     console_warn := console_warn w; db_script := db_script w;
     redis_script := redis_script w; queue_script := queue_script w |}.

Definition set_redis_lists (f : gmap string (list Event) → gmap string (list Event))
    (w : World) : World :=
  {| languages := languages w; sessions := sessions w;
     executions := executions w; queue := queue w;
     failed_jobs := failed_jobs w; redis_lists := f (redis_lists w);
     redis_ttl := redis_ttl w; regexps := regexps w;
     console_warn := console_warn w; db_script := db_script w;
     redis_script := redis_script w; queue_script := queue_script w |}.

Definition set_redis_ttl (f : gmap string Z → gmap string Z) (w : World) : World :=
  {| languages := languages w; sessions := sessions w;
     executions := executions w; queue := queue w;
     failed_jobs := failed_jobs w; redis_lists := redis_lists w;
     redis_ttl := f (redis_ttl w); regexps := regexps w;
     console_warn := console_warn w; db_script := db_script w;
     redis_script := redis_script w; queue_script := queue_script w |}.

Definition set_regexps (f : list RegExp.object → list RegExp.object) (w : World) : World :=
  {| languages := languages w; sessions := sessions w;
     executions := executions w; queue := queue w;
     failed_jobs := failed_jobs w; redis_lists := redis_lists w;
     redis_ttl := redis_ttl w; regexps := f (regexps w);
     console_warn := console_warn w; db_script := db_script w;
     redis_script := redis_script w; queue_script := queue_script w |}.

Definition set_console_warn (f : list string → list string) (w : World) : World :=
  {| languages := languages w; sessions := sessions w;
     executions := executions w; queue := queue w;
     failed_jobs := failed_jobs w; redis_lists := redis_lists w;
     redis_ttl := redis_ttl w; regexps := regexps w;
     console_warn := f (console_warn w); db_script := db_script w;
     redis_script := redis_script w; queue_script := queue_script w |}.

Definition set_db_script (f : list (option string) → list (option string))
    (w : World) : World :=
  {| languages := languages w; sessions := sessions w;
     executions := executions w; queue := queue w;
     failed_jobs := failed_jobs w; redis_lists := redis_lists w;
     redis_ttl := redis_ttl w; regexps := regexps w;
     console_warn := console_warn w; db_script := f (db_script w);
     redis_script := redis_script w; queue_script := queue_script w |}.

Definition set_redis_script (f : list (option string) → list (option string))
    (w : World) : World :=
  {| languages := languages w; sessions := sessions w;
     executions := executions w; queue := queue w;
     failed_jobs := failed_jobs w; redis_lists := redis_lists w;
     redis_ttl := redis_ttl w; regexps := regexps w;
     console_warn := console_warn w; db_script := db_script w;
     redis_script := f (redis_script w); queue_script := queue_script w |}.

Definition set_queue_script (f : list (option string) → list (option string))
    (w : World) : World :=
  {| languages := languages w; sessions := sessions w;
     executions := executions w; queue := queue w;
     failed_jobs := failed_jobs w; redis_lists := redis_lists w;
     redis_ttl := redis_ttl w; regexps := regexps w;
     console_warn := console_warn w; db_script := db_script w;
     redis_script := redis_script w; queue_script := f (queue_script w) |}.

Definition set_sessions (f : gmap string SessionRow → gmap string SessionRow)
    (w : World) : World :=
  {| languages := languages w; sessions := f (sessions w);
     executions := executions w; queue := queue w;
     failed_jobs := failed_jobs w; redis_lists := redis_lists w;
     redis_ttl := redis_ttl w; regexps := regexps w;
     console_warn := console_warn w; db_script := db_script w;
     redis_script := redis_script w; queue_script := queue_script w |}.

(** ** services/CodeExecutionService.js: the Runner *)

Module CodeExecutionService.

(** What [execAsync] rejects with: the properties of the error that the
    Runner reads.  [x_stdout] and [x_stderr] may be missing. *)
Record ExecError := {
  x_message : string;
  x_code : Js.code;
  x_killed : bool;
  x_stdout : option string;
  x_stderr : option string
}.

(** The promise of [execAsync]: resolved with the captured output when
    the process exits with code 0, rejected otherwise (non-zero exit,
    kill on timeout, buffer overflow, spawn failure). *)
Inductive ExecResult :=
| Resolved (out err : string)
| Rejected (e : ExecError).

(** Everything the operating system decides during one run.  The two
    [writeFile] fields are the first and the second call of
    [fs.writeFile] of the run; an [option string] is the message of the
    error thrown, if any. *)
Record RunnerEnv := {
  tmpDir : string;
  mkdir_error : option string;
  writeFile1_error : option string;
  writeFile2_error : option string;
  compile_result : ExecResult;
  run_result : ExecResult;
  startTime : Z;
  endTime : Z;
  rm_error : option string
}.

Inductive Action :=
| Mkdir (dir : string)
| WriteFile (path content : string)
| Exec (cmd : string) (timeout_ms : Z) (maxBuffer : option Z)
| Rm (dir : string).

Record RunnerOutcome := {
  r_status : execution_status;
  r_stdout : string;
  r_stderr : string;
  r_execution_time_ms : Z;
  r_exit_code : option Js.code;
  r_timeout : bool
}.

(** A step of the body of [executeCode]: it goes on with a value, leaves
    the function through [return], or throws to the outer [catch].  The
    list is the file-system and process actions performed so far. *)
Inductive step (A : Type) :=
| Next (a : A)
| Return (r : RunnerOutcome)
| Raise (msg : string).
Arguments Next {A} a.
Arguments Return {A} r.
Arguments Raise {A} msg.

Definition Run (A : Type) : Type := list Action * step A.

Definition next {A} (a : A) : Run A := ([], Next a).
Definition return_ {A} (r : RunnerOutcome) : Run A := ([], Return r).
Definition raise {A} (msg : string) : Run A := ([], Raise msg).
Definition act (a : Action) : Run unit := ([a], Next tt).

Definition andThen {A B} (m : Run A) (k : A → Run B) : Run B :=
  match m with
  | (t, Next a) => let '(t', s) := k a in ((t ++ t')%list, s)
  | (t, Return r) => (t, Return r)
  | (t, Raise msg) => (t, Raise msg)
  end.

Notation "'let?' x := m 'in' k" := (andThen m (fun x => k))
  (at level 10, x name, m at level 100, k at level 200).
Notation "'do?' m 'in' k" := (andThen m (fun _ => k))
  (at level 10, m at level 100, k at level 200).

(** An awaited file-system call that may throw. *)
Definition fs_call (a : Action) (failure : option string) : Run unit :=
  do? act a in
  match failure with
  | Some msg => raise msg
  | None => next tt
  end.

Definition dq : string := String "034"%char EmptyString.
Definition quoted (s : string) : string := dq +:+ s +:+ dq.

(** [path.join(dir, name)] *)
Definition path_join (dir name : string) : string := dir +:+ "/" +:+ name.

Definition failed_outcome (err : string) : RunnerOutcome :=
  {| r_status := FAILED; r_stdout := ""; r_stderr := err;
     r_execution_time_ms := 0; r_exit_code := Some (Js.CodeNum 1);
     r_timeout := false |}.

(** [compileOut || compileErr || ''] *)
Definition compileOutput (out err : string) : string :=
  Js.or_str (Js.or_str out err) "".

Definition has_error_marker (output : string) : bool :=
  Js.includes "error" (Js.toLowerCase output)
  || Js.includes "not found" (Js.toLowerCase output).

Definition compileCmd (compiler execFile srcFile : string) : string :=
  compiler +:+ " -o " +:+ quoted execFile +:+ " " +:+ quoted srcFile +:+ " 2>&1".

(** The [case 'gcc'] and [case 'g++'] arms of the switch, which differ
    only in the compiler and the source file name.  The value passed on
    is the pair [(fileName, executeCommand)]. *)
Definition compiled_case (env : RunnerEnv) (compiler fileName : string)
    (sourceCode : string) (timeLimit : Z) : Run (string * string) :=
  let execFile := path_join (tmpDir env) "main" in
  do? fs_call (WriteFile (path_join (tmpDir env) fileName) sourceCode)
              (writeFile1_error env) in
  let cmd := compileCmd compiler execFile (path_join (tmpDir env) fileName) in
  do? act (Exec cmd (Z.max timeLimit 10000) None) in
  let fallback := "Compilation failed - " +:+ compiler +:+ " may not be installed" in
  match compile_result env with
  | Resolved compileOut compileErr =>
      let output := compileOutput compileOut compileErr in
      if has_error_marker output
      then return_ (failed_outcome (Js.or_str output fallback))
      else next (fileName, quoted execFile)
  | Rejected compileError =>
      let errorMsg := Js.or_str (x_message compileError) "Compilation failed" in
      let stderr :=
        Js.or_opt (x_stderr compileError)
          (Js.or_opt (x_stdout compileError) errorMsg) in
      return_ (failed_outcome (Js.or_str stderr fallback))
  end.

(** The [switch (language.runtime)]. *)
Definition select_runtime (env : RunnerEnv) (runtime sourceCode : string)
    (timeLimit : Z) : Run (string * string) :=
  if decide (runtime = "python") then
    next ("main.py", "python3 " +:+ quoted (path_join (tmpDir env) "main.py"))
  else if decide (runtime = "node") then
    next ("index.js", "node " +:+ quoted (path_join (tmpDir env) "index.js"))
  else if decide (runtime = "gcc") then
    compiled_case env "gcc" "main.c" sourceCode timeLimit
  else if decide (runtime = "g++") then
    compiled_case env "g++" "main.cpp" sourceCode timeLimit
  else raise ("Unsupported language: " +:+ runtime).

(** The inner [try]/[catch] around the run command. *)
Definition run_step (env : RunnerEnv) (executeCommand : string)
    (timeLimit memoryLimit : Z) : Run unit :=
  do? act (Exec executeCommand timeLimit (Some (memoryLimit * 1024 * 1024))) in
  let executionTime := endTime env - startTime env in
  match run_result env with
  | Resolved out err =>
      return_ {| r_status := COMPLETED;
                 r_stdout := Js.or_str out "";
                 r_stderr := Js.or_str err "";
                 r_execution_time_ms := executionTime;
                 r_exit_code := Some (Js.CodeNum 0);
                 r_timeout := false |}
  | Rejected e =>
      if x_killed e then
        return_ {| r_status := TIMEOUT;
                   r_stdout := Js.or_opt (x_stdout e) "";
                   r_stderr := Js.or_opt (x_stderr e) "Execution timeout";
                   r_execution_time_ms := executionTime;
                   r_exit_code := None;
                   r_timeout := true |}
      else
        return_ {| r_status := FAILED;
                   r_stdout := Js.or_opt (x_stdout e) "";
                   r_stderr := Js.or_opt (x_stderr e) (x_message e);
                   r_execution_time_ms := executionTime;
                   r_exit_code := Some (Js.code_or_1 (x_code e));
                   r_timeout := false |}
  end.

(** The body of the outer [try]. *)
Definition body (env : RunnerEnv) (runtime sourceCode : string)
    (timeLimit memoryLimit : Z) : Run unit :=
  do? fs_call (Mkdir (tmpDir env)) (mkdir_error env) in
  let? sel := select_runtime env runtime sourceCode timeLimit in
  let '(fileName, executeCommand) := sel in
  do? fs_call (WriteFile (path_join (tmpDir env) fileName) sourceCode)
              (if decide (runtime = "gcc") then writeFile2_error env
               else if decide (runtime = "g++") then writeFile2_error env
               else writeFile1_error env) in
  run_step env executeCommand timeLimit memoryLimit.

(** [executeCode(language, sourceCode, timeLimit, memoryLimit)], with the
    outer [catch] and the [finally] that removes the scratch directory
    (a failure of [fs.rm] is swallowed).  [runtime] is [language.runtime];
    the result carries the actions performed, in order. *)
Definition executeCode (env : RunnerEnv) (runtime sourceCode : string)
    (timeLimit memoryLimit : Z) : RunnerOutcome * list Action :=
  let '(trace, s) := body env runtime sourceCode timeLimit memoryLimit in
  let outcome :=
    match s with
    | Return r => r
    | Raise msg => failed_outcome msg
    | Next _ => failed_outcome ""   (* not reached: [run_step] always returns *)
    end in
  (outcome, (trace ++ [Rm (tmpDir env)])%list).

Definition is_exec (a : Action) : bool :=
  match a with
  | Exec _ _ _ => true
  | _ => false
  end.

(** [post N P Q m]: if [m] goes on its value satisfies [N], if it leaves
    through [return] the outcome satisfies [P], if it throws the message
    satisfies [Q]. *)
Definition post {A} (N : A → Prop) (P : RunnerOutcome → Prop) (Q : string → Prop)
    (m : Run A) : Prop :=
  match snd m with
  | Next a => N a
  | Return r => P r
  | Raise msg => Q msg
  end.

(** [marker] occurs in [output] up to letter case. *)
Definition ci_contains (marker output : string) : Prop :=
  ∃ pre mid post, output = pre +:+ mid +:+ post ∧ Js.toLowerCase mid = marker.

(** The compile step failed: the process did not exit with code 0, or
    its output carries one of the two error markers. *)
Definition compile_failed (res : ExecResult) : Prop :=
  match res with
  | Rejected _ => True
  | Resolved out err =>
      ci_contains "error" (compileOutput out err)
      ∨ ci_contains "not found" (compileOutput out err)
  end.


(** *** validateCode

    [String.prototype.trim] removes white space and line terminators from
    both ends; on the code units of the model that is the class [\s]. *)
Fixpoint trimStart (s : string) : string :=
  match s with
  | EmptyString => EmptyString
  | String c s' => if RegExp.is_space c then trimStart s' else s
  end.

Fixpoint trimEnd (s : string) : string :=
  match s with
  | EmptyString => EmptyString
  | String c s' =>
      match trimEnd s' with
      | EmptyString => if RegExp.is_space c then EmptyString else String c EmptyString
      | t => String c t
      end
  end.

Definition trim (s : string) : string := trimEnd (trimStart s).

Record CodeValidation := {
  code_valid : bool;
  code_error : option string
}.

(** [sourceCode.length], in code units. *)
Definition js_length (s : string) : Z := Z.of_nat (String.length s).

Definition validateCode (sourceCode : string) : CodeValidation :=
  if bool_decide (sourceCode = "") || (js_length (trim sourceCode) =? 0) then
    {| code_valid := false; code_error := Some "Source code cannot be empty" |}
  else if js_length sourceCode >? 1000000 then
    {| code_valid := false;
       code_error := Some "Source code exceeds maximum size (1MB)" |}
  else {| code_valid := true; code_error := None |}.

(** Every character of [s] is white space. *)
Fixpoint blank (s : string) : bool :=
  match s with
  | EmptyString => true
  | String c s' => RegExp.is_space c && blank s'
  end.

(** The file-system path of an action, if it has one. *)
Definition action_path (a : Action) : option string :=
  match a with
  | Mkdir dir => Some dir
  | WriteFile path _ => Some path
  | Rm dir => Some dir
  | Exec _ _ _ => None
  end.

Definition is_write (a : Action) : bool :=
  match a with
  | WriteFile _ _ => true
  | _ => false
  end.

Definition supported (runtime : string) : bool :=
  bool_decide (runtime ∈ ["python"; "node"; "gcc"; "g++"]).

(** The run step is reached: the scratch directory and the source file
    were created and, for a compiled language, the compile step did not
    fail and the source was written again. *)
Definition reaches_run (env : RunnerEnv) (runtime : string) : Prop :=
  mkdir_error env = None
  ∧ writeFile1_error env = None
  ∧ ((runtime = "python" ∨ runtime = "node")
     ∨ ((runtime = "gcc" ∨ runtime = "g++")
        ∧ ¬ compile_failed (compile_result env)
        ∧ writeFile2_error env = None)).

(** The processes among the actions of a run, in the order they were
    started. *)
Definition started (trace : list Action) : list Action := List.filter is_exec trace.

(** The processes a run is meant to start, each with its command line and
    its limits: the program under the limits of the request, after the
    compiler, for a compiled language, under a timeout of at least ten
    seconds and the default buffer. *)
Definition process_plan (env : RunnerEnv) (runtime : string)
    (timeLimit memoryLimit : Z) : list Action :=
  let dir := tmpDir env in
  let program cmd := Exec cmd timeLimit (Some (memoryLimit * 1024 * 1024)) in
  let compiler name file :=
    Exec (compileCmd name (path_join dir "main") (path_join dir file))
         (Z.max timeLimit 10000) None in
  if decide (runtime = "python") then
    [program ("python3 " +:+ quoted (path_join dir "main.py"))]
  else if decide (runtime = "node") then
    [program ("node " +:+ quoted (path_join dir "index.js"))]
  else if decide (runtime = "gcc") then
    [compiler "gcc" "main.c"; program (quoted (path_join dir "main"))]
  else if decide (runtime = "g++") then
    [compiler "g++" "main.cpp"; program (quoted (path_join dir "main"))]
  else [].

End CodeExecutionService.

(** ** The monad of the asynchronous services

    A computation reads what the outside world decides for this call
    ([Env]), transforms the [World] and either returns or throws. *)

Record Env := {
  now : Z;                                   (* Date.now(), NOW(): milliseconds *)
  finished : Z;           (* [new Date()] in the worker, once the Runner is back *)
  uuid : string;                             (* the value uuidv4() returns *)
  runner : CodeExecutionService.RunnerEnv
}.

Inductive outcome (A : Type) :=
| Ok (a : A)
| Throw (e : error).
Arguments Ok {A} a.
Arguments Throw {A} e.

Definition M (A : Type) : Type := Env → World → outcome A * World.

Definition ret {A} (a : A) : M A := fun _ w => (Ok a, w).

Definition throw {A} (e : error) : M A := fun _ w => (Throw e, w).

Definition bind {A B} (m : M A) (k : A → M B) : M B :=
  fun env w =>
    match m env w with
    | (Ok a, w') => k a env w'
    | (Throw e, w') => (Throw e, w')
    end.

(** [try { m } catch (e) { h e }] *)
Definition try_catch {A} (m : M A) (h : error → M A) : M A :=
  fun env w =>
    match m env w with
    | (Ok a, w') => (Ok a, w')
    | (Throw e, w') => h e env w'
    end.

Definition ask : M Env := fun env w => (Ok env, w).
Definition get : M World := fun _ w => (Ok w, w).
Definition modify (f : World → World) : M unit := fun _ w => (Ok tt, f w).

Notation "'let!' x := m 'in' k" := (bind m (fun x => k))
  (at level 10, x name, m at level 100, k at level 200).
Notation "'run!' m 'in' k" := (bind m (fun _ => k))
  (at level 10, m at level 100, k at level 200).

(** One request to a backend: the head of its script decides. *)
Definition request (script : World → list (option string))
    (set : (list (option string) → list (option string)) → World → World) : M unit :=
  let! w := get in
  run! modify (set (drop 1)) in
  match script w with
  | Some msg :: _ => throw (Error msg)
  | _ => ret tt
  end.

(** Whether the next request of a script fails. *)
Definition fails_next (script : list (option string)) : bool :=
  match script with
  | Some _ :: _ => true
  | _ => false
  end.

(** libs/db.js [query]: logs and rethrows the driver's error. *)
Definition db_request : M unit := request db_script set_db_script.
Definition redis_request : M unit := request redis_script set_redis_script.
Definition queue_request : M unit := request queue_script set_queue_script.

(** [w'] differs from [w] at most in what Redis holds. *)
Record redis_only (w w' : World) : Prop := {
  same_languages : languages w' = languages w;
  same_sessions : sessions w' = sessions w;
  same_executions : executions w' = executions w;
  same_queue : queue w' = queue w;
  same_failed_jobs : failed_jobs w' = failed_jobs w;
  same_regexps : regexps w' = regexps w;
  same_console_warn : console_warn w' = console_warn w;
  same_db_script : db_script w' = db_script w;
  same_queue_script : queue_script w' = queue_script w
}.

(** ** models/Execution.js *)

Module Execution.

Record ResultData := {
  d_status : execution_status;
  d_stdout : string;
  d_stderr : string;
  d_execution_time_ms : Z;
  d_exit_code : option Js.code;
  d_timeout : bool;
  d_finished_at : Z
}.

Definition findById (id : string) : M (option ExecutionRow) :=
  run! db_request in
  let! w := get in
  ret (executions w !! id).

(** [INSERT INTO executions (id, session_id, status) ... RETURNING *]:
    the primary key and the foreign key to [sessions] are enforced; the
    other columns take their defaults. *)
Definition create (id sessionId : string) (st : execution_status) : M ExecutionRow :=
  run! db_request in
  let! w := get in
  let! env := ask in
  match executions w !! id with
  | Some _ =>
      throw (Error "duplicate key value violates unique constraint executions_pkey")
  | None =>
      match sessions w !! sessionId with
      | None =>
          throw (Error ("insert on table executions violates foreign key "
                        +:+ "constraint fk_executions_session"))
      | Some _ =>
          let row :=
            {| exec_id := id; session_id := sessionId; status := st;
               stdout := None; stderr := None; execution_time_ms := None;
               exit_code := None; created_at := now env; started_at := None;
               finished_at := None; timeout := false |} in
          run! modify (set_executions <[id := row]>) in
          ret row
      end
  end.

(** The value of the INTEGER column [exit_code] for a payload: [null]
    is NULL, a number is itself, and a string (the error names Node
    puts in [code]) is refused by the server. *)
Definition integer_param (c : option Js.code) : option (option Z) :=
  match c with
  | None => Some None
  | Some (Js.CodeNum n) => Some (Some n)
  | Some (Js.CodeStr _) => None
  | Some Js.CodeUndefined => Some None
  end.

Definition apply_result (d : ResultData) (code : option Z) (row : ExecutionRow)
    : ExecutionRow :=
  {| exec_id := exec_id row; session_id := session_id row;
     status := d_status d; stdout := Some (d_stdout d);
     stderr := Some (d_stderr d);
     execution_time_ms := Some (d_execution_time_ms d);
     exit_code := code; created_at := created_at row;
     started_at := started_at row; finished_at := Some (d_finished_at d);
     timeout := d_timeout d |}.

(** [UPDATE executions SET status = $1, ... WHERE id = $8 RETURNING *]:
    no condition but the id.  The column type of [exit_code] and the
    CHECK on [execution_time_ms] are enforced by the server.  A refusal
    for any other reason (a text value with a NUL character, which the
    server's encoding does not admit; a lost connection) is a failing
    request of [db_script]. *)
Definition updateResult (id : string) (d : ResultData) : M (option ExecutionRow) :=
  run! db_request in
  let! w := get in
  match integer_param (d_exit_code d) with
  | None => throw (Error "invalid input syntax for type integer")
  | Some code =>
      match executions w !! id with
      | None => ret None
      | Some row =>
          if d_execution_time_ms d <? 0
          then throw (Error ("new row for relation executions violates check "
                             +:+ "constraint executions_execution_time_ms_check"))
          else
            let row' := apply_result d code row in
            run! modify (set_executions <[id := row']>) in
            ret (Some row')
      end
  end.

Definition mark_started (t : Z) (row : ExecutionRow) : ExecutionRow :=
  {| exec_id := exec_id row; session_id := session_id row;
     status := RUNNING; stdout := stdout row; stderr := stderr row;
     execution_time_ms := execution_time_ms row;
     exit_code := exit_code row; created_at := created_at row;
     started_at := Some t; finished_at := finished_at row;
     timeout := timeout row |}.

(** [UPDATE executions SET status = 'RUNNING', started_at = NOW()
    WHERE id = $1 RETURNING *]: no condition but the id. *)
Definition updateStarted (id : string) : M (option ExecutionRow) :=
  run! db_request in
  let! w := get in
  let! env := ask in
  match executions w !! id with
  | None => ret None
  | Some row =>
      let row' := mark_started (now env) row in
      run! modify (set_executions <[id := row']>) in
      ret (Some row')
  end.

End Execution.

(** ** models/Session.js and models/Language.js (the reads the pipeline uses) *)

Module Session.

Definition findById (id : string) : M (option SessionRow) :=
  run! db_request in
  let! w := get in
  ret (sessions w !! id).

(** [SELECT s.*, l.... FROM sessions s JOIN languages l ON ...]: a row
    only when both the session and its language exist. *)
Definition findWithLanguage (id : string) : M (option (SessionRow * LanguageRow)) :=
  run! db_request in
  let! w := get in
  ret (match sessions w !! id with
       | Some s =>
           match languages w !! language_id s with
           | Some l => Some (s, l)
           | None => None
           end
       | None => None
       end).

(** [INSERT INTO sessions (id, language_id, source_code, status) ...
    RETURNING *]: primary key and the foreign key to [languages] are
    enforced; the two timestamps default to NOW(). *)
Definition create (id : string) (languageId : Z) (sourceCode : string)
    (st : session_status) : M SessionRow :=
  run! db_request in
  let! w := get in
  let! env := ask in
  match sessions w !! id with
  | Some _ =>
      throw (Error "duplicate key value violates unique constraint sessions_pkey")
  | None =>
      match languages w !! languageId with
      | None =>
          throw (Error ("insert on table sessions violates foreign key "
                        +:+ "constraint fk_sessions_language"))
      | Some _ =>
          let row :=
            {| sess_id := id; language_id := languageId; sess_status := st;
               source_code := sourceCode; sess_created_at := now env;
               sess_updated_at := now env |} in
          run! modify (set_sessions <[id := row]>) in
          ret row
      end
  end.

Definition apply_update (sourceCode : option string) (st : option session_status)
    (t : Z) (row : SessionRow) : SessionRow :=
  {| sess_id := sess_id row; language_id := language_id row;
     sess_status := default (sess_status row) st;
     source_code := default (source_code row) sourceCode;
     sess_created_at := sess_created_at row; sess_updated_at := t |}.

(** [update(id, { source_code, status })]: a field that is [undefined] is
    left out of the SET list; with no field at all the function returns
    [null] without a query.  Otherwise
    [UPDATE sessions SET ..., updated_at = NOW() WHERE id = $n RETURNING *]. *)
Definition update (id : string) (sourceCode : option string)
    (st : option session_status) : M (option SessionRow) :=
  match sourceCode, st with
  | None, None => ret None
  | _, _ =>
      run! db_request in
      let! w := get in
      let! env := ask in
      match sessions w !! id with
      | None => ret None
      | Some row =>
          let row' := apply_update sourceCode st (now env) row in
          run! modify (set_sessions <[id := row']>) in
          ret (Some row')
      end
  end.

End Session.

Module Language.

Definition findById (id : Z) : M (option LanguageRow) :=
  run! db_request in
  let! w := get in
  ret (languages w !! id).

End Language.

(** ** services/SafetyService.js *)

Module SafetyService.

Definition ABUSE_CHECK_WINDOW : Z := 60.
Definition MAX_EXECUTIONS_PER_MINUTE : Z := 10.
Definition MAX_FAILED_ATTEMPTS : Z := 5.

(** *** detectInfiniteLoopPatterns *)

Record LoopCheck := {
  detected : bool;
  pattern : option string;
  loop_message : option string
}.

(** The regular-expression literals of the [patterns] object, in source
    order.  The object literal is inside the function body, so every
    call evaluates the twelve literals and creates twelve new objects. *)
Definition pattern_literals : list RegExp.object :=
  [ RegExp.while_True_colon; RegExp.while_1_colon; RegExp.for_in_iter;
    RegExp.while_paren_true; RegExp.while_paren_1; RegExp.for_semi_semi;
    RegExp.while_paren_1; RegExp.while_paren_true; RegExp.for_semi_semi;
    RegExp.while_paren_1; RegExp.while_paren_true; RegExp.for_semi_semi ].

(** Names every object inherits from [Object.prototype]: [patterns[name]]
    is then a function or the prototype itself, truthy and not iterable. *)
Definition inherited_names : list string :=
  [ "constructor"; "__proto__"; "hasOwnProperty"; "isPrototypeOf";
    "propertyIsEnumerable"; "toLocaleString"; "toString"; "valueOf";
    "__defineGetter__"; "__defineSetter__"; "__lookupGetter__";
    "__lookupSetter__" ].

(** [patterns[language.runtime] || []], as the addresses of the objects
    allocated from [base] on; [None] when the value is not an array. *)
Definition langPatterns (base : nat) (runtime : string) : option (list nat) :=
  if decide (runtime = "python") then Some [base; base + 1; base + 2]%nat
  else if decide (runtime = "node") then Some [base + 3; base + 4; base + 5]%nat
  else if decide (runtime = "gcc") then Some [base + 6; base + 7; base + 8]%nat
  else if decide (runtime = "g++") then Some [base + 9; base + 10; base + 11]%nat
  else if decide (runtime ∈ inherited_names) then None
  else Some [].

(** The [for (const pattern of langPatterns)] loop; [pattern.test]
    reads and writes the object at its address. *)
Fixpoint scan (locs : list nat) (sourceCode : string) (heap : list RegExp.object)
    : outcome LoopCheck * list RegExp.object :=
  match locs with
  | [] => (Ok {| detected := false; pattern := None; loop_message := None |}, heap)
  | l :: rest =>
      match heap !! l with
      | None => (Throw (Error "Cannot read properties of undefined"), heap)
      | Some r =>
          let '(found, r') := RegExp.test r sourceCode in
          let heap' := <[l := r']> heap in
          if found
          then (Ok {| detected := true;
                      pattern := Some (RegExp.toString r');
                      loop_message :=
                        Some ("Potential infinite loop detected: "
                              +:+ RegExp.toString r') |}, heap')
          else scan rest sourceCode heap'
      end
  end.

(** [runtime] is [language.runtime]; [heap] holds the RegExp objects
    that exist when the call starts. *)
Definition detectInfiniteLoopPatterns (sourceCode runtime : string)
    (heap : list RegExp.object) : outcome LoopCheck * list RegExp.object :=
  let base := length heap in
  let heap := (heap ++ pattern_literals)%list in
  match langPatterns base runtime with
  | None => (Throw (Error "langPatterns is not iterable"), heap)
  | Some locs => scan locs sourceCode heap
  end.

(** The same loop on the objects themselves rather than on their
    addresses, and the objects of each runtime as the literals create
    them: what a call computes when no object is shared with another
    call. *)
Fixpoint scan_objects (objs : list RegExp.object) (sourceCode : string) : LoopCheck :=
  match objs with
  | [] => {| detected := false; pattern := None; loop_message := None |}
  | r :: rest =>
      let '(found, r') := RegExp.test r sourceCode in
      if found
      then {| detected := true;
              pattern := Some (RegExp.toString r');
              loop_message :=
                Some ("Potential infinite loop detected: " +:+ RegExp.toString r') |}
      else scan_objects rest sourceCode
  end.

Definition fresh_patterns (runtime : string) : option (list RegExp.object) :=
  if decide (runtime = "python")
  then Some [RegExp.while_True_colon; RegExp.while_1_colon; RegExp.for_in_iter]
  else if decide (runtime = "node")
  then Some [RegExp.while_paren_true; RegExp.while_paren_1; RegExp.for_semi_semi]
  else if decide (runtime = "gcc")
  then Some [RegExp.while_paren_1; RegExp.while_paren_true; RegExp.for_semi_semi]
  else if decide (runtime = "g++")
  then Some [RegExp.while_paren_1; RegExp.while_paren_true; RegExp.for_semi_semi]
  else if decide (runtime ∈ inherited_names) then None
  else Some [].

(** *** checkExecutionAbuse *)

Record AbuseCheck := {
  allowed : bool;
  reason : option string;
  retryAfter : option Z
}.

(** [Math.floor(Date.now() / 1000) - ABUSE_CHECK_WINDOW], in seconds. *)
Definition windowStart (now_ms : Z) : Z := now_ms / 1000 - ABUSE_CHECK_WINDOW.

(** The rows the query ranges over:
    [WHERE session_id = $1 AND created_at > to_timestamp($2)]. *)
Definition in_window (sessionId : string) (start : Z) (kv : string * ExecutionRow) : Prop :=
  session_id kv.2 = sessionId ∧ start * 1000 < created_at kv.2.

Global Instance in_window_dec sid start kv : Decision (in_window sid start kv).
Proof. unfold in_window. apply _. Defined.

Definition recent (sessionId : string) (start : Z)
    (execs : gmap string ExecutionRow) : gmap string ExecutionRow :=
  filter (in_window sessionId start) execs.

Definition is_failed (kv : string * ExecutionRow) : Prop := status kv.2 = FAILED.

Global Instance is_failed_dec kv : Decision (is_failed kv).
Proof. unfold is_failed. apply _. Defined.

(** [COUNT( * )] and [SUM(CASE WHEN status = 'FAILED' THEN 1 ELSE 0 END)]
    over those rows; the sum of no rows is NULL. *)
Definition count (rows : gmap string ExecutionRow) : Z := Z.of_nat (size rows).

Definition failed_count (rows : gmap string ExecutionRow) : option Z :=
  if decide (size rows = 0%nat) then None
  else Some (Z.of_nat (size (filter is_failed rows))).

Definition abuse_query (sessionId : string) (start : Z) : M (Z * option Z) :=
  run! db_request in
  let! w := get in
  let rows := recent sessionId start (executions w) in
  ret (count rows, failed_count rows).

Definition checkExecutionAbuse (sessionId : string) : M AbuseCheck :=
  try_catch
    (let! env := ask in
     let start := windowStart (now env) in
     let! result := abuse_query sessionId start in
     let '(count, failed_count) := result in
     let failedCount := default 0 failed_count in   (* parseInt(failed_count || 0) *)
     if MAX_EXECUTIONS_PER_MINUTE <=? count then
       ret {| allowed := false;
              reason := Some ("Rate limit exceeded: " +:+ pretty count +:+ "/"
                              +:+ pretty MAX_EXECUTIONS_PER_MINUTE
                              +:+ " executions in " +:+ pretty ABUSE_CHECK_WINDOW
                              +:+ "s");
              retryAfter := Some ABUSE_CHECK_WINDOW |}
     else if MAX_FAILED_ATTEMPTS <=? failedCount then
       ret {| allowed := false;
              reason := Some ("Too many failed attempts: " +:+ pretty failedCount
                              +:+ "/" +:+ pretty MAX_FAILED_ATTEMPTS);
              retryAfter := Some ABUSE_CHECK_WINDOW |}
     else ret {| allowed := true; reason := None; retryAfter := None |})
    (fun _ =>
       (* Fail open - allow execution if check fails *)
       ret {| allowed := true; reason := None; retryAfter := None |}).

(** *** logExecutionEvent

    [redis.lpush] then [redis.expire(key, 1800)]; any failure is caught
    and the function then returns [undefined]. *)
Definition events_key (executionId : string) : string :=
  "execution:" +:+ executionId +:+ ":events".

Definition lpush (key : string) (ev : Event) : M unit :=
  run! redis_request in
  modify (set_redis_lists (fun m => <[key := ev :: default [] (m !! key)]> m)).

Definition expire (key : string) (seconds : Z) : M unit :=
  run! redis_request in
  let! w := get in
  match redis_lists w !! key with
  | Some _ => modify (set_redis_ttl <[key := seconds]>)
  | None => ret tt
  end.

Definition logExecutionEvent (executionId stage : string)
    (metadata : list (string * meta_value)) : M (option Event) :=
  try_catch
    (let! env := ask in
     let event := {| ev_execution_id := executionId; ev_stage := stage;
                     ev_timestamp := now env; ev_metadata := metadata |} in
     let redisKey := events_key executionId in
     run! lpush redisKey event in
     run! expire redisKey 1800 in
     ret (Some event))
    (fun _ => ret None).

(** *** getExecutionEvents

    [redis.lrange(key, 0, -1)], each entry parsed, the list reversed; any
    failure is caught and gives the empty list.  Events are kept as
    records, so parsing is the identity; the expiry of a key over time is
    not modelled. *)
Definition lrange_all (key : string) : M (list Event) :=
  run! redis_request in
  let! w := get in
  ret (default [] (redis_lists w !! key)).

Definition getExecutionEvents (executionId : string) : M (list Event) :=
  try_catch
    (let redisKey := events_key executionId in
     let! events := lrange_all redisKey in
     ret (reverse events))
    (fun _ => ret []).

End SafetyService.

(** ** libs/queue.js: the BullMQ queue [code-execution]

    [defaultJobOptions]: three attempts, exponential backoff from 2000 ms,
    completed jobs removed, failed jobs kept. *)

Module Queue.

Definition attempts : nat := 3.
Definition backoff_delay : Z := 2000.

Definition has_job (id : string) (jobs : list Job) : bool :=
  existsb (fun j => String.eqb (job_id j) id) jobs.

(** [codeExecutionQueue.add('execute', data, { jobId })]: a job id that
    is already present is not added again. *)
Definition add (data : JobData) (jobId : string) : M unit :=
  run! queue_request in
  let! w := get in
  if has_job jobId (queue w) || has_job jobId (failed_jobs w) then ret tt
  else
    modify (set_queue (fun q =>
      q ++ [ {| job_id := jobId; job_data := data; attemptsMade := 0;
                job_delay := 0 |} ])%list).

End Queue.

(** ** services/ExecutionService.js: admission *)

Module ExecutionService.

Record Submitted := {
  execution_id : string;
  submitted_status : execution_status
}.

(** [errors.join(', ')] *)
Fixpoint join (sep : string) (l : list string) : string :=
  match l with
  | [] => ""
  | [x] => x
  | x :: rest => x +:+ sep +:+ join sep rest
  end.

(** The synchronous loop scan, run on the RegExp objects of the world. *)
Definition loopCheck (sourceCode runtime : string) : M SafetyService.LoopCheck :=
  fun _ w =>
    let '(r, heap) :=
      SafetyService.detectInfiniteLoopPatterns sourceCode runtime (regexps w) in
    (r, set_regexps (fun _ => heap) w).

Definition submitExecution (sessionId : string) (timeLimit memoryLimit : Z)
    : M Submitted :=
  let validation := Validation.validateExecutionParams timeLimit memoryLimit in
  if negb (Validation.valid validation) then
    throw (Error ("Validation failed: " +:+ join ", " (Validation.errors validation)))
  else
    let! abuseCheck := SafetyService.checkExecutionAbuse sessionId in
    if negb (SafetyService.allowed abuseCheck) then
      throw {| message := default "" (SafetyService.reason abuseCheck);
               err_status := Some 429;
               err_retryAfter := SafetyService.retryAfter abuseCheck |}
    else
      let! session := Session.findById sessionId in
      match session with
      | None => throw (Error ("Session not found: " +:+ sessionId))
      | Some session =>
          let! check := loopCheck (source_code session) "node" in
          run! (if SafetyService.detected check
                then modify (set_console_warn (fun l =>
                       l ++ ["[ExecutionService] Infinite loop warning: "
                             +:+ default "undefined"
                                   (SafetyService.loop_message check)])%list)
                else ret tt) in
          let! env := ask in
          let executionId := uuid env in
          let! execution := Execution.create executionId sessionId QUEUED in
          run! SafetyService.logExecutionEvent executionId "QUEUED"
                 [ ("session_id", MetaStr sessionId);
                   ("time_limit", MetaNum timeLimit);
                   ("memory_limit", MetaNum memoryLimit) ] in
          run! Queue.add
                 {| job_execution_id := executionId; job_session_id := sessionId;
                    job_time_limit := timeLimit; job_memory_limit := memoryLimit |}
                 executionId in
          ret {| execution_id := exec_id execution;
                 submitted_status := status execution |}
      end.

(** The row step 6 inserts and the job step 8 enqueues. *)
Definition queued_row (executionId sessionId : string) (t : Z) : ExecutionRow :=
  {| exec_id := executionId; session_id := sessionId; status := QUEUED;
     stdout := None; stderr := None; execution_time_ms := None;
     exit_code := None; created_at := t; started_at := None;
     finished_at := None; timeout := false |}.

Definition job_for (executionId sessionId : string) (timeLimit memoryLimit : Z) : Job :=
  {| job_id := executionId;
     job_data := {| job_execution_id := executionId; job_session_id := sessionId;
                    job_time_limit := timeLimit; job_memory_limit := memoryLimit |};
     attemptsMade := 0; job_delay := 0 |}.

(** The checks of steps 1 to 3 pass and the insert of step 6 succeeds:
    the limits are valid, the abuse check allows, the second and third
    request to the store (session fetch, insert) do not fail, the
    session exists and the generated id is unused. *)
Record reaches_enqueue (sessionId : string) (timeLimit memoryLimit : Z)
    (env : Env) (w : World) (session : SessionRow) : Prop := {
  limits_valid :
    Validation.valid (Validation.validateExecutionParams timeLimit memoryLimit) = true;
  abuse_allows :
    ∀ c, fst (SafetyService.checkExecutionAbuse sessionId env w) = Ok c →
         SafetyService.allowed c = true;
  fetch_succeeds : fails_next (drop 1 (db_script w)) = false;
  session_exists : sessions w !! sessionId = Some session;
  insert_succeeds : fails_next (drop 2 (db_script w)) = false;
  id_unused : executions w !! uuid env = None
}.

(** What the scan of step 4 reports for a source: it always runs with the
    runtime key [node]. *)
Definition admission_scan (sourceCode : string) : SafetyService.LoopCheck :=
  SafetyService.scan_objects
    [RegExp.while_paren_true; RegExp.while_paren_1; RegExp.for_semi_semi] sourceCode.

(** The lines step 4 adds to [console.warn]. *)
Definition scan_warnings (sourceCode : string) : list string :=
  if SafetyService.detected (admission_scan sourceCode)
  then ["[ExecutionService] Infinite loop warning: "
        +:+ default "undefined" (SafetyService.loop_message (admission_scan sourceCode))]
  else [].

(** *** getExecution

    The response always has [execution_id] and [status]; the three output
    properties are present only for a terminal status.  An absent property
    is [None]; [execution_time_ms] may be present and [null]. *)
Record ExecutionResponse := {
  resp_execution_id : string;
  resp_status : execution_status;
  resp_stdout : option string;
  resp_stderr : option string;
  resp_execution_time_ms : option (option Z)
}.

Definition getExecution (executionId : string) : M ExecutionResponse :=
  let! execution := Execution.findById executionId in
  match execution with
  | None => throw (Error ("Execution not found: " +:+ executionId))
  | Some execution =>
      if terminal (status execution) then
        ret {| resp_execution_id := exec_id execution;
               resp_status := status execution;
               resp_stdout := Some (Js.or_opt (stdout execution) "");
               resp_stderr := Some (Js.or_opt (stderr execution) "");
               resp_execution_time_ms := Some (execution_time_ms execution) |}
      else
        ret {| resp_execution_id := exec_id execution;
               resp_status := status execution;
               resp_stdout := None; resp_stderr := None;
               resp_execution_time_ms := None |}
  end.

(** *** updateExecutionWithResult

    [updated] is [undefined] when no row has the id, and reading
    [updated.id] then throws a TypeError. *)
Definition updateExecutionWithResult (executionId : string)
    (result : CodeExecutionService.RunnerOutcome) : M ExecutionRow :=
  let! env := ask in
  let! updated :=
    Execution.updateResult executionId
      {| Execution.d_status := CodeExecutionService.r_status result;
         Execution.d_stdout := Js.or_str (CodeExecutionService.r_stdout result) "";
         Execution.d_stderr := Js.or_str (CodeExecutionService.r_stderr result) "";
         Execution.d_execution_time_ms :=
           CodeExecutionService.r_execution_time_ms result;
         Execution.d_exit_code := CodeExecutionService.r_exit_code result;
         Execution.d_timeout := CodeExecutionService.r_timeout result;
         Execution.d_finished_at := now env |} in
  match updated with
  | None => throw (Error "Cannot read properties of undefined (reading 'id')")
  | Some row => ret row
  end.

End ExecutionService.

(** ** services/SessionService.js *)

Module SessionService.

Record SessionSummary := {
  summary_session_id : string;
  summary_status : session_status
}.

Definition summary (row : SessionRow) : SessionSummary :=
  {| summary_session_id := sess_id row; summary_status := sess_status row |}.

Definition undefined_id : error :=
  Error "Cannot read properties of undefined (reading 'id')".

Definition createSession (languageId : Z) : M SessionSummary :=
  let! language := Language.findById languageId in
  match language with
  | None => throw (Error ("Language not found: " +:+ pretty languageId))
  | Some language =>
      let! env := ask in
      let sessionId := uuid env in
      let! session :=
        Session.create sessionId languageId
          (Js.or_str (template_code language) "") ACTIVE in
      ret (summary session)
  end.

Definition updateSessionCode (sessionId sourceCode : string) : M SessionSummary :=
  let! session := Session.findById sessionId in
  match session with
  | None => throw (Error ("Session not found: " +:+ sessionId))
  | Some _ =>
      let! updated := Session.update sessionId (Some sourceCode) None in
      match updated with
      | None => throw undefined_id
      | Some updated => ret (summary updated)
      end
  end.

(** The session joined with its language, as [getSession] returns it. *)
Definition getSession (sessionId : string) : M (SessionRow * LanguageRow) :=
  let! session := Session.findWithLanguage sessionId in
  match session with
  | None => throw (Error ("Session not found: " +:+ sessionId))
  | Some joined => ret joined
  end.

Definition closeSession (sessionId : string) : M SessionSummary :=
  let! session := Session.findById sessionId in
  match session with
  | None => throw (Error ("Session not found: " +:+ sessionId))
  | Some _ =>
      let! updated := Session.update sessionId None (Some INACTIVE) in
      match updated with
      | None => throw undefined_id
      | Some updated => ret (summary updated)
      end
  end.

End SessionService.

(** ** workers/codeExecutionWorker.js *)

Module Worker.

Import CodeExecutionService.

Definition result_data (result : RunnerOutcome) (t : Z) : Execution.ResultData :=
  {| Execution.d_status := r_status result;
     Execution.d_stdout := r_stdout result;
     Execution.d_stderr := r_stderr result;
     Execution.d_execution_time_ms := r_execution_time_ms result;
     Execution.d_exit_code := r_exit_code result;
     Execution.d_timeout := r_timeout result;
     Execution.d_finished_at := t |}.

Definition failure_data (e : error) (t : Z) : Execution.ResultData :=
  {| Execution.d_status := FAILED;
     Execution.d_stdout := "";
     Execution.d_stderr := message e;
     Execution.d_execution_time_ms := 0;
     Execution.d_exit_code := Some (Js.CodeNum 1);
     Execution.d_timeout := false;
     Execution.d_finished_at := t |}.

Definition meta_code (c : option Js.code) : meta_value :=
  match c with
  | Some (Js.CodeNum n) => MetaNum n
  | Some (Js.CodeStr s) => MetaStr s
  | _ => MetaNull
  end.

Definition processExecution (job : Job) : M RunnerOutcome :=
  let execution_id := job_execution_id (job_data job) in
  let session_id := job_session_id (job_data job) in
  let time_limit := job_time_limit (job_data job) in
  let memory_limit := job_memory_limit (job_data job) in
  let attempt := MetaNum (Z.of_nat (attemptsMade job) + 1) in
  try_catch
    (run! Execution.updateStarted execution_id in
     run! SafetyService.logExecutionEvent execution_id "RUNNING"
            [("job_attempt", attempt)] in
     let! session := Session.findWithLanguage session_id in
     match session with
     | None => throw (Error ("Session not found: " +:+ session_id))
     | Some (session, _) =>
         let! language := Language.findById (language_id session) in
         match language with
         | None =>
             throw (Error ("Language not found: " +:+ pretty (language_id session)))
         | Some language =>
             let! env := ask in
             let result :=
               fst (executeCode (runner env) (runtime language)
                      (source_code session) time_limit memory_limit) in
             run! Execution.updateResult execution_id (result_data result (finished env)) in
             run! SafetyService.logExecutionEvent execution_id
                    (status_name (r_status result))
                    [ ("execution_time_ms", MetaNum (r_execution_time_ms result));
                      ("exit_code", meta_code (r_exit_code result));
                      ("timeout", MetaBool (r_timeout result)) ] in
             ret result
         end
     end)
    (fun error =>
       run! SafetyService.logExecutionEvent execution_id "FAILED"
              [("error", MetaStr (message error)); ("job_attempt", attempt)] in
       let! env := ask in
       run! Execution.updateResult execution_id (failure_data error (finished env)) in
       throw error).

(** What BullMQ's [Worker] does with the processor's promise, under the
    options of libs/queue.js: a resolved job is completed and removed; a
    rejected job is a failed attempt, put back with a backoff delay while
    attempts remain and moved to the failed set after the last one. *)
Definition without (id : string) (jobs : list Job) : list Job :=
  filter (fun j => job_id j ≠ id) jobs.

Definition retried (job : Job) : Job :=
  {| job_id := job_id job; job_data := job_data job;
     attemptsMade := S (attemptsMade job);
     job_delay := Queue.backoff_delay * 2 ^ Z.of_nat (attemptsMade job) |}.

Definition failed_for_good (job : Job) : Job :=
  {| job_id := job_id job; job_data := job_data job;
     attemptsMade := S (attemptsMade job); job_delay := 0 |}.

Definition run_job (job : Job) : M unit :=
  fun env w =>
    match processExecution job env w with
    | (Ok _, w') => (Ok tt, set_queue (without (job_id job)) w')
    | (Throw _, w') =>
        if (S (attemptsMade job) <? Queue.attempts)%nat
        then (Ok tt, set_queue (fun q => without (job_id job) q ++ [retried job])%list w')
        else (Ok tt, set_failed_jobs (fun f => f ++ [failed_for_good job])%list
                       (set_queue (without (job_id job)) w'))
    end.

End Worker.

(** ** Concrete worlds used by the examples below *)

Module Fixtures.

Import CodeExecutionService.

Definition javascript : LanguageRow :=
  {| lang_id := 2; lang_name := "JavaScript";
     template_code := "console.log('Hello World')"; runtime := "node";
     version := "18"; file_name := "index.js";
     default_time_limit_ms := 5000; default_memory_mb := 256 |}.

Definition closed_session : SessionRow :=
  {| sess_id := "sess-001"; language_id := 2; sess_status := INACTIVE;
     source_code := "console.log('Hello World')";
     sess_created_at := 1000; sess_updated_at := 2000 |}.

Definition open_session : SessionRow :=
  {| sess_id := "sess-002"; language_id := 2; sess_status := ACTIVE;
     source_code := "while (true) {}";
     sess_created_at := 1000; sess_updated_at := 2000 |}.

Definition completed_execution : ExecutionRow :=
  {| exec_id := "exec-001"; session_id := "sess-002"; status := COMPLETED;
     stdout := Some "Hello World"; stderr := Some "";
     execution_time_ms := Some 42; exit_code := Some 0;
     created_at := 3000; started_at := Some 3100;
     finished_at := Some 3142; timeout := false |}.

Definition queued_execution : ExecutionRow :=
  {| exec_id := "exec-002"; session_id := "sess-002"; status := QUEUED;
     stdout := None; stderr := None; execution_time_ms := None;
     exit_code := None; created_at := 4000; started_at := None;
     finished_at := None; timeout := false |}.

Definition world : World :=
  {| languages := {[ 2 := javascript ]};
     sessions := {[ "sess-001" := closed_session; "sess-002" := open_session ]};
     executions := {[ "exec-001" := completed_execution;
                      "exec-002" := queued_execution ]};
     queue := []; failed_jobs := []; redis_lists := ∅; redis_ttl := ∅;
     regexps := []; console_warn := [];
     db_script := []; redis_script := []; queue_script := [] |}.

(** The same world with the queue refusing its next request. *)
Definition world_queue_down : World :=
  set_queue_script (fun _ => [Some "Connection is closed."]) world.

Definition quiet_runner : RunnerEnv :=
  {| tmpDir := "/tmp/code-exec-1700000000000-k3j9x2m1q";
     mkdir_error := None; writeFile1_error := None; writeFile2_error := None;
     compile_result := Resolved "" ""; run_result := Resolved "Hello World" "";
     startTime := 5000; endTime := 5042; rm_error := None |}.

Definition env : Env :=
  {| now := 5000; finished := 5060; uuid := "exec-003"; runner := quiet_runner |}.

(** gcc exits with code 0 and prints a warning in which the word
    [error] occurs. *)
Definition broken_c_runner : RunnerEnv :=
  {| tmpDir := "/tmp/code-exec-1700000000000-k3j9x2m1q";
     mkdir_error := None; writeFile1_error := None; writeFile2_error := None;
     compile_result :=
       Resolved "main.c:2:3: warning: implicit declaration of function perror" "";
     run_result := Resolved "" "";
     startTime := 5000; endTime := 5042; rm_error := None |}.

(** A script that prints [x] and exits with code 7. *)
Definition exit7_runner : RunnerEnv :=
  {| tmpDir := "/tmp/code-exec-1700000000000-k3j9x2m1q";
     mkdir_error := None; writeFile1_error := None; writeFile2_error := None;
     compile_result := Resolved "" "";
     run_result :=
       Rejected {| x_message := "Command failed: node index.js";
                   x_code := Js.CodeNum 7; x_killed := false;
                   x_stdout := Some "x"; x_stderr := Some "" |};
     startTime := 5000; endTime := 5042; rm_error := None |}.



Definition exit7_env : Env :=
  {| now := 5050; finished := 5113; uuid := "exec-003"; runner := exit7_runner |}.

Definition queued_job : Job :=
  {| job_id := "exec-002";
     job_data := {| job_execution_id := "exec-002"; job_session_id := "sess-002";
                    job_time_limit := 5000; job_memory_limit := 256 |};
     attemptsMade := 0; job_delay := 0 |}.

(** A recent FAILED execution of the given session. *)
Definition exit7_row_of (sessionId : string) : ExecutionRow :=
  {| exec_id := "exec-777"; session_id := sessionId; status := FAILED;
     stdout := Some "x"; stderr := Some "Command failed: node index.js";
     execution_time_ms := Some 42; exit_code := Some 7;
     created_at := 4900; started_at := Some 4950;
     finished_at := Some 4992; timeout := false |}.

Definition failed_row_at (id sessionId : string) : ExecutionRow :=
  {| exec_id := id; session_id := sessionId; status := FAILED;
     stdout := Some ""; stderr := Some "Command failed: node index.js";
     execution_time_ms := Some 12; exit_code := Some 1;
     created_at := 4800; started_at := Some 4850;
     finished_at := Some 4862; timeout := false |}.

(** [sess-002] has five FAILED executions in the last minute. *)
Definition tripped_world : World :=
  set_executions
    (fun _ => {[ "exec-f1" := failed_row_at "exec-f1" "sess-002";
                 "exec-f2" := failed_row_at "exec-f2" "sess-002";
                 "exec-f3" := failed_row_at "exec-f3" "sess-002";
                 "exec-f4" := failed_row_at "exec-f4" "sess-002";
                 "exec-f5" := failed_row_at "exec-f5" "sess-002" ]})
    world.

(** The shell cannot be started: the error of [exec] carries the name
    of the system error in [code]. *)
Definition spawn_refused_runner : RunnerEnv :=
  {| tmpDir := "/tmp/code-exec-1700000000000-k3j9x2m1q";
     mkdir_error := None; writeFile1_error := None; writeFile2_error := None;
     compile_result := Resolved "" "";
     run_result :=
       Rejected {| x_message := "spawn /bin/sh EAGAIN";
                   x_code := Js.CodeStr "EAGAIN"; x_killed := false;
                   x_stdout := Some ""; x_stderr := Some "" |};
     startTime := 5000; endTime := 5001; rm_error := None |}.

Definition spawn_refused_env : Env :=
  {| now := 5050; finished := 5113; uuid := "exec-003"; runner := spawn_refused_runner |}.

Definition exit7_row : ExecutionRow :=
  {| exec_id := "exec-002"; session_id := "sess-002"; status := FAILED;
     stdout := Some "x"; stderr := Some "Command failed: node index.js";
     execution_time_ms := Some 42; exit_code := Some 7;
     created_at := 4000; started_at := Some 5050;
     finished_at := Some 5113; timeout := false |}.

(** A job whose session has been deleted since admission; the deletion
    cascaded to the execution row. *)
Definition orphan_job : Job :=
  {| job_id := "exec-009";
     job_data := {| job_execution_id := "exec-009"; job_session_id := "sess-gone";
                    job_time_limit := 5000; job_memory_limit := 256 |};
     attemptsMade := 0; job_delay := 0 |}.

End Fixtures.

(** ** Vocabulary of the properties *)

(** A Hoare triple with a postcondition for each way a computation can
    end: [Q] when it returns, [E] when it throws. *)
Definition hoare {A} (env : Env) (P : World → Prop) (m : M A)
    (Q : A → World → Prop) (E : error → World → Prop) : Prop :=
  ∀ w, P w →
    match m env w with
    | (Ok a, w') => Q a w'
    | (Throw e, w') => E e w'
    end.






(** [w] differs from [w0] in the store at most by the execution row [id],
    which is neither created nor deleted and keeps its identity columns;
    the queue is as it was. *)
Definition only_row_changed (id : string) (w0 w : World) : Prop :=
  sessions w = sessions w0 ∧ languages w = languages w0
  ∧ queue w = queue w0 ∧ failed_jobs w = failed_jobs w0
  ∧ (∀ k, k ≠ id → executions w !! k = executions w0 !! k)
  ∧ match executions w0 !! id, executions w !! id with
    | Some r0, Some r =>
        exec_id r = exec_id r0 ∧ session_id r = session_id r0
        ∧ created_at r = created_at r0
    | None, None => True
    | _, _ => False
    end.

(** What an admission may have done to [w0] by the time the world is
    [w]: the sessions, the languages and the failed set are as before, no
    row that existed has changed, no row but the one with the generated
    id has appeared, and the queue has gained at most the job of this
    call. *)
Definition admission_frame (env : Env) (sessionId : string)
    (timeLimit memoryLimit : Z) (w0 w : World) : Prop :=
  sessions w = sessions w0 ∧ languages w = languages w0
  ∧ failed_jobs w = failed_jobs w0
  ∧ (∀ k, k ≠ uuid env → executions w !! k = executions w0 !! k)
  ∧ (∀ row, executions w0 !! uuid env = Some row →
            executions w !! uuid env = Some row)
  ∧ (queue w = queue w0
     ∨ queue w = (queue w0 ++ [ExecutionService.job_for (uuid env) sessionId
                                 timeLimit memoryLimit])%list).

(** * Properties *)

(** ** Parameter validation *)

Section ValidationFacts.

Import Validation.

Lemma messages_differ : time_message ≠ memory_message.
Proof. vm_compute. discriminate. Qed.

Lemma lt_integers (a b : Z) : Js.lt a b = (a <? b).
Proof. unfold Js.lt, Js.number_lt; cbn. rewrite !Z.mul_1_r. reflexivity. Qed.

Lemma gt_integers (a b : Z) : Js.gt a b = (a >? b).
Proof. unfold Js.gt, Js.number_lt; cbn. rewrite !Z.mul_1_r, Z.gtb_ltb. reflexivity. Qed.

(** On integers the validator is the range test. *)
Lemma validateExecutionParams_integers (t m : Z) :
  validateExecutionParams t m
  = {| valid := (100 <=? t) && (t <=? 60000) && (32 <=? m) && (m <=? 2048);
       errors := (if (100 <=? t) && (t <=? 60000) then [] else [time_message])
                 ++ (if (32 <=? m) && (m <=? 2048) then [] else [memory_message]) |}.
Proof.
  unfold validateExecutionParams, push, MIN_TIME_LIMIT, MAX_TIME_LIMIT,
    MIN_MEMORY_LIMIT, MAX_MEMORY_LIMIT.
  rewrite !lt_integers, !gt_integers, !Z.gtb_ltb.
  destruct (Z.ltb_spec t 100), (Z.ltb_spec 60000 t), (Z.ltb_spec m 32),
    (Z.ltb_spec 2048 m), (Z.leb_spec 100 t), (Z.leb_spec t 60000),
    (Z.leb_spec 32 m), (Z.leb_spec m 2048); try lia; reflexivity.
Qed.

Lemma outside_iff (v : Js.value) (lo hi : Z) :
  lo ≤ hi →
  (Js.lt v lo || Js.gt v hi = false ↔ not_outside v lo hi)
  ∧ (Js.lt v lo = true → Js.gt v hi = true → False).
Proof.
  intros Hle. unfold Js.lt, Js.gt, not_outside, Js.number_lt.
  change (Js.ToNumber (Js.of_Z lo)) with (Js.Finite lo 1).
  change (Js.ToNumber (Js.of_Z hi)) with (Js.Finite hi 1).
  destruct (Js.ToNumber v) as [| |n d|]; cbn [orb].
  - split; [tauto | discriminate].
  - split; [split; [discriminate | tauto] | discriminate].
  - rewrite !Z.mul_1_r.
    destruct (Z.ltb_spec n (lo * Z.pos d)), (Z.ltb_spec (hi * Z.pos d) n); cbn [orb].
    all: split; [split; try discriminate; try lia; auto | intros; try discriminate; nia].
  - split; [split; [discriminate | tauto] | discriminate].
Qed.

(** C5 as stated fails: limits that are absent from the request reach the
    validator as [undefined], every comparison with a bound is false, and
    the validator accepts; so it does for NaN and for a string that is
    not a numeral. *)
Lemma undefined_limits_pass_validation :
  validateExecutionParams Js.Undefined Js.Undefined = {| valid := true; errors := [] |}
  ∧ validateExecutionParams (Js.Number Js.NaN) 256 = {| valid := true; errors := [] |}
  ∧ validateExecutionParams 5000 (Js.Str "plenty" Js.NaN)
    = {| valid := true; errors := [] |}.
Proof. repeat split. Qed.

(** C5, amended.  For all inputs the validator accepts exactly when
    neither limit is a number outside its range: a limit passes when it
    converts to a number within [100, 60000] (time) or [32, 2048]
    (memory), and also when it converts to NaN.  The list it returns has
    one entry per violated bound, the time message first: the time
    message when a time bound is violated and the memory message when a
    memory bound is violated.  On integers this is the range test of the
    specification. *)
Theorem validateExecutionParams_violations (t m : Js.value) :
  let r := validateExecutionParams t m in
  (valid r = true ↔ not_outside t 100 60000 ∧ not_outside m 32 2048)
  ∧ length (errors r) = length (violated_bounds t m)
  ∧ errors r = ((if bool_decide (time_message ∈ errors r) then [time_message] else [])
                ++ (if bool_decide (memory_message ∈ errors r)
                    then [memory_message] else []))%list
  ∧ (time_message ∈ errors r ↔ ¬ not_outside t 100 60000)
  ∧ (memory_message ∈ errors r ↔ ¬ not_outside m 32 2048)
  ∧ (∀ a b : Z, t = a → m = b →
       (valid r = true ↔ 100 ≤ a ≤ 60000 ∧ 32 ≤ b ≤ 2048)
       ∧ (time_message ∈ errors r ↔ ¬ 100 ≤ a ≤ 60000)
       ∧ (memory_message ∈ errors r ↔ ¬ 32 ≤ b ≤ 2048)).
Proof.
  pose proof messages_differ as Hne.
  destruct (outside_iff t 100 60000 ltac:(lia)) as [Ht Ht'].
  destruct (outside_iff m 32 2048 ltac:(lia)) as [Hm Hm'].
  assert (Hint : ∀ (a lo hi : Z), not_outside a lo hi ↔ lo ≤ a ≤ hi).
  { intros a lo hi. unfold not_outside. cbn. lia. }
  cbv zeta.
  unfold validateExecutionParams, violated_bounds, push, violates,
    MIN_TIME_LIMIT, MAX_TIME_LIMIT, MIN_MEMORY_LIMIT, MAX_MEMORY_LIMIT.
  cbn [filter list_filter].
  destruct (Js.lt t 100) eqn:Et1, (Js.gt t 60000) eqn:Et2,
    (Js.lt m 32) eqn:Em1, (Js.gt m 2048) eqn:Em2;
    try (exfalso; apply Ht'; reflexivity); try (exfalso; apply Hm'; reflexivity).
  all: cbn [orb] in Ht, Hm.
  all: first [assert (Hto : not_outside t 100 60000) by (apply Ht; reflexivity)
             | assert (Hto : ¬ not_outside t 100 60000)
                 by (intros X; apply Ht in X; discriminate)].
  all: first [assert (Hmo : not_outside m 32 2048) by (apply Hm; reflexivity)
             | assert (Hmo : ¬ not_outside m 32 2048)
                 by (intros X; apply Hm in X; discriminate)].
  all: clear Ht Hm Ht' Hm'.
  all: cbn [orb app length Nat.eqb valid errors].
  all: assert (Htm : time_message ∈ [time_message; memory_message])
         by (rewrite !elem_of_cons; auto).
  all: assert (Hmm : memory_message ∈ [time_message; memory_message])
         by (rewrite !elem_of_cons; auto).
  all: assert (Hmt : ¬ memory_message ∈ [time_message])
         by (rewrite elem_of_cons, elem_of_nil; intros [?|[]]; congruence).
  all: assert (Htm' : ¬ time_message ∈ [memory_message])
         by (rewrite elem_of_cons, elem_of_nil; intros [?|[]]; congruence).
  all: assert (Ht1 : time_message ∈ [time_message]) by (rewrite elem_of_cons; auto).
  all: assert (Hm1 : memory_message ∈ [memory_message]) by (rewrite elem_of_cons; auto).
  all: pose proof (proj1 (elem_of_nil time_message)) as Hn1;
       pose proof (proj1 (elem_of_nil memory_message)) as Hn2.
  all: repeat match goal with
         | |- context [bool_decide ?P] =>
             first [rewrite (bool_decide_eq_true_2 P) by assumption
                   | rewrite (bool_decide_eq_false_2 P) by assumption]
         end.
  all: repeat split; try reflexivity; try tauto; try discriminate.
  all: subst t m; rewrite Hint in Hto, Hmo; tauto.
Qed.

End ValidationFacts.

(** ** The Runner *)

Section RunnerFacts.

Import CodeExecutionService.

Lemma post_andThen {A B} (N1 : A → Prop) (N2 : B → Prop) P Q
    (m : Run A) (k : A → Run B) :
  post N1 P Q m → (∀ a, N1 a → post N2 P Q (k a)) → post N2 P Q (andThen m k).
Proof.
  unfold post, andThen. destruct m as [t [a|r|msg]]; cbn; auto.
  intros Ha Hk. specialize (Hk a Ha). destruct (k a) as [t' s]. exact Hk.
Qed.

Lemma post_fs_call P (Q : string → Prop) a failure :
  (∀ msg, failure = Some msg → Q msg) → post (fun _ => True) P Q (fs_call a failure).
Proof.
  intros H. unfold fs_call. eapply post_andThen with (N1 := fun _ => True).
  - exact I.
  - intros _ _. destruct failure; cbn; auto.
Qed.

Lemma post_executeCode (P : RunnerOutcome → Prop) (Q : string → Prop)
    env runtime sourceCode timeLimit memoryLimit :
  post (fun _ => False) P Q (body env runtime sourceCode timeLimit memoryLimit) →
  (∀ msg, Q msg → P (failed_outcome msg)) →
  P (fst (executeCode env runtime sourceCode timeLimit memoryLimit)).
Proof.
  unfold post, executeCode. intros Hb Hq.
  destruct (body _ _ _ _ _) as [t [a|r|msg]]; cbn in *; [contradiction|auto..].
Qed.

(** The shape of a proof about every outcome: [P] holds of the outcomes
    of the compile step and of the run step, and of the outcome the
    outer [catch] builds from any message satisfying [Q]. *)
Lemma executeCode_ind (P : RunnerOutcome → Prop) (Q : string → Prop)
    env runtime sourceCode timeLimit memoryLimit :
  (∀ msg, mkdir_error env = Some msg → Q msg) →
  (∀ msg, writeFile1_error env = Some msg → Q msg) →
  (∀ msg, writeFile2_error env = Some msg → Q msg) →
  Q ("Unsupported language: " +:+ runtime) →
  (∀ compiler fileName,
      post (fun _ => True) P Q (compiled_case env compiler fileName sourceCode timeLimit)) →
  (∀ cmd, post (fun _ => False) P Q (run_step env cmd timeLimit memoryLimit)) →
  (∀ msg, Q msg → P (failed_outcome msg)) →
  P (fst (executeCode env runtime sourceCode timeLimit memoryLimit)).
Proof.
  intros Hmk Hw1 Hw2 Hun Hcomp Hrun Hq.
  apply post_executeCode with (Q := Q); [|exact Hq].
  unfold body.
  eapply post_andThen; [apply post_fs_call, Hmk|]. intros _ _.
  eapply post_andThen with (N1 := fun _ => True).
  - unfold select_runtime. repeat case_decide; cbn; auto.
  - intros [fileName cmd] _.
    eapply post_andThen; [|intros _ _; apply Hrun].
    apply post_fs_call. repeat case_decide; auto.
Qed.

Lemma post_run_step (P : RunnerOutcome → Prop) Q env cmd timeLimit memoryLimit :
  (∀ out err, run_result env = Resolved out err →
     P {| r_status := COMPLETED; r_stdout := Js.or_str out "";
          r_stderr := Js.or_str err "";
          r_execution_time_ms := endTime env - startTime env;
          r_exit_code := Some (Js.CodeNum 0); r_timeout := false |}) →
  (∀ e, run_result env = Rejected e → x_killed e = true →
     P {| r_status := TIMEOUT; r_stdout := Js.or_opt (x_stdout e) "";
          r_stderr := Js.or_opt (x_stderr e) "Execution timeout";
          r_execution_time_ms := endTime env - startTime env;
          r_exit_code := None; r_timeout := true |}) →
  (∀ e, run_result env = Rejected e → x_killed e = false →
     P {| r_status := FAILED; r_stdout := Js.or_opt (x_stdout e) "";
          r_stderr := Js.or_opt (x_stderr e) (x_message e);
          r_execution_time_ms := endTime env - startTime env;
          r_exit_code := Some (Js.code_or_1 (x_code e)); r_timeout := false |}) →
  post (fun _ => False) P Q (run_step env cmd timeLimit memoryLimit).
Proof.
  intros Hok Hkill Hfail. unfold run_step, post, andThen, act, return_.
  destruct (run_result env) as [out err|e]; cbn; [auto|].
  destruct (x_killed e) eqn:Hk; cbn; auto.
Qed.

Lemma post_compiled_case (P : RunnerOutcome → Prop) (Q : string → Prop)
    env compiler fileName sourceCode timeLimit :
  (∀ msg, writeFile1_error env = Some msg → Q msg) →
  (∀ err, err ≠ "" → P (failed_outcome err)) →
  post (fun _ => True) P Q (compiled_case env compiler fileName sourceCode timeLimit).
Proof.
  intros Hw Hp. unfold compiled_case.
  eapply post_andThen; [apply post_fs_call, Hw|]. intros _ _.
  eapply post_andThen with (N1 := fun _ => True); [exact I|]. intros _ _.
  assert (Hfb : ∀ s, Js.or_str s ("Compilation failed - " +:+ compiler
                                    +:+ " may not be installed") ≠ "").
  { intros s. unfold Js.or_str. case_decide; [discriminate|assumption]. }
  destruct (compile_result env) as [out err|e].
  - destruct (has_error_marker _); cbn; auto.
  - cbn. auto.
Qed.

(** *** Strings: [includes] and the case-insensitive markers *)

Lemma prefix_iff (p s : string) :
  String.prefix p s = true ↔ ∃ rest, s = p +:+ rest.
Proof.
  revert s. induction p as [|c p IH]; intros s.
  - destruct s; cbn; (split; [intros _; eexists; reflexivity | reflexivity]).
  - destruct s as [|d s]; cbn.
    + split; [discriminate | intros [rest H]; discriminate].
    + destruct (Ascii.ascii_dec c d) as [->|Hne].
      * rewrite IH. split; intros [rest H]; exists rest.
        -- rewrite H. reflexivity.
        -- change (String d s = String d (p +:+ rest)) in H. congruence.
      * split; [discriminate|]. intros [rest H].
        change (String d s = String c (p +:+ rest)) in H. congruence.
Qed.

Lemma includes_iff (needle hay : string) :
  Js.includes needle hay = true ↔ ∃ pre rest, hay = pre +:+ needle +:+ rest.
Proof.
  induction hay as [|c hay IH]; cbn [Js.includes].
  - rewrite orb_false_r, prefix_iff. split.
    + intros [rest H]. exists "", rest. exact H.
    + intros [[|d pre] [rest H]]; [exists rest; exact H | discriminate].
  - rewrite orb_true_iff, prefix_iff, IH. split.
    + intros [[rest H]|[pre [rest H]]].
      * exists "", rest. exact H.
      * exists (String c pre), rest. rewrite H. reflexivity.
    + intros [[|d pre] [rest H]].
      * left. exists rest. exact H.
      * right. exists pre, rest.
        change (String c hay = String d (pre +:+ needle +:+ rest)) in H. congruence.
Qed.

Lemma toLowerCase_app (a b : string) :
  Js.toLowerCase (a +:+ b) = Js.toLowerCase a +:+ Js.toLowerCase b.
Proof.
  induction a as [|c a IH]; [reflexivity|].
  change (String (Js.lower_ascii c) (Js.toLowerCase (a +:+ b))
          = String (Js.lower_ascii c) (Js.toLowerCase a +:+ Js.toLowerCase b)).
  rewrite IH. reflexivity.
Qed.

Lemma toLowerCase_split (s a b : string) :
  Js.toLowerCase s = a +:+ b →
  ∃ a' b', s = a' +:+ b' ∧ Js.toLowerCase a' = a ∧ Js.toLowerCase b' = b.
Proof.
  revert s. induction a as [|c a IH]; intros s H.
  - exists "", s. auto.
  - destruct s as [|d s]; [discriminate|].
    change (String (Js.lower_ascii d) (Js.toLowerCase s) = String c (a +:+ b)) in H.
    injection H as Hc Hs. destruct (IH _ Hs) as (a' & b' & -> & <- & <-).
    exists (String d a'), b'. repeat split. cbn [Js.toLowerCase]. rewrite Hc. reflexivity.
Qed.

Lemma includes_lower_iff (marker output : string) :
  Js.includes marker (Js.toLowerCase output) = true ↔ ci_contains marker output.
Proof.
  rewrite includes_iff. unfold ci_contains. split.
  - intros (pre & rest & H).
    apply toLowerCase_split in H as (pre' & tl & -> & <- & H).
    apply toLowerCase_split in H as (mid & post & -> & <- & <-).
    exists pre', mid, post. auto.
  - intros (pre & mid & post & -> & <-).
    exists (Js.toLowerCase pre), (Js.toLowerCase post).
    rewrite !toLowerCase_app. reflexivity.
Qed.

Lemma has_error_marker_iff (output : string) :
  has_error_marker output = true
  ↔ ci_contains "error" output ∨ ci_contains "not found" output.
Proof.
  unfold has_error_marker. rewrite orb_true_iff, !includes_lower_iff. reflexivity.
Qed.

Lemma ci_contains_nonempty (marker output : string) :
  marker ≠ "" → ci_contains marker output → output ≠ "".
Proof.
  intros Hm (pre & mid & post & -> & <-) H.
  destruct pre; [|discriminate]. destruct mid; [|discriminate]. auto.
Qed.

Lemma or_str_nonempty (a b : string) : b ≠ "" → Js.or_str a b ≠ "".
Proof. intros Hb. unfold Js.or_str. case_decide; auto. Qed.

Lemma or_str_id (a b : string) : a ≠ "" → Js.or_str a b = a.
Proof. intros Ha. unfold Js.or_str. case_decide; congruence. Qed.

Lemma or_opt_nonempty (a : option string) (b : string) : b ≠ "" → Js.or_opt a b ≠ "".
Proof. destruct a; cbn; auto using or_str_nonempty. Qed.

(** C7. For a compiled language ([gcc], [g++]) whose compile step is
    reached and fails (the compiler exits non-zero, or its output
    contains [error] or [not found] in any letter case), the Runner
    returns status FAILED, empty stdout, a non-empty stderr (the compile
    output, or the first non-empty of the error's stderr, stdout and
    message, or the fallback text), execution time 0, exit code 1 and
    timeout false; the only process started is the compiler. *)
Theorem compile_failure_skips_run (env : RunnerEnv) (runtime sourceCode : string)
    (timeLimit memoryLimit : Z) :
  runtime = "gcc" ∨ runtime = "g++" →
  mkdir_error env = None →
  writeFile1_error env = None →
  compile_failed (compile_result env) →
  let fileName := if decide (runtime = "gcc") then "main.c" else "main.cpp" in
  let result := executeCode env runtime sourceCode timeLimit memoryLimit in
  let out := fst result in
  r_status out = FAILED
  ∧ r_stdout out = ""
  ∧ r_stderr out ≠ ""
  ∧ r_stderr out =
      match compile_result env with
      | Resolved o e => compileOutput o e
      | Rejected e =>
          Js.or_opt (x_stderr e)
            (Js.or_opt (x_stdout e) (Js.or_str (x_message e) "Compilation failed"))
      end
  ∧ r_execution_time_ms out = 0
  ∧ r_exit_code out = Some (Js.CodeNum 1)
  ∧ r_timeout out = false
  ∧ filter (fun a => is_exec a = true) (snd result) =
      [Exec (compileCmd runtime (path_join (tmpDir env) "main")
               (path_join (tmpDir env) fileName))
            (Z.max timeLimit 10000) None].
Proof.
  intros Hrt Hmk Hw Hfail.
  assert (Hnonempty :
    match compile_result env with
    | Resolved o e => has_error_marker (compileOutput o e) = true
                      ∧ compileOutput o e ≠ ""
    | Rejected e =>
        Js.or_opt (x_stderr e)
          (Js.or_opt (x_stdout e) (Js.or_str (x_message e) "Compilation failed")) ≠ ""
    end).
  { destruct (compile_result env) as [o e|e]; cbn in Hfail.
    - split; [apply has_error_marker_iff, Hfail|].
      destruct Hfail as [H|H]; eapply ci_contains_nonempty; try exact H; discriminate.
    - apply or_opt_nonempty, or_opt_nonempty, or_str_nonempty. discriminate. }
  unfold executeCode, body, select_runtime, compiled_case, fs_call.
  rewrite Hmk, Hw.
  destruct Hrt as [-> | ->]; repeat (case_decide; try congruence);
    destruct (compile_result env) as [o e|e]; cbn.
  all: try (destruct Hnonempty as [-> Hne]; cbn).
  all: rewrite or_str_id by assumption.
  all: repeat split; auto.
Qed.

Lemma compile_failure_skips_run_witness :
  let result :=
    executeCode Fixtures.broken_c_runner "gcc" "int main(){ perror(0); }" 5000 256 in
  r_status (fst result) = FAILED
  ∧ r_stderr (fst result)
    = "main.c:2:3: warning: implicit declaration of function perror"
  ∧ r_exit_code (fst result) = Some (Js.CodeNum 1)
  ∧ filter (fun a => is_exec a = true) (snd result)
    = [Exec (compileCmd "gcc" "/tmp/code-exec-1700000000000-k3j9x2m1q/main"
               "/tmp/code-exec-1700000000000-k3j9x2m1q/main.c") 10000 None].
Proof.
  assert (Hfail : compile_failed (compile_result Fixtures.broken_c_runner)).
  { left. exists "main.c:2:3: warning: implicit declaration of function p", "error", "".
    split; reflexivity. }
  pose proof (compile_failure_skips_run Fixtures.broken_c_runner "gcc"
                "int main(){ perror(0); }" 5000 256
                (or_introl eq_refl) eq_refl eq_refl Hfail) as H.
  cbv zeta in H. destruct H as (H1 & _ & _ & H2 & _ & H3 & _ & H4).
  repeat split; assumption.
Defined.

(** C8. Every outcome of [executeCode] has [status = TIMEOUT] exactly when
    [timeout = true]; a TIMEOUT outcome has [exit_code = null]; a
    COMPLETED outcome has [exit_code = 0] and [timeout = false]. *)
Theorem executeCode_outcome_consistent (env : RunnerEnv) (runtime sourceCode : string)
    (timeLimit memoryLimit : Z) :
  let out := fst (executeCode env runtime sourceCode timeLimit memoryLimit) in
  (r_status out = TIMEOUT ↔ r_timeout out = true)
  ∧ (r_status out = TIMEOUT → r_exit_code out = None)
  ∧ (r_status out = COMPLETED →
     r_exit_code out = Some (Js.CodeNum 0) ∧ r_timeout out = false).
Proof.
  cbv zeta.
  apply executeCode_ind with (Q := fun _ => True); auto.
  - intros. apply post_compiled_case; [auto|].
    intros; cbn; repeat split; congruence.
  - intros. apply post_run_step; intros; cbn; repeat split; congruence.
  - intros; cbn; repeat split; congruence.
Qed.


End RunnerFacts.

(** ** The loop-pattern scan *)

Section LoopScanFacts.

Import SafetyService.

(** When the addresses are distinct and hold the given objects, the loop
    over addresses computes what the loop over objects computes. *)
Lemma scan_scan_objects (locs : list nat) (objs : list RegExp.object)
    (sourceCode : string) (heap : list RegExp.object) :
  NoDup locs →
  Forall2 (fun l r => heap !! l = Some r) locs objs →
  fst (scan locs sourceCode heap) = Ok (scan_objects objs sourceCode).
Proof.
  intros Hnd Hall. revert objs heap Hall.
  induction Hnd as [|l locs Hnotin Hnd IH]; intros objs heap Hall.
  - inversion Hall; subst. reflexivity.
  - inversion Hall as [|? r ? objs' Hl Hrest]; subst. cbn [scan scan_objects].
    rewrite Hl. destruct (RegExp.test r sourceCode) as [[|] r']; [reflexivity|].
    apply IH. eapply Forall2_impl; [|intros ? ? H; exact H].
    clear -Hrest Hnotin. induction Hrest as [|l' r'' locs objs' Hl' Hrest IH]; constructor.
    + rewrite list_lookup_insert_ne; [exact Hl'|].
      intros ->. apply Hnotin. left.
    + apply IH. intros Hin. apply Hnotin. right. exact Hin.
Qed.

Lemma lookup_fresh (heap : list RegExp.object) (l i : nat) :
  l = (length heap + i)%nat →
  (heap ++ pattern_literals)%list !! l = pattern_literals !! i.
Proof. intros ->. rewrite lookup_app_r by lia. f_equal. lia. Qed.

(** The result of a call does not depend on the heap it starts from. *)
Lemma detect_result (sourceCode runtime : string) (heap : list RegExp.object) :
  fst (detectInfiniteLoopPatterns sourceCode runtime heap) =
  match fresh_patterns runtime with
  | Some objs => Ok (scan_objects objs sourceCode)
  | None => Throw (Error "langPatterns is not iterable")
  end.
Proof.
  unfold detectInfiniteLoopPatterns, langPatterns, fresh_patterns.
  repeat case_decide; try reflexivity.
  all: apply scan_scan_objects;
    [ repeat (constructor; [rewrite ?elem_of_cons, ?elem_of_nil; lia|]); constructor
    | repeat (constructor;
                [first [ rewrite (lookup_fresh heap _ 0) by lia
                       | rewrite (lookup_fresh heap _ 1) by lia
                       | rewrite (lookup_fresh heap _ 2) by lia
                       | rewrite (lookup_fresh heap _ 3) by lia
                       | rewrite (lookup_fresh heap _ 4) by lia
                       | rewrite (lookup_fresh heap _ 5) by lia
                       | rewrite (lookup_fresh heap _ 6) by lia
                       | rewrite (lookup_fresh heap _ 7) by lia
                       | rewrite (lookup_fresh heap _ 8) by lia
                       | rewrite (lookup_fresh heap _ 9) by lia
                       | rewrite (lookup_fresh heap _ 10) by lia
                       | rewrite (lookup_fresh heap _ 11) by lia ];
                 reflexivity|]);
      constructor ].
Qed.

(** C10. [detectInfiniteLoopPatterns] is deterministic: two successive
    calls with the same source and runtime return the same result, and
    the result of a call is the same whatever RegExp objects earlier
    calls left behind. *)
Theorem detectInfiniteLoopPatterns_deterministic (sourceCode runtime : string)
    (heap heap' : list RegExp.object) :
  (let first := detectInfiniteLoopPatterns sourceCode runtime heap in
   let second := detectInfiniteLoopPatterns sourceCode runtime (snd first) in
   fst second = fst first)
  ∧ fst (detectInfiniteLoopPatterns sourceCode runtime heap')
    = fst (detectInfiniteLoopPatterns sourceCode runtime heap).
Proof. cbv zeta. rewrite !detect_result. split; reflexivity. Qed.

End LoopScanFacts.

(** ** The abuse check *)

Section AbuseFacts.

Import SafetyService.

Lemma request_run script set (w : World) (env : Env) :
  request script set env w =
  (match script w with
   | Some msg :: _ => Throw (Error msg)
   | _ => Ok tt
   end, set (drop 1) w).
Proof.
  unfold request, bind, get, modify, throw, ret.
  destruct (script w) as [|[?|] ?]; reflexivity.
Qed.

Lemma window_bounds (now_ms : Z) :
  now_ms - 61000 < windowStart now_ms * 1000 ≤ now_ms - 60000.
Proof.
  unfold windowStart, ABUSE_CHECK_WINDOW.
  pose proof (Z.div_mod now_ms 1000 ltac:(lia)).
  pose proof (Z.mod_pos_bound now_ms 1000 ltac:(lia)). lia.
Qed.

(** C6. When the query of the durable store succeeds, the check blocks
    (allowed = false, with a reason and retryAfter = 60) exactly when the
    session has at least 10 executions in the window or at least 5 of
    them FAILED; when the query fails the check allows.  The window is
    the rows of the session created after the start of the whole second
    that lies 60 seconds before now. *)
Theorem checkExecutionAbuse_blocks_iff (sessionId : string) (env : Env) (w : World) :
  let start := windowStart (now env) in
  let rows := recent sessionId start (executions w) in
  let r := fst (checkExecutionAbuse sessionId env w) in
  (∀ id e, rows !! id = Some e ↔
     executions w !! id = Some e ∧ session_id e = sessionId
     ∧ start * 1000 < created_at e)
  ∧ now env - 61000 < start * 1000 ≤ now env - 60000
  ∧ if fails_next (db_script w)
    then r = Ok {| allowed := true; reason := None; retryAfter := None |}
    else ∃ c, r = Ok c
         ∧ (allowed c = false ↔
              (10 ≤ size rows)%nat ∨ (5 ≤ size (filter is_failed rows))%nat)
         ∧ (allowed c = false → is_Some (reason c) ∧ retryAfter c = Some 60).
Proof.
  cbv zeta. split; [|split; [apply window_bounds|]].
  - intros id e. unfold recent. rewrite map_lookup_filter_Some.
    unfold in_window. cbn. tauto.
  - unfold checkExecutionAbuse, try_catch, abuse_query, db_request, request,
      bind, ask, get, modify, throw, ret.
    destruct (db_script w) as [|[msg|] rest];
      cbn -[recent size filter pretty windowStart]; [| reflexivity |].
    all: set (rows := recent sessionId (windowStart (now env)) (executions w)).
    all: unfold count, failed_count, MAX_EXECUTIONS_PER_MINUTE, MAX_FAILED_ATTEMPTS,
           ABUSE_CHECK_WINDOW.
    all: pose proof (map_filter_subseteq is_failed rows) as Hsub;
         apply map_subseteq_size in Hsub.
    all: destruct (Z.leb_spec 10 (Z.of_nat (size rows))) as [Hc|Hc];
         [ eexists; split; [reflexivity|]; cbn; split;
           [split; [intros _; lia | reflexivity] | intros _; split; eauto] |].
    all: case_decide as Hz; cbn [default from_option id].
    all: try destruct (Z.leb_spec 5 (Z.of_nat (size (filter is_failed rows)))) as [Hf|Hf].
    all: eexists; (split; [reflexivity|]); cbn -[size filter]; split;
           try (split; [discriminate | lia]);
           try (split; [intros _; lia | reflexivity]);
           try discriminate; try (intros _; split; eauto).
Qed.

End AbuseFacts.

(** ** Running the services: equations for the steps *)

Section StepFacts.

Lemma bind_run {A B} (m : M A) (k : A → M B) (env : Env) (w : World) :
  bind m k env w =
  match m env w with
  | (Ok a, w') => k a env w'
  | (Throw e, w') => (Throw e, w')
  end.
Proof. reflexivity. Qed.

Lemma try_catch_run {A} (m : M A) (h : error → M A) (env : Env) (w : World) :
  try_catch m h env w =
  match m env w with
  | (Ok a, w') => (Ok a, w')
  | (Throw e, w') => h e env w'
  end.
Proof. reflexivity. Qed.

Lemma db_request_run (env : Env) (w : World) :
  db_request env w =
  (match db_script w with
   | Some msg :: _ => Throw (Error msg)
   | _ => Ok tt
   end, set_db_script (drop 1) w).
Proof. apply request_run. Qed.

Lemma redis_only_refl (w : World) : redis_only w w.
Proof. constructor; reflexivity. Qed.

Lemma redis_only_trans (w1 w2 w3 : World) :
  redis_only w1 w2 → redis_only w2 w3 → redis_only w1 w3.
Proof. intros [] []. constructor; congruence. Qed.

(** [logExecutionEvent] never throws and touches nothing but Redis. *)
Lemma logExecutionEvent_frame (id stage : string) (metadata : list (string * meta_value))
    (env : Env) (w : World) :
  ∃ ev w', SafetyService.logExecutionEvent id stage metadata env w = (Ok ev, w')
           ∧ redis_only w w'.
Proof.
  unfold SafetyService.logExecutionEvent, SafetyService.lpush, SafetyService.expire,
    redis_request, request, try_catch, bind, ask, get, modify, throw, ret.
  destruct w as [ls ss es q fj rl rt rx cw ds rs qs].
  destruct rs as [|[m1|] [|[m2|] rest]]; cbn;
    repeat match goal with
      | |- context [@lookup ?K ?V ?M ?L ?k ?m] => destruct (@lookup K V M L k m)
      end;
    eexists _, _; (split; [reflexivity|]); constructor; reflexivity.
Qed.

(** [checkExecutionAbuse] never throws and only uses up one request to
    the store. *)
Lemma checkExecutionAbuse_frame (sessionId : string) (env : Env) (w : World) :
  ∃ c, SafetyService.checkExecutionAbuse sessionId env w
       = (Ok c, set_db_script (drop 1) w).
Proof.
  unfold SafetyService.checkExecutionAbuse, SafetyService.abuse_query, try_catch,
    db_request, request, bind, ask, get, modify, throw, ret.
  destruct w as [ls ss es q fj rl rt rx cw ds rs qs].
  destruct ds as [|[msg|] rest];
    cbn -[SafetyService.recent size filter pretty SafetyService.windowStart
          SafetyService.count SafetyService.failed_count];
    repeat match goal with
      | |- context [if ?b then _ else _] => destruct b
      end;
    eexists; reflexivity.
Qed.

End StepFacts.

(** ** Admission *)

Section AdmissionFacts.

Import ExecutionService.

Lemma loopCheck_node (sourceCode : string) (env : Env) (w : World) :
  ∃ c heap, loopCheck sourceCode "node" env w = (Ok c, set_regexps (fun _ => heap) w).
Proof.
  unfold loopCheck.
  pose proof (detect_result sourceCode "node" (regexps w)) as H.
  destruct (SafetyService.detectInfiniteLoopPatterns _ _ _) as [r heap].
  cbn in H. subst r. eauto.
Qed.

Lemma queue_add_run (data : JobData) (jobId : string) (env : Env) (w : World) :
  Queue.add data jobId env w =
  match queue_script w with
  | Some msg :: _ => (Throw (Error msg), set_queue_script (drop 1) w)
  | _ =>
      (Ok tt,
       if Queue.has_job jobId (queue w) || Queue.has_job jobId (failed_jobs w)
       then set_queue_script (drop 1) w
       else set_queue (fun q =>
              (q ++ [ {| job_id := jobId; job_data := data; attemptsMade := 0;
                         job_delay := 0 |} ])%list)
              (set_queue_script (drop 1) w))
  end.
Proof.
  unfold Queue.add, queue_request, request, bind, get, modify, throw, ret.
  destruct w as [ls ss es q fj rl rt rx cw ds rs qs].
  destruct qs as [|[msg|] rest]; cbn -[Queue.has_job]; try reflexivity.
  all: destruct (Queue.has_job jobId q || Queue.has_job jobId fj); reflexivity.
Qed.

(** Steps 1 to 7 under [reaches_enqueue]: the row is inserted, nothing
    else in the store or the queue changes, and what remains to run is
    the enqueue. *)
Lemma submit_until_enqueue (sessionId : string) (timeLimit memoryLimit : Z)
    (env : Env) (w : World) (session : SessionRow) :
  reaches_enqueue sessionId timeLimit memoryLimit env w session →
  ∃ w2,
    executions w2 =
      <[uuid env := queued_row (uuid env) sessionId (now env)]> (executions w)
    ∧ queue w2 = queue w ∧ failed_jobs w2 = failed_jobs w
    ∧ queue_script w2 = queue_script w
    ∧ submitExecution sessionId timeLimit memoryLimit env w =
      bind (Queue.add
              {| job_execution_id := uuid env; job_session_id := sessionId;
                 job_time_limit := timeLimit; job_memory_limit := memoryLimit |}
              (uuid env))
           (fun _ => ret {| execution_id := uuid env; submitted_status := QUEUED |})
           env w2.
Proof.
  intros [Hvalid Habuse Hfetch Hsess Hins Hfresh].
  unfold submitExecution. rewrite Hvalid. cbn [negb].
  rewrite bind_run.
  destruct (checkExecutionAbuse_frame sessionId env w) as [c Hc].
  rewrite Hc in Habuse |- *. rewrite (Habuse c eq_refl). cbn [negb].
  rewrite bind_run. unfold Session.findById at 1.
  rewrite bind_run, db_request_run. cbn [db_script set_db_script].
  destruct (drop 1 (db_script w)) as [|[?|] rest2] eqn:Hd1; try discriminate.
  all: rewrite bind_run; unfold get at 1, ret at 1; cbn [sessions set_db_script].
  all: rewrite Hsess.
  all: rewrite bind_run.
  all: match goal with
       | |- context [loopCheck ?src "node" ?e ?w1] =>
           destruct (loopCheck_node src e w1) as (lc & heap & Hlc); rewrite Hlc
       end.
  all: rewrite bind_run.
  all: match goal with
       | |- context [(if ?b then ?m1 else ?m2) ?e ?w1] =>
           assert (∃ cw, (if b then m1 else m2) e w1
                         = (Ok tt, set_console_warn (fun _ => cw) w1)) as [cw Hcw]
             by (destruct b; eexists; unfold modify, ret; cbn; reflexivity);
           rewrite Hcw
       end.
  all: rewrite bind_run; unfold ask at 1.
  all: rewrite bind_run; unfold Execution.create at 1.
  all: rewrite bind_run, db_request_run;
       cbn [db_script set_db_script set_console_warn set_regexps].
  all: assert (Hd2 : drop 1 (drop 1 (db_script w)) = drop 2 (db_script w))
         by (rewrite drop_drop; reflexivity).
  all: rewrite Hd2; destruct (drop 2 (db_script w)) as [|[?|] rest3] eqn:Hd2';
         try discriminate.
  all: unfold bind, get, ask, modify, ret;
       cbn [executions sessions set_db_script set_console_warn set_regexps set_executions].
  all: rewrite Hfresh, Hsess.
  all: match goal with
       | |- context [SafetyService.logExecutionEvent ?i ?st ?md ?e ?w1] =>
           destruct (logExecutionEvent_frame i st md e w1) as (ev & w2 & Hlog & Hro);
           rewrite Hlog
       end.
  all: exists w2; destruct Hro; cbn in *; repeat split; try assumption; reflexivity.
Qed.

(** C1 (the code at an INACTIVE session).  [sess-001] is INACTIVE,
    the limits are valid and nothing fails: [submitExecution] returns
    QUEUED, inserts the execution row and enqueues the job. *)
Theorem inactive_session_is_admitted :
  let result := submitExecution "sess-001" 5000 256 Fixtures.env Fixtures.world in
  (sess_status <$> sessions Fixtures.world !! "sess-001") = Some INACTIVE
  ∧ fst result = Ok {| execution_id := "exec-003"; submitted_status := QUEUED |}
  ∧ executions (snd result) !! "exec-003"
    = Some (queued_row "exec-003" "sess-001" 5000)
  ∧ queue (snd result) = [job_for "exec-003" "sess-001" 5000 256].
Proof. vm_compute. repeat split; reflexivity. Qed.

(** X17. Admission under [reaches_enqueue] with a healthy queue and an unused
    job id: the call returns QUEUED, the row is inserted and the job is
    appended to the queue.  No hypothesis mentions the status of the
    session. *)
Lemma admission_succeeds (sessionId : string) (timeLimit memoryLimit : Z)
    (env : Env) (w : World) (session : SessionRow) :
  reaches_enqueue sessionId timeLimit memoryLimit env w session →
  fails_next (queue_script w) = false →
  Queue.has_job (uuid env) (queue w) = false →
  Queue.has_job (uuid env) (failed_jobs w) = false →
  let result := submitExecution sessionId timeLimit memoryLimit env w in
  fst result = Ok {| execution_id := uuid env; submitted_status := QUEUED |}
  ∧ executions (snd result)
    = <[uuid env := queued_row (uuid env) sessionId (now env)]> (executions w)
  ∧ queue (snd result)
    = (queue w ++ [job_for (uuid env) sessionId timeLimit memoryLimit])%list.
Proof.
  intros Hreach Hq Hnew Hnew'.
  destruct (submit_until_enqueue _ _ _ _ _ _ Hreach) as (w2 & He & Hqu & Hf & Hqs & Hrun).
  cbv zeta. rewrite Hrun, bind_run, queue_add_run, Hqs, Hqu, Hf, Hnew, Hnew'.
  destruct (queue_script w) as [|[?|] ?]; try discriminate; cbn; rewrite Hqu; auto.
Qed.

(** C4 as stated fails: the insert succeeds, the enqueue is refused, the
    error is surfaced and the row is still QUEUED, with no job for it. *)
Lemma enqueue_failure_row_not_failed :
  let result :=
    submitExecution "sess-002" 5000 256 Fixtures.env Fixtures.world_queue_down in
  executions Fixtures.world_queue_down !! "exec-003" = None
  ∧ fst result = Throw (Error "Connection is closed.")
  ∧ (status <$> executions (snd result) !! "exec-003") = Some QUEUED
  ∧ (stderr <$> executions (snd result) !! "exec-003") = Some None
  ∧ queue (snd result) = [].
Proof. vm_compute. repeat split; reflexivity. Qed.

(** C4, amended.  When the insert of step 6 succeeds and the enqueue of
    step 8 fails, [submitExecution] surfaces the enqueue error and writes
    nothing more: the new row stays as inserted, in status QUEUED with no
    stderr, and no job is queued. *)
Theorem enqueue_failure_leaves_row_queued (sessionId : string)
    (timeLimit memoryLimit : Z) (env : Env) (w : World) (session : SessionRow)
    (msg : string) (rest : list (option string)) :
  reaches_enqueue sessionId timeLimit memoryLimit env w session →
  queue_script w = Some msg :: rest →
  let result := submitExecution sessionId timeLimit memoryLimit env w in
  fst result = Throw (Error msg)
  ∧ executions (snd result)
    = <[uuid env := queued_row (uuid env) sessionId (now env)]> (executions w)
  ∧ queue (snd result) = queue w
  ∧ failed_jobs (snd result) = failed_jobs w.
Proof.
  intros Hreach Hq.
  destruct (submit_until_enqueue _ _ _ _ _ _ Hreach) as (w2 & He & Hqu & Hf & Hqs & Hrun).
  cbv zeta. rewrite Hrun, bind_run, queue_add_run, Hqs, Hq. cbn.
  repeat split; assumption.
Qed.

Lemma fixture_reaches_enqueue :
  reaches_enqueue "sess-002" 5000 256 Fixtures.env Fixtures.world_queue_down
    Fixtures.open_session.
Proof.
  constructor; try (vm_compute; reflexivity).
  intros c. vm_compute. intros H. injection H as <-. reflexivity.
Defined.

Lemma enqueue_failure_leaves_row_queued_witness :
  let result :=
    submitExecution "sess-002" 5000 256 Fixtures.env Fixtures.world_queue_down in
  fst result = Throw (Error "Connection is closed.")
  ∧ executions (snd result)
    = <["exec-003" := queued_row "exec-003" "sess-002" 5000]>
        (executions Fixtures.world_queue_down)
  ∧ queue (snd result) = []
  ∧ failed_jobs (snd result) = [].
Proof.
  exact (enqueue_failure_leaves_row_queued "sess-002" 5000 256 Fixtures.env
           Fixtures.world_queue_down Fixtures.open_session
           "Connection is closed." [] fixture_reaches_enqueue eq_refl).
Defined.

End AdmissionFacts.

(** ** The store writes of the worker *)

Section StoreFacts.

Lemma updateStarted_run (id : string) (env : Env) (w : World) :
  fails_next (db_script w) = false →
  Execution.updateStarted id env w =
  match executions w !! id with
  | None => (Ok None, set_db_script (drop 1) w)
  | Some row =>
      (Ok (Some (Execution.mark_started (now env) row)),
       set_executions <[id := Execution.mark_started (now env) row]>
         (set_db_script (drop 1) w))
  end.
Proof.
  intros Hdb. unfold Execution.updateStarted.
  rewrite bind_run, db_request_run.
  destruct (db_script w) as [|[?|] ?]; try discriminate.
  all: unfold bind, get, ask, modify, ret; cbn [executions set_db_script].
  all: destruct (executions w !! id); reflexivity.
Qed.

Lemma updateResult_run (id : string) (d : Execution.ResultData) (code : option Z)
    (env : Env) (w : World) :
  fails_next (db_script w) = false →
  Execution.integer_param (Execution.d_exit_code d) = Some code →
  0 ≤ Execution.d_execution_time_ms d →
  Execution.updateResult id d env w =
  match executions w !! id with
  | None => (Ok None, set_db_script (drop 1) w)
  | Some row =>
      (Ok (Some (Execution.apply_result d code row)),
       set_executions <[id := Execution.apply_result d code row]>
         (set_db_script (drop 1) w))
  end.
Proof.
  intros Hdb Hcode Htime. unfold Execution.updateResult.
  rewrite bind_run, db_request_run.
  destruct (db_script w) as [|[?|] ?]; try discriminate.
  all: unfold bind, get, ask, modify, ret, throw; cbn [executions set_db_script].
  all: rewrite Hcode; destruct (executions w !! id); [|reflexivity].
  all: destruct (Z.ltb_spec (Execution.d_execution_time_ms d) 0); [lia|reflexivity].
Qed.

Lemma findWithLanguage_run (id : string) (env : Env) (w : World) :
  fails_next (db_script w) = false →
  Session.findWithLanguage id env w =
  (Ok match sessions w !! id with
      | Some s =>
          match languages w !! language_id s with
          | Some l => Some (s, l)
          | None => None
          end
      | None => None
      end, set_db_script (drop 1) w).
Proof.
  intros Hdb. unfold Session.findWithLanguage.
  rewrite bind_run, db_request_run.
  destruct (db_script w) as [|[?|] ?]; try discriminate; reflexivity.
Qed.

(** C2 as stated fails: [exec-001] is COMPLETED, and both worker writes
    change it: [updateStarted] puts it back to RUNNING with a new
    [started_at], [updateResult] overwrites its result. *)
Lemma terminal_row_is_rewritten :
  let started := snd (Execution.updateStarted "exec-001" Fixtures.env Fixtures.world) in
  let rewritten :=
    snd (Execution.updateResult "exec-001"
           (Worker.failure_data (Error "Session not found: sess-002") 5000)
           Fixtures.env Fixtures.world) in
  executions Fixtures.world !! "exec-001" = Some Fixtures.completed_execution
  ∧ terminal (status Fixtures.completed_execution) = true
  ∧ (status <$> executions started !! "exec-001") = Some RUNNING
  ∧ (started_at <$> executions started !! "exec-001") = Some (Some 5000)
  ∧ (status <$> executions rewritten !! "exec-001") = Some FAILED
  ∧ (stdout <$> executions rewritten !! "exec-001") = Some (Some "").
Proof. vm_compute. repeat split; reflexivity. Qed.

(** C2, amended.  The worker's writes are conditional on the id alone:
    when the request reaches the store and a row with the id exists,
    [updateStarted] sets its status to RUNNING and its [started_at] to
    now, and [updateResult] overwrites its status, stdout, stderr,
    execution time, exit code, timeout flag and [finished_at], whatever
    the current status of the row; no other row changes. *)
Theorem worker_writes_ignore_status (id : string) (d : Execution.ResultData)
    (code : option Z) (env : Env) (w : World) (row : ExecutionRow) :
  fails_next (db_script w) = false →
  executions w !! id = Some row →
  Execution.integer_param (Execution.d_exit_code d) = Some code →
  0 ≤ Execution.d_execution_time_ms d →
  let started := Execution.mark_started (now env) row in
  let written := Execution.apply_result d code row in
  executions (snd (Execution.updateStarted id env w)) = <[id := started]> (executions w)
  ∧ status started = RUNNING ∧ started_at started = Some (now env)
  ∧ executions (snd (Execution.updateResult id d env w)) = <[id := written]> (executions w)
  ∧ status written = Execution.d_status d
  ∧ stdout written = Some (Execution.d_stdout d)
  ∧ stderr written = Some (Execution.d_stderr d)
  ∧ execution_time_ms written = Some (Execution.d_execution_time_ms d)
  ∧ exit_code written = code
  ∧ timeout written = Execution.d_timeout d
  ∧ finished_at written = Some (Execution.d_finished_at d).
Proof.
  intros Hdb Hrow Hcode Htime.
  rewrite updateStarted_run, (updateResult_run id d code) by assumption.
  rewrite Hrow. cbn. repeat split; reflexivity.
Qed.

Lemma worker_writes_ignore_status_witness :
  executions (snd (Execution.updateStarted "exec-001" Fixtures.env Fixtures.world))
  = <["exec-001" := Execution.mark_started 5000 Fixtures.completed_execution]>
      (executions Fixtures.world)
  ∧ executions
      (snd (Execution.updateResult "exec-001"
              (Worker.failure_data (Error "Session not found: sess-002") 5000)
              Fixtures.env Fixtures.world))
    = <["exec-001" :=
          Execution.apply_result
            (Worker.failure_data (Error "Session not found: sess-002") 5000)
            (Some 1) Fixtures.completed_execution]>
        (executions Fixtures.world).
Proof.
  pose proof (worker_writes_ignore_status "exec-001"
                (Worker.failure_data (Error "Session not found: sess-002") 5000)
                (Some 1) Fixtures.env Fixtures.world Fixtures.completed_execution
                eq_refl eq_refl eq_refl ltac:(cbn; lia)) as H.
  cbv zeta in H. destruct H as (H1 & _ & _ & H2 & _). split; assumption.
Defined.

End StoreFacts.

(** ** The worker *)

Section WorkerFacts.

Import Worker.

(** C3 as stated fails: the session of the job is gone, the processor
    rethrows after its error path, and the queue keeps the job for a
    second attempt after a 2000 ms backoff. *)
Lemma missing_session_job_is_retried :
  let w := set_queue (fun _ => [Fixtures.orphan_job]) Fixtures.world in
  sessions w !! "sess-gone" = None
  ∧ fst (processExecution Fixtures.orphan_job Fixtures.env w)
    = Throw (Error "Session not found: sess-gone")
  ∧ queue (snd (run_job Fixtures.orphan_job Fixtures.env w))
    = [ {| job_id := "exec-009"; job_data := job_data Fixtures.orphan_job;
           attemptsMade := 1; job_delay := 2000 |} ]
  ∧ failed_jobs (snd (run_job Fixtures.orphan_job Fixtures.env w)) = [].
Proof. vm_compute. repeat split; reflexivity. Qed.

(** C3, amended.  For a job whose session is missing (the three requests
    to the store going through), the processor runs its error path: it
    issues the FAILED update (empty stdout, stderr [Session not found:
    <id>], execution time 0, exit code 1, timeout false), which rewrites
    the execution row if it still exists, and rethrows.  The attempt
    therefore fails: the queue keeps the job for a retry with backoff
    while attempts remain and moves it to the failed set after the last
    one. *)
Theorem missing_session_fails_attempt (job : Job) (env : Env) (w : World) :
  fails_next (db_script w) = false →
  fails_next (drop 1 (db_script w)) = false →
  fails_next (drop 2 (db_script w)) = false →
  sessions w !! job_session_id (job_data job) = None →
  let id := job_execution_id (job_data job) in
  let err := Error ("Session not found: " +:+ job_session_id (job_data job)) in
  let failed_row row :=
    Execution.apply_result (failure_data err (finished env)) (Some 1)
      (Execution.mark_started (now env) row) in
  let result := processExecution job env w in
  let after := snd (run_job job env w) in
  fst result = Throw err
  ∧ executions (snd result)
    = match executions w !! id with
      | Some row => <[id := failed_row row]> (executions w)
      | None => executions w
      end
  ∧ (∀ row, status (failed_row row) = FAILED
            ∧ stderr (failed_row row) = Some (message err))
  ∧ executions after = executions (snd result)
  ∧ if (S (attemptsMade job) <? Queue.attempts)%nat
    then queue after = (without (job_id job) (queue w) ++ [retried job])%list
         ∧ failed_jobs after = failed_jobs w
    else queue after = without (job_id job) (queue w)
         ∧ failed_jobs after = (failed_jobs w ++ [failed_for_good job])%list.
Proof.
  intros Hdb0 Hdb1 Hdb2 Hsess. cbv zeta.
  assert (Hproc : ∃ w',
    processExecution job env w =
      (Throw (Error ("Session not found: " +:+ job_session_id (job_data job))), w')
    ∧ executions w'
      = match executions w !! job_execution_id (job_data job) with
        | Some row =>
            <[job_execution_id (job_data job) :=
                Execution.apply_result
                  (failure_data
                     (Error ("Session not found: " +:+ job_session_id (job_data job)))
                     (finished env)) (Some 1)
                  (Execution.mark_started (now env) row)]> (executions w)
        | None => executions w
        end
    ∧ queue w' = queue w ∧ failed_jobs w' = failed_jobs w).
  { unfold processExecution.
    rewrite try_catch_run, bind_run, updateStarted_run by assumption.
    set (id := job_execution_id (job_data job)).
    set (w1 := match executions w !! id with
               | Some row =>
                   set_executions <[id := Execution.mark_started (now env) row]>
                     (set_db_script (drop 1) w)
               | None => set_db_script (drop 1) w
               end).
    assert (Hw1 : match executions w !! id with
                  | Some row => (Ok (Some (Execution.mark_started (now env) row)),
                       set_executions <[id := Execution.mark_started (now env) row]>
                         (set_db_script (drop 1) w))
                  | None => (Ok None, set_db_script (drop 1) w)
                  end = (Ok (Execution.mark_started (now env) <$> executions w !! id), w1)).
    { unfold w1. destruct (executions w !! id); reflexivity. }
    rewrite Hw1. clear Hw1.
    assert (Hs1 : sessions w1 = sessions w ∧ db_script w1 = drop 1 (db_script w)
                  ∧ queue w1 = queue w ∧ failed_jobs w1 = failed_jobs w
                  ∧ executions w1
                    = match executions w !! id with
                      | Some row => <[id := Execution.mark_started (now env) row]>
                                      (executions w)
                      | None => executions w
                      end).
    { unfold w1. destruct (executions w !! id); cbn; auto. }
    destruct Hs1 as (Hs1 & Hd1 & Hq1 & Hf1 & He1). clearbody w1.
    rewrite bind_run.
    match goal with
    | |- context [SafetyService.logExecutionEvent ?i ?st ?md ?e ?w0] =>
        destruct (logExecutionEvent_frame i st md e w0) as (ev & w2 & Hlog & Hro);
        rewrite Hlog
    end.
    destruct Hro as [_ Hs2 He2 Hq2 Hf2 _ _ Hd2 _].
    rewrite bind_run, findWithLanguage_run by (rewrite Hd2, Hd1; assumption).
    rewrite Hs2, Hs1, Hsess. unfold throw at 1.
    rewrite bind_run.
    match goal with
    | |- context [SafetyService.logExecutionEvent ?i ?st ?md ?e ?w0] =>
        destruct (logExecutionEvent_frame i st md e w0) as (ev' & w3 & Hlog' & Hro');
        rewrite Hlog'
    end.
    destruct Hro' as [_ Hs3 He3 Hq3 Hf3 _ _ Hd3 _].
    cbn [sessions executions queue failed_jobs db_script set_db_script] in *.
    rewrite bind_run. unfold ask at 1.
    rewrite bind_run.
    rewrite (updateResult_run id _ (Some 1));
      [| rewrite Hd3, Hd2, Hd1, drop_drop; assumption | reflexivity | cbn; lia].
    rewrite He3, He2, He1.
    destruct (executions w !! id) as [row|] eqn:Hrow.
    - rewrite lookup_insert_eq. unfold throw. eexists. split; [reflexivity|].
      cbn. rewrite He3, He2, He1, insert_insert_eq. repeat split; congruence.
    - rewrite Hrow. unfold throw. eexists. split; [reflexivity|].
      cbn. repeat split; congruence. }
  destruct Hproc as (w' & Hrun & He & Hq & Hf).
  unfold run_job. rewrite Hrun. cbn [fst snd].
  split; [reflexivity|]. split; [exact He|]. split; [intros; split; reflexivity|].
  destruct (S (attemptsMade job) <? Queue.attempts)%nat; cbn; rewrite ?Hq, ?Hf; auto.
Qed.

Lemma missing_session_fails_attempt_witness :
  let w := set_queue (fun _ => [Fixtures.orphan_job]) Fixtures.world in
  fst (processExecution Fixtures.orphan_job Fixtures.env w)
  = Throw (Error "Session not found: sess-gone")
  ∧ queue (snd (run_job Fixtures.orphan_job Fixtures.env w))
    = [retried Fixtures.orphan_job].
Proof.
  pose proof (missing_session_fails_attempt Fixtures.orphan_job Fixtures.env
                (set_queue (fun _ => [Fixtures.orphan_job]) Fixtures.world)
                eq_refl eq_refl eq_refl eq_refl) as H.
  cbv zeta in H. destruct H as (H1 & _ & _ & _ & H2). split; [exact H1|].
  apply H2.
Defined.

End WorkerFacts.

(** ** Every FAILED write says why *)

Section FailedWrites.

Import Worker.

Variable env : Env.
Variable w0 : World.

Lemma hoare_bind {A B} (P : World → Prop) (m : M A) (k : A → M B)
    (Q : A → World → Prop) (R : B → World → Prop) (E : error → World → Prop) :
  hoare env P m Q E → (∀ a, hoare env (Q a) (k a) R E) → hoare env P (bind m k) R E.
Proof.
  intros Hm Hk w Hw. unfold bind. specialize (Hm w Hw).
  destruct (m env w) as [[a|e] w']; [apply Hk, Hm | exact Hm].
Qed.

Lemma hoare_try_catch {A} (P : World → Prop) (m : M A) (h : error → M A)
    (Q : A → World → Prop) (E1 E2 : error → World → Prop) :
  hoare env P m Q E1 → (∀ e, hoare env (E1 e) (h e) Q E2) →
  hoare env P (try_catch m h) Q E2.
Proof.
  intros Hm Hh w Hw. unfold try_catch. specialize (Hm w Hw).
  destruct (m env w) as [[a|e] w']; [exact Hm | apply Hh, Hm].
Qed.

Lemma hoare_ret {A} (P : World → Prop) (a : A) (E : error → World → Prop) :
  hoare env P (ret a) (fun _ => P) E.
Proof. intros w Hw. exact Hw. Qed.

Lemma hoare_ask {B} (P : World → Prop) (k : Env → M B)
    (R : B → World → Prop) (E : error → World → Prop) :
  hoare env P (k env) R E → hoare env P (bind ask k) R E.
Proof. intros Hk w Hw. exact (Hk w Hw). Qed.













End FailedWrites.

Section FailedWritesClaim.

Import Worker CodeExecutionService.




End FailedWritesClaim.


(** * Further properties of the Runner *)

Section RunnerTraceFacts.

Import CodeExecutionService.

Lemma trace_andThen {A B} (m : Run A) (k : A → Run B) :
  fst (andThen m k) =
  (fst m ++ match snd m with
            | Next a => fst (k a)
            | _ => []
            end)%list.
Proof.
  unfold andThen. destruct m as [t [a|r|msg]]; cbn.
  - destruct (k a); reflexivity.
  - rewrite app_nil_r. reflexivity.
  - rewrite app_nil_r. reflexivity.
Qed.

Lemma Forall_andThen {A B} (P : Action → Prop) (m : Run A) (k : A → Run B) :
  Forall P (fst m) → (∀ a, Forall P (fst (k a))) → Forall P (fst (andThen m k)).
Proof.
  intros Hm Hk. rewrite trace_andThen. apply Forall_app. split; [exact Hm|].
  destruct (snd m); auto.
Qed.

Lemma Forall_fs_call (P : Action → Prop) (a : Action) (failure : option string) :
  P a → Forall P (fst (fs_call a failure)).
Proof.
  intros Ha. unfold fs_call. apply Forall_andThen; [repeat constructor; exact Ha|].
  intros _. destruct failure; constructor.
Qed.

(** Every action of the body after the [mkdir] satisfies [P] as soon as
    the writes into the scratch directory and the three possible process
    starts do. *)
Lemma body_trace (P : Action → Prop) (env : RunnerEnv) (runtime sourceCode : string)
    (timeLimit memoryLimit : Z) :
  (∀ name, P (WriteFile (path_join (tmpDir env) name) sourceCode)) →
  (∀ cmd, P (Exec cmd (Z.max timeLimit 10000) None)) →
  (∀ cmd, P (Exec cmd timeLimit (Some (memoryLimit * 1024 * 1024)))) →
  ∃ mid, fst (body env runtime sourceCode timeLimit memoryLimit)
         = Mkdir (tmpDir env) :: mid
         ∧ Forall P mid.
Proof.
  intros Hw Hc Hr. unfold body. rewrite trace_andThen.
  unfold fs_call at 1. rewrite trace_andThen. cbn [act fst snd app].
  eexists. split; [reflexivity|].
  apply Forall_app. split; [destruct (mkdir_error env); constructor|].
  destruct (mkdir_error env); cbn; [constructor|].
  apply Forall_andThen.
  - unfold select_runtime. repeat case_decide; try constructor.
    all: unfold compiled_case; apply Forall_andThen; [apply Forall_fs_call, Hw|].
    all: intros _; apply Forall_andThen; [repeat constructor; apply Hc|].
    all: intros _; destruct (compile_result env); [destruct (has_error_marker _)|];
         constructor.
  - intros [fileName cmd]. apply Forall_andThen; [apply Forall_fs_call, Hw|].
    intros _. unfold run_step, andThen, act, return_.
    destruct (run_result env) as [? ?|e]; [|destruct (x_killed e)]; cbn;
      repeat constructor; apply Hr.
Qed.

(** X1. The scratch directory: every run creates it first and removes it
    last, on every exit path; in between the Runner only writes the source
    into files inside that directory and starts processes. *)
Theorem scratch_directory_confined (env : RunnerEnv) (runtime sourceCode : string)
    (timeLimit memoryLimit : Z) :
  ∃ mid,
    snd (executeCode env runtime sourceCode timeLimit memoryLimit)
    = (Mkdir (tmpDir env) :: mid ++ [Rm (tmpDir env)])%list
    ∧ Forall (fun a =>
        is_exec a = true
        ∨ ∃ name, a = WriteFile (path_join (tmpDir env) name) sourceCode) mid.
Proof.
  destruct (body_trace
              (fun a => is_exec a = true
                        ∨ ∃ name, a = WriteFile (path_join (tmpDir env) name) sourceCode)
              env runtime sourceCode timeLimit memoryLimit) as (mid & Hb & Hmid);
    try (intros; left; reflexivity).
  { intros name. right. exists name. reflexivity. }
  exists mid. split; [|exact Hmid].
  unfold executeCode.
  destruct (body env runtime sourceCode timeLimit memoryLimit) as [t s].
  cbn in Hb |- *. rewrite Hb. reflexivity.
Qed.

Lemma started_andThen {A B} (m : Run A) (k : A → Run B) :
  started (fst (andThen m k)) =
  (started (fst m) ++ match snd m with
                      | Next a => started (fst (k a))
                      | _ => []
                      end)%list.
Proof.
  unfold started. rewrite trace_andThen, List.filter_app.
  destruct (snd m); reflexivity.
Qed.

Lemma started_fs_call (a : Action) (failure : option string) :
  is_exec a = false → started (fst (fs_call a failure)) = [].
Proof.
  intros Ha. unfold fs_call. rewrite started_andThen. unfold started. cbn.
  rewrite Ha. destruct failure; reflexivity.
Qed.

Lemma snd_fs_call (a : Action) (failure : option string) :
  snd (fs_call a failure)
  = match failure with
    | Some msg => Raise msg
    | None => Next tt
    end.
Proof. unfold fs_call. destruct failure; reflexivity. Qed.

Lemma started_run_step (env : RunnerEnv) (cmd : string) (timeLimit memoryLimit : Z) :
  started (fst (run_step env cmd timeLimit memoryLimit))
  = [Exec cmd timeLimit (Some (memoryLimit * 1024 * 1024))].
Proof.
  unfold run_step. rewrite started_andThen. cbn [act fst snd started List.filter is_exec].
  destruct (run_result env) as [? ?|e]; [|destruct (x_killed e)]; reflexivity.
Qed.

Lemma started_compiled_case (env : RunnerEnv) (compiler fileName sourceCode : string)
    (timeLimit : Z) :
  let run := compiled_case env compiler fileName sourceCode timeLimit in
  started (fst run)
  = match writeFile1_error env with
    | Some _ => []
    | None => [Exec (compileCmd compiler (path_join (tmpDir env) "main")
                       (path_join (tmpDir env) fileName))
                    (Z.max timeLimit 10000) None]
    end
  ∧ match snd run with
    | Next sel =>
        sel = (fileName, quoted (path_join (tmpDir env) "main"))
        ∧ writeFile1_error env = None ∧ ¬ compile_failed (compile_result env)
    | _ => True
    end.
Proof.
  cbv zeta. unfold compiled_case, fs_call.
  destruct (writeFile1_error env) as [msg|]; [split; [reflexivity | exact I]|].
  destruct (compile_result env) as [out err|e]; [|split; [reflexivity | exact I]].
  destruct (has_error_marker (compileOutput out err)) eqn:Hm;
    (split; [reflexivity|]); cbn; [exact I|].
  repeat split. intros H. apply has_error_marker_iff in H. congruence.
Qed.

(** X2. The limits of the processes.  Whatever happens during a run, the
    processes it starts are, in order, an initial part of the plan: for
    [python] and [node] the interpreter on the source file, with a
    timeout of [timeLimit] ms and an output buffer of [memoryLimit] MiB;
    for [gcc] and [g++] the compiler first, with a timeout of
    [max(timeLimit, 10000)] ms and no buffer option, then the compiled
    program under the limits of the request; for any other runtime key
    nothing.  When the run step is reached, the whole plan is carried
    out. *)
Theorem process_limits (env : RunnerEnv) (runtime sourceCode : string)
    (timeLimit memoryLimit : Z) :
  let trace := snd (executeCode env runtime sourceCode timeLimit memoryLimit) in
  started trace `prefix_of` process_plan env runtime timeLimit memoryLimit
  ∧ (reaches_run env runtime →
     started trace = process_plan env runtime timeLimit memoryLimit).
Proof.
  cbv zeta.
  assert (Htrace : started (snd (executeCode env runtime sourceCode timeLimit memoryLimit))
                   = started (fst (body env runtime sourceCode timeLimit memoryLimit))).
  { unfold executeCode.
    destruct (body env runtime sourceCode timeLimit memoryLimit) as [tr st].
    unfold started. cbn [fst snd]. rewrite List.filter_app. cbn. apply app_nil_r. }
  rewrite Htrace. clear Htrace.
  unfold body. rewrite started_andThen, started_fs_call, snd_fs_call by reflexivity.
  cbn [app]. unfold reaches_run.
  destruct (mkdir_error env) as [msg|] eqn:Hmk.
  { split; [apply prefix_nil | intros [? _]; discriminate]. }
  rewrite started_andThen.
  unfold process_plan, select_runtime.
  destruct (started_compiled_case env "gcc" "main.c" sourceCode timeLimit) as [Hg Hg'].
  destruct (started_compiled_case env "g++" "main.cpp" sourceCode timeLimit) as [Hp Hp'].
  repeat case_decide; subst; try congruence.
  - (* python *)
    cbn [next fst snd started List.filter app].
    rewrite started_andThen, started_fs_call, snd_fs_call by reflexivity.
    destruct (writeFile1_error env) as [msg|] eqn:Hw; cbn [app].
    + split; [apply prefix_nil | intros (_ & ? & _); discriminate].
    + rewrite started_run_step. split; [reflexivity | reflexivity].
  - (* node *)
    cbn [next fst snd started List.filter app].
    rewrite started_andThen, started_fs_call, snd_fs_call by reflexivity.
    destruct (writeFile1_error env) as [msg|] eqn:Hw; cbn [app].
    + split; [apply prefix_nil | intros (_ & ? & _); discriminate].
    + rewrite started_run_step. split; [reflexivity | reflexivity].
  - (* gcc *)
    rewrite Hg.
    destruct (snd (compiled_case env "gcc" "main.c" sourceCode timeLimit))
      as [[f c]|r|msg] eqn:Hs.
    + destruct Hg' as ([= -> ->] & Hw1 & Hc). rewrite Hw1.
      rewrite started_andThen, started_fs_call, snd_fs_call by reflexivity.
      destruct (writeFile2_error env) as [msg|] eqn:Hw; cbn [app].
      * split; [eexists; reflexivity|].
        intros (_ & _ & [[?|?]|(_ & _ & ?)]); discriminate.
      * rewrite started_run_step. split; reflexivity.
    + split.
      * destruct (writeFile1_error env); [apply prefix_nil | eexists; reflexivity].
      * intros (_ & Hw1 & [[?|?]|(_ & Hc & _)]); try discriminate.
        exfalso. revert Hs. unfold compiled_case, fs_call. rewrite Hw1.
        destruct (compile_result env) as [out err|e]; [|elim Hc; exact I].
        destruct (has_error_marker (compileOutput out err)) eqn:Hm; [|discriminate].
        elim Hc. apply has_error_marker_iff, Hm.
    + split.
      * destruct (writeFile1_error env); [apply prefix_nil | eexists; reflexivity].
      * intros (_ & Hw1 & [[?|?]|(_ & Hc & _)]); try discriminate.
        exfalso. revert Hs. unfold compiled_case, fs_call. rewrite Hw1.
        destruct (compile_result env) as [out err|e]; [|discriminate].
        destruct (has_error_marker (compileOutput out err)); discriminate.
  - (* g++ *)
    rewrite Hp.
    destruct (snd (compiled_case env "g++" "main.cpp" sourceCode timeLimit))
      as [[f c]|r|msg] eqn:Hs.
    + destruct Hp' as ([= -> ->] & Hw1 & Hc). rewrite Hw1.
      rewrite started_andThen, started_fs_call, snd_fs_call by reflexivity.
      destruct (writeFile2_error env) as [msg|] eqn:Hw; cbn [app].
      * split; [eexists; reflexivity|].
        intros (_ & _ & [[?|?]|(_ & _ & ?)]); discriminate.
      * rewrite started_run_step. split; reflexivity.
    + split.
      * destruct (writeFile1_error env); [apply prefix_nil | eexists; reflexivity].
      * intros (_ & Hw1 & [[?|?]|(_ & Hc & _)]); try discriminate.
        exfalso. revert Hs. unfold compiled_case, fs_call. rewrite Hw1.
        destruct (compile_result env) as [out err|e]; [|elim Hc; exact I].
        destruct (has_error_marker (compileOutput out err)) eqn:Hm; [|discriminate].
        elim Hc. apply has_error_marker_iff, Hm.
    + split.
      * destruct (writeFile1_error env); [apply prefix_nil | eexists; reflexivity].
      * intros (_ & Hw1 & [[?|?]|(_ & Hc & _)]); try discriminate.
        exfalso. revert Hs. unfold compiled_case, fs_call. rewrite Hw1.
        destruct (compile_result env) as [out err|e]; [|discriminate].
        destruct (has_error_marker (compileOutput out err)); discriminate.
  - (* any other key *)
    cbn. split; [apply prefix_nil|].
    intros (_ & _ & [[?|?]|([?|?] & _)]); congruence.
Qed.

End RunnerTraceFacts.

Section RunnerOutcomeFacts.

Import CodeExecutionService.

(** X3. A runtime key outside [python], [node], [gcc], [g++] (the seeded
    [java], [go], [php], [ruby] among them) gives a FAILED outcome with
    stderr [Unsupported language: <key>], exit code 1 and time 0; nothing
    is written and no process is started. *)
Theorem unsupported_runtime_is_failed (env : RunnerEnv) (runtime sourceCode : string)
    (timeLimit memoryLimit : Z) :
  supported runtime = false →
  mkdir_error env = None →
  executeCode env runtime sourceCode timeLimit memoryLimit
  = ({| r_status := FAILED; r_stdout := "";
        r_stderr := "Unsupported language: " +:+ runtime;
        r_execution_time_ms := 0; r_exit_code := Some (Js.CodeNum 1);
        r_timeout := false |},
     [Mkdir (tmpDir env); Rm (tmpDir env)]).
Proof.
  intros Hsup Hmk.
  unfold executeCode, body, select_runtime, fs_call. rewrite Hmk.
  repeat case_decide; subst; try (vm_compute in Hsup; discriminate).
  reflexivity.
Qed.

Lemma unsupported_runtime_is_failed_witness :
  r_stderr (fst (executeCode Fixtures.quiet_runner "java" "class Main {}" 5000 256))
  = "Unsupported language: java".
Proof.
  rewrite (unsupported_runtime_is_failed Fixtures.quiet_runner "java" "class Main {}"
             5000 256 eq_refl eq_refl).
  reflexivity.
Defined.

Lemma code_or_1_truthy (c : Js.code) : Js.truthy_code (Js.code_or_1 c) = true.
Proof. unfold Js.code_or_1. destruct (Js.truthy_code c) eqn:H; [exact H | reflexivity]. Qed.

(** X4. A FAILED outcome never reports success in its exit code: the code
    is present and is neither 0 nor an empty string. *)
Theorem failed_outcome_has_nonzero_code (env : RunnerEnv) (runtime sourceCode : string)
    (timeLimit memoryLimit : Z) :
  let out := fst (executeCode env runtime sourceCode timeLimit memoryLimit) in
  r_status out = FAILED →
  ∃ c, r_exit_code out = Some c ∧ Js.truthy_code c = true ∧ c ≠ Js.CodeNum 0.
Proof.
  cbv zeta.
  apply executeCode_ind with (Q := fun _ => True); auto.
  - intros. apply post_compiled_case; [auto|].
    intros err _ _. eexists. repeat split. discriminate.
  - intros. apply post_run_step; cbn; try discriminate.
    intros e _ _ _. eexists. split; [reflexivity|]. split; [apply code_or_1_truthy|].
    intros H. pose proof (code_or_1_truthy (x_code e)) as Ht. rewrite H in Ht. discriminate.
  - intros msg _ _. eexists. repeat split. discriminate.
Qed.

Lemma failed_outcome_has_nonzero_code_witness :
  ∃ c, r_exit_code (fst (executeCode Fixtures.exit7_runner "node"
                           "console.log('x'); process.exit(7)" 5000 256)) = Some c
       ∧ Js.truthy_code c = true ∧ c ≠ Js.CodeNum 0.
Proof.
  exact (failed_outcome_has_nonzero_code Fixtures.exit7_runner "node"
           "console.log('x'); process.exit(7)" 5000 256 eq_refl).
Defined.

Lemma or_str_empty (a : string) : Js.or_str a "" = a.
Proof. unfold Js.or_str. case_decide; congruence. Qed.

(** X5. When the run step is reached, the outcome is read off the run
    process, field by field.  Exit 0: COMPLETED with the captured stdout
    and stderr, exit code 0, no timeout.  A killed process: TIMEOUT with
    the stdout captured so far, stderr [error.stderr || 'Execution
    timeout'], exit code [null] and the timeout flag.  Any other
    rejection: FAILED with the stdout captured so far, stderr
    [error.stderr || error.message], exit code [error.code || 1] and no
    timeout.  In all three the execution time is the clock difference
    around the run step, not counting the compile step. *)
Theorem run_outcome_classified (env : RunnerEnv) (runtime sourceCode : string)
    (timeLimit memoryLimit : Z) :
  reaches_run env runtime →
  fst (executeCode env runtime sourceCode timeLimit memoryLimit)
  = match run_result env with
    | Resolved o e =>
        {| r_status := COMPLETED; r_stdout := o; r_stderr := e;
           r_execution_time_ms := endTime env - startTime env;
           r_exit_code := Some (Js.CodeNum 0); r_timeout := false |}
    | Rejected x =>
        if x_killed x
        then {| r_status := TIMEOUT; r_stdout := default "" (x_stdout x);
                r_stderr := Js.or_opt (x_stderr x) "Execution timeout";
                r_execution_time_ms := endTime env - startTime env;
                r_exit_code := None; r_timeout := true |}
        else {| r_status := FAILED; r_stdout := default "" (x_stdout x);
                r_stderr := Js.or_opt (x_stderr x) (x_message x);
                r_execution_time_ms := endTime env - startTime env;
                r_exit_code := Some (Js.code_or_1 (x_code x));
                r_timeout := false |}
    end.
Proof.
  intros (Hmk & Hw1 & Hrt).
  assert (Hstdout : ∀ o, Js.or_opt o "" = default "" o).
  { intros [o|]; cbn; [apply or_str_empty | reflexivity]. }
  unfold executeCode, body, select_runtime, compiled_case, run_step, fs_call.
  rewrite Hmk, Hw1.
  destruct Hrt as [[-> | ->] | ([-> | ->] & Hc & Hw2)];
    repeat (case_decide; try congruence); try rewrite Hw2.
  3, 4: destruct (compile_result env) as [co ce|ce]; [|exfalso; apply Hc; exact I];
        destruct (has_error_marker (compileOutput co ce)) eqn:Hm;
        [exfalso; apply Hc, has_error_marker_iff, Hm|].
  all: cbn; destruct (run_result env) as [o e|x]; [|destruct (x_killed x)]; cbn;
       rewrite ?or_str_empty, ?Hstdout; reflexivity.
Qed.

Lemma run_outcome_classified_witness :
  fst (executeCode Fixtures.exit7_runner "node"
         "console.log('x'); process.exit(7)" 5000 256)
  = {| r_status := FAILED; r_stdout := "x";
       r_stderr := "Command failed: node index.js";
       r_execution_time_ms := 42; r_exit_code := Some (Js.CodeNum 7);
       r_timeout := false |}.
Proof.
  assert (Hreach : reaches_run Fixtures.exit7_runner "node").
  { repeat split. left. right. reflexivity. }
  exact (run_outcome_classified Fixtures.exit7_runner "node"
           "console.log('x'); process.exit(7)" 5000 256 Hreach).
Defined.

End RunnerOutcomeFacts.

(** * Source validation *)

Section ValidateCodeFacts.

Import CodeExecutionService.

Lemma trimStart_empty_iff (s : string) : trimStart s = "" ↔ blank s = true.
Proof.
  induction s as [|c s IH]; cbn; [tauto|].
  destruct (RegExp.is_space c); cbn; [exact IH|].
  split; discriminate.
Qed.

Lemma trimEnd_empty_iff (s : string) : trimEnd s = "" ↔ blank s = true.
Proof.
  induction s as [|c s IH]; cbn; [tauto|].
  destruct (trimEnd s) as [|d t] eqn:Ht.
  - destruct (RegExp.is_space c); cbn; [tauto|]. split; discriminate.
  - split; [discriminate|]. rewrite andb_true_iff. intros [_ Hb].
    apply IH in Hb. discriminate.
Qed.

Lemma blank_trimStart (s : string) : blank (trimStart s) = blank s.
Proof.
  induction s as [|c s IH]; cbn; [reflexivity|].
  destruct (RegExp.is_space c) eqn:Hc; cbn; [exact IH|].
  rewrite Hc. reflexivity.
Qed.

Lemma trim_length_zero_iff (s : string) :
  (js_length (trim s) =? 0) = true ↔ blank s = true.
Proof.
  unfold js_length, trim. rewrite Z.eqb_eq, <- blank_trimStart, <- trimEnd_empty_iff.
  destruct (trimEnd (trimStart s)); cbn; split; try reflexivity; try discriminate; lia.
Qed.

(** X6. [validateCode] accepts a source exactly when it has a character
    that is not white space and at most 1,000,000 code units; a source of
    white space only (the empty string included) is reported as empty, even
    when it is also too long, a longer one as exceeding the maximum size. *)
Theorem validateCode_accepts_iff (sourceCode : string) :
  let r := validateCode sourceCode in
  (code_valid r = true ↔ blank sourceCode = false ∧ js_length sourceCode ≤ 1000000)
  ∧ (blank sourceCode = true →
     r = {| code_valid := false; code_error := Some "Source code cannot be empty" |})
  ∧ (blank sourceCode = false → 1000000 < js_length sourceCode →
     r = {| code_valid := false;
            code_error := Some "Source code exceeds maximum size (1MB)" |})
  ∧ (code_valid r = true → code_error r = None).
Proof.
  cbv zeta. unfold validateCode.
  pose proof (trim_length_zero_iff sourceCode) as Htrim.
  assert (Hempty : bool_decide (sourceCode = "") = true → blank sourceCode = true).
  { intros H. apply bool_decide_eq_true in H. subst. reflexivity. }
  destruct (bool_decide (sourceCode = "")) eqn:Hd;
    destruct (js_length (trim sourceCode) =? 0) eqn:Hz;
    destruct (blank sourceCode) eqn:Hb; cbn [orb];
    try (specialize (Hempty eq_refl); discriminate);
    try (destruct Htrim as [Ht1 Ht2]; first [specialize (Ht1 eq_refl) | specialize (Ht2 eq_refl)];
         discriminate).
  all: try (cbn; repeat split; intros; try discriminate; try reflexivity;
            destruct_and?; discriminate).
  rewrite Z.gtb_ltb.
  destruct (Z.ltb_spec 1000000 (js_length sourceCode)); cbn;
    repeat split; intros; try discriminate; try reflexivity; try lia;
    destruct_and?; lia.
Qed.

End ValidateCodeFacts.

(** * Further properties of the loop-pattern scan *)

Section LoopScanMore.

Import SafetyService.

Lemma lower_ascii_idem (c : ascii) : Js.lower_ascii (Js.lower_ascii c) = Js.lower_ascii c.
Proof. destruct c as [[] [] [] [] [] [] [] []]; reflexivity. Qed.

Lemma is_space_lower (c : ascii) : RegExp.is_space (Js.lower_ascii c) = RegExp.is_space c.
Proof. destruct c as [[] [] [] [] [] [] [] []]; reflexivity. Qed.

Lemma is_word_lower (c : ascii) : RegExp.is_word (Js.lower_ascii c) = RegExp.is_word c.
Proof. destruct c as [[] [] [] [] [] [] [] []]; reflexivity. Qed.

Lemma atom_match_lower (a : RegExp.atom) (c : ascii) :
  RegExp.atom_match a (Js.lower_ascii c) = RegExp.atom_match a c.
Proof.
  destruct a; cbn [RegExp.atom_match].
  - rewrite lower_ascii_idem. reflexivity.
  - apply is_space_lower.
  - apply is_word_lower.
Qed.

Lemma exec_at_lower (p : list RegExp.item) (cs : list ascii) :
  RegExp.exec_at p (Js.lower_ascii <$> cs) = RegExp.exec_at p cs.
Proof.
  revert cs. induction p as [|[a|a|a] p IH]; intros cs.
  - reflexivity.
  - destruct cs as [|c cs]; [reflexivity|]. cbn [RegExp.exec_at fmap list_fmap].
    rewrite atom_match_lower, IH. reflexivity.
  - cbn [RegExp.exec_at]. induction cs as [|c cs IHcs].
    + apply (IH []).
    + cbn [fmap list_fmap]. rewrite atom_match_lower.
      change (Js.lower_ascii c :: (Js.lower_ascii <$> cs))
        with (Js.lower_ascii <$> (c :: cs)).
      rewrite (IH (c :: cs)), IHcs. reflexivity.
  - destruct cs as [|c cs]; [reflexivity|]. cbn [RegExp.exec_at fmap list_fmap].
    rewrite atom_match_lower. destruct (RegExp.atom_match a c); [|reflexivity].
    f_equal. induction cs as [|d cs IHcs].
    + apply (IH []).
    + cbn [fmap list_fmap]. rewrite atom_match_lower.
      change (Js.lower_ascii d :: (Js.lower_ascii <$> cs))
        with (Js.lower_ascii <$> (d :: cs)).
      rewrite (IH (d :: cs)), IHcs. reflexivity.
Qed.

Lemma search_lower (p : list RegExp.item) (cs : list ascii) (i : nat) :
  RegExp.search p (Js.lower_ascii <$> cs) i = RegExp.search p cs i.
Proof.
  revert i. induction cs as [|c cs IH]; intros i.
  - reflexivity.
  - cbn [fmap list_fmap]. cbn [RegExp.search].
    change (Js.lower_ascii c :: (Js.lower_ascii <$> cs))
      with (Js.lower_ascii <$> (c :: cs)).
    rewrite exec_at_lower.
    destruct (RegExp.exec_at p (c :: cs)); [reflexivity|].
    apply IH.
Qed.

Lemma list_ascii_lower (s : string) :
  list_ascii_of_string (Js.toLowerCase s) = Js.lower_ascii <$> list_ascii_of_string s.
Proof. induction s as [|c s IH]; cbn; [reflexivity|]. rewrite IH. reflexivity. Qed.

Lemma test_lower (r : RegExp.object) (s : string) :
  RegExp.test r (Js.toLowerCase s) = RegExp.test r s.
Proof.
  unfold RegExp.test. rewrite list_ascii_lower, length_fmap.
  destruct (_ <? _)%nat; [reflexivity|].
  rewrite <- fmap_drop, search_lower. reflexivity.
Qed.

Lemma scan_objects_lower (objs : list RegExp.object) (s : string) :
  scan_objects objs (Js.toLowerCase s) = scan_objects objs s.
Proof.
  induction objs as [|r objs IH]; cbn [scan_objects]; [reflexivity|].
  rewrite test_lower, IH. reflexivity.
Qed.

(** X7. The scan ignores the case of ASCII letters: two sources of ASCII
    characters that differ only in letter case give the same result,
    whatever the runtime and whatever RegExp objects exist when either
    call starts. *)
Theorem scan_ignores_letter_case (source1 source2 runtime : string)
    (heap heap' : list RegExp.object) :
  Js.ascii_only source1 = true → Js.ascii_only source2 = true →
  Js.toLowerCase source1 = Js.toLowerCase source2 →
  fst (detectInfiniteLoopPatterns source1 runtime heap)
  = fst (detectInfiniteLoopPatterns source2 runtime heap').
Proof.
  intros _ _ Hsame.
  rewrite !detect_result. destruct (fresh_patterns runtime); [|reflexivity].
  rewrite <- (scan_objects_lower _ source1), <- (scan_objects_lower _ source2), Hsame.
  reflexivity.
Qed.

Lemma scan_ignores_letter_case_witness :
  fst (detectInfiniteLoopPatterns "WHILE (True) {}" "node" [])
  = fst (detectInfiniteLoopPatterns "while (true) {}" "node" []).
Proof.
  apply (scan_ignores_letter_case "WHILE (True) {}" "while (true) {}" "node" [] []);
    reflexivity.
Defined.

End LoopScanMore.

Section LoopScanSound.

Import SafetyService CodeExecutionService.

Lemma search_some (p : list RegExp.item) (cs : list ascii) (i : nat) (m : nat * nat) :
  RegExp.search p cs i = Some m → ∃ k n, RegExp.exec_at p (drop k cs) = Some n.
Proof.
  revert i. induction cs as [|c cs IH]; intros i; cbn [RegExp.search].
  - destruct (RegExp.exec_at p []) as [n|] eqn:He; [|discriminate].
    intros _. exists 0%nat, n. exact He.
  - destruct (RegExp.exec_at p (c :: cs)) as [n|] eqn:He.
    + intros _. exists 0%nat, n. exact He.
    + intros H. destruct (IH _ H) as (k & n & Hk). exists (S k), n. exact Hk.
Qed.

Lemma exec_at_literal (l : list ascii) (rest : list RegExp.item) (cs : list ascii) (n : nat) :
  RegExp.exec_at (map (fun c => RegExp.One (RegExp.Chr c)) l ++ rest) cs = Some n →
  ∃ mid tail, cs = (mid ++ tail)%list ∧ Js.lower_ascii <$> mid = Js.lower_ascii <$> l.
Proof.
  revert cs n. induction l as [|x l IH]; intros cs n H.
  - exists [], cs. split; reflexivity.
  - cbn [map app RegExp.exec_at] in H. destruct cs as [|d cs]; [discriminate|].
    cbn [RegExp.atom_match] in H.
    destruct (Ascii.eqb (Js.lower_ascii x) (Js.lower_ascii d)) eqn:Hd; [|discriminate].
    apply Ascii.eqb_eq in Hd.
    destruct (RegExp.exec_at _ cs) as [n'|] eqn:He; [|discriminate].
    destruct (IH _ _ He) as (mid & tail & -> & Hmid).
    exists (d :: mid), tail. split; [reflexivity|].
    cbn [fmap list_fmap]. rewrite Hd. f_equal. exact Hmid.
Qed.

Lemma string_of_list_ascii_app (a b : list ascii) :
  string_of_list_ascii (a ++ b) = string_of_list_ascii a +:+ string_of_list_ascii b.
Proof. induction a as [|c a IH]; cbn; [reflexivity|]. rewrite IH. reflexivity. Qed.

Lemma toLowerCase_of_list (l : list ascii) :
  Js.toLowerCase (string_of_list_ascii l) = string_of_list_ascii (Js.lower_ascii <$> l).
Proof. induction l as [|c l IH]; cbn; [reflexivity|]. rewrite IH. reflexivity. Qed.

(** A match of a pattern that begins with the lower-case literal [kw]
    shows [kw] in the source, up to letter case. *)
Lemma test_literal (r : RegExp.object) (kw : string) (rest : list RegExp.item)
    (s : string) :
  RegExp.compiled r = (RegExp.lit kw ++ rest)%list →
  Js.toLowerCase kw = kw →
  fst (RegExp.test r s) = true →
  ci_contains kw s.
Proof.
  intros Hp Hkw Ht. unfold RegExp.test in Ht.
  destruct (_ <? _)%nat; [discriminate|].
  destruct (RegExp.search _ _ _) as [[a e]|] eqn:Hs; [|discriminate].
  apply search_some in Hs as (k & n & He). rewrite drop_drop, Hp in He.
  apply exec_at_literal in He as (mid & tail & Hsplit & Hmid).
  exists (string_of_list_ascii (take (RegExp.lastIndex r + k) (list_ascii_of_string s))),
    (string_of_list_ascii mid), (string_of_list_ascii tail).
  split.
  - rewrite <- !string_of_list_ascii_app, <- Hsplit.
    rewrite take_drop.
    symmetry. apply string_of_list_ascii_of_string.
  - rewrite toLowerCase_of_list, Hmid, <- list_ascii_lower, Hkw.
    apply string_of_list_ascii_of_string.
Qed.

Lemma scan_objects_detected (objs : list RegExp.object) (s : string) :
  detected (scan_objects objs s) = true →
  ∃ r, r ∈ objs ∧ fst (RegExp.test r s) = true.
Proof.
  induction objs as [|r objs IH]; cbn [scan_objects]; [discriminate|].
  destruct (RegExp.test r s) as [[|] r'] eqn:Ht.
  - intros _. exists r. split; [left|]. rewrite Ht. reflexivity.
  - intros H. destruct (IH H) as (r0 & Hin & Hr0). exists r0. split; [right|]; assumption.
Qed.

(** X8. A source is flagged only if it contains [while] or [for], in any
    letter case: a source with neither keyword is never reported as a
    potential infinite loop, whatever the runtime. *)
Theorem flagged_source_has_keyword (sourceCode runtime : string)
    (heap : list RegExp.object) (c : LoopCheck) :
  fst (detectInfiniteLoopPatterns sourceCode runtime heap) = Ok c →
  detected c = true →
  ci_contains "while" sourceCode ∨ ci_contains "for" sourceCode.
Proof.
  rewrite detect_result. intros Hc Hd.
  destruct (fresh_patterns runtime) as [objs|] eqn:Hf; [|discriminate].
  assert (c = scan_objects objs sourceCode) as -> by congruence.
  apply scan_objects_detected in Hd as (r & Hin & Ht).
  unfold fresh_patterns in Hf.
  repeat case_decide; try discriminate; injection Hf as <-;
    repeat (apply elem_of_cons in Hin as [-> | Hin]);
    try (apply elem_of_nil in Hin; contradiction).
  all: unfold RegExp.while_True_colon, RegExp.while_1_colon, RegExp.for_in_iter,
         RegExp.while_paren_true, RegExp.while_paren_1, RegExp.for_semi_semi,
         RegExp.literal in Ht.
  all: first [ left; eapply test_literal with (kw := "while"); [ | | exact Ht];
                 [cbn [RegExp.compiled]; reflexivity | reflexivity]
             | right; eapply test_literal with (kw := "for"); [ | | exact Ht];
                 [cbn [RegExp.compiled]; reflexivity | reflexivity] ].
Qed.

Lemma flagged_source_has_keyword_witness :
  ci_contains "while" "while(1) { console.log('loop'); }"
  ∨ ci_contains "for" "while(1) { console.log('loop'); }".
Proof.
  eapply (flagged_source_has_keyword "while(1) { console.log('loop'); }" "node" []).
  - vm_compute. reflexivity.
  - reflexivity.
Defined.

End LoopScanSound.

(** * Further properties of the abuse check *)

Section AbuseMore.

Import SafetyService.

(** The verdict is a function of the head of the store script and of the
    rows of the session inside the window. *)
Lemma checkExecutionAbuse_depends (sessionId : string) (env : Env) (w1 w2 : World) :
  db_script w1 = db_script w2 →
  recent sessionId (windowStart (now env)) (executions w1)
  = recent sessionId (windowStart (now env)) (executions w2) →
  fst (checkExecutionAbuse sessionId env w1) = fst (checkExecutionAbuse sessionId env w2).
Proof.
  intros Hs Hr.
  unfold checkExecutionAbuse, try_catch, abuse_query, db_request, request,
    bind, ask, get, modify, throw, ret.
  destruct w1 as [ls1 ss1 es1 q1 fj1 rl1 rt1 rx1 cw1 ds1 rs1 qs1].
  destruct w2 as [ls2 ss2 es2 q2 fj2 rl2 rt2 rx2 cw2 ds2 rs2 qs2].
  cbn [db_script executions] in Hs, Hr. subst ds2.
  destruct ds1 as [|[msg|] rest];
    cbn -[recent size filter pretty windowStart count failed_count];
    rewrite ?Hr; repeat match goal with
                        | |- context [if ?b then _ else _] => destruct b
                        end; reflexivity.
Qed.

(** X9. Only the recent executions of the session itself count: adding an
    execution that belongs to another session, or one created at or before
    the start of the window, leaves the verdict for the session as it
    was. *)
Theorem other_executions_never_count (sessionId : string) (env : Env) (w : World)
    (id : string) (row : ExecutionRow) :
  executions w !! id = None →
  session_id row ≠ sessionId ∨ created_at row ≤ windowStart (now env) * 1000 →
  fst (checkExecutionAbuse sessionId env (set_executions <[id := row]> w))
  = fst (checkExecutionAbuse sessionId env w).
Proof.
  intros Hnew Hout. apply checkExecutionAbuse_depends; [reflexivity|].
  cbn [executions set_executions]. unfold recent.
  apply map_filter_insert_not'.
  - unfold in_window. cbn. intros [Hs Ht]. destruct Hout; [congruence | lia].
  - intros y Hy. congruence.
Qed.

Lemma other_executions_never_count_witness :
  fst (checkExecutionAbuse "sess-002" Fixtures.env
         (set_executions <["exec-777" := Fixtures.exit7_row_of "sess-001"]> Fixtures.world))
  = fst (checkExecutionAbuse "sess-002" Fixtures.env Fixtures.world).
Proof.
  apply (other_executions_never_count "sess-002" Fixtures.env Fixtures.world
           "exec-777" (Fixtures.exit7_row_of "sess-001") eq_refl).
  left. discriminate.
Defined.

(** X10. The check is read-only and cannot fail: it always returns a
    verdict, and the only trace it leaves in the world is the one request
    to the store it used up. *)
Theorem checkExecutionAbuse_never_throws (sessionId : string) (env : Env) (w : World) :
  ∃ verdict,
    checkExecutionAbuse sessionId env w = (Ok verdict, set_db_script (drop 1) w).
Proof. apply checkExecutionAbuse_frame. Qed.

End AbuseMore.

(** * Lifecycle events *)

Section EventFacts.

Import SafetyService.

Lemma redis_request_run (env : Env) (w : World) :
  redis_request env w =
  (match redis_script w with
   | Some msg :: _ => Throw (Error msg)
   | _ => Ok tt
   end, set_redis_script (drop 1) w).
Proof. apply request_run. Qed.

Lemma getExecutionEvents_run (id : string) (env : Env) (w : World) :
  getExecutionEvents id env w =
  (Ok (if fails_next (redis_script w) then []
       else reverse (default [] (redis_lists w !! events_key id))),
   set_redis_script (drop 1) w).
Proof.
  unfold getExecutionEvents, lrange_all.
  rewrite try_catch_run, !bind_run, redis_request_run.
  destruct (redis_script w) as [|[msg|] rest]; reflexivity.
Qed.

(** X11. Round trip of the event log: when Redis answers, an event that
    [logExecutionEvent] records is returned by [getExecutionEvents] after
    all the events recorded before it for the same execution, and the key is
    set to expire after 1800 seconds. *)
Theorem logged_event_is_read_back (id stage : string)
    (metadata : list (string * meta_value)) (env env' : Env) (w : World) :
  fails_next (redis_script w) = false →
  fails_next (drop 1 (redis_script w)) = false →
  fails_next (drop 2 (redis_script w)) = false →
  let event := {| ev_execution_id := id; ev_stage := stage;
                  ev_timestamp := now env; ev_metadata := metadata |} in
  let logged := logExecutionEvent id stage metadata env w in
  fst logged = Ok (Some event)
  ∧ redis_ttl (snd logged) !! events_key id = Some 1800
  ∧ ∃ before,
      fst (getExecutionEvents id env' w) = Ok before
      ∧ fst (getExecutionEvents id env' (snd logged)) = Ok (before ++ [event])%list.
Proof.
  intros H0 H1 H2. cbv zeta.
  rewrite !getExecutionEvents_run. cbn [fst]. rewrite H0.
  unfold logExecutionEvent, lpush, expire, redis_request, request, try_catch,
    bind, ask, get, modify, throw, ret.
  destruct w as [ls ss es q fj rl rt rx cw ds rs qs]. cbn in H0, H1, H2 |- *.
  destruct rs as [|[m0|] [|[m1|] rest]]; try discriminate; cbn in H2 |- *.
  all: rewrite ?lookup_insert_eq; cbn; rewrite ?lookup_insert_eq.
  all: try rewrite H2.
  all: split; [reflexivity|]; split; [reflexivity|]; eexists; split; [reflexivity|].
  all: change (default [] (Some ?l)) with l; rewrite reverse_cons; reflexivity.
Qed.

Lemma logged_event_is_read_back_witness :
  fst (getExecutionEvents "exec-002" Fixtures.env
         (snd (logExecutionEvent "exec-002" "RUNNING" [("job_attempt", MetaNum 1)]
                 Fixtures.env Fixtures.world)))
  = Ok [ {| ev_execution_id := "exec-002"; ev_stage := "RUNNING";
            ev_timestamp := 5000; ev_metadata := [("job_attempt", MetaNum 1)] |} ].
Proof.
  pose proof (logged_event_is_read_back "exec-002" "RUNNING" [("job_attempt", MetaNum 1)]
                Fixtures.env Fixtures.env Fixtures.world eq_refl eq_refl eq_refl) as H.
  cbv zeta in H. destruct H as (_ & _ & before & Hb & Ha).
  vm_compute in Hb. injection Hb as <-. exact Ha.
Defined.

(** X12. The event log is best effort: [logExecutionEvent] and
    [getExecutionEvents] never throw and touch nothing but Redis; when the
    first Redis request fails, the former returns [undefined] and stores
    nothing, and the latter returns the empty list. *)
Theorem event_log_is_best_effort (id stage : string)
    (metadata : list (string * meta_value)) (env : Env) (w : World) :
  (∃ r w', logExecutionEvent id stage metadata env w = (Ok r, w')
           ∧ redis_only w w'
           ∧ (fails_next (redis_script w) = true →
              r = None ∧ redis_lists w' = redis_lists w ∧ redis_ttl w' = redis_ttl w))
  ∧ (∃ events, getExecutionEvents id env w = (Ok events, set_redis_script (drop 1) w)
               ∧ (fails_next (redis_script w) = true → events = [])).
Proof.
  split.
  - destruct (logExecutionEvent_frame id stage metadata env w) as (r & w' & Hrun & Hro).
    exists r, w'. split; [exact Hrun|]. split; [exact Hro|].
    intros Hfail. revert Hrun.
    unfold logExecutionEvent, lpush.
    rewrite try_catch_run, !bind_run. unfold ask at 1.
    rewrite !bind_run, redis_request_run.
    destruct (redis_script w) as [|[m0|] rest0]; try discriminate.
    unfold ret. intros [= <- <-]. repeat split.
  - rewrite getExecutionEvents_run. eexists. split; [reflexivity|].
    intros ->. reflexivity.
Qed.

End EventFacts.

(** * Further properties of admission *)

Section AdmissionMore.

Import ExecutionService.

Lemma loopCheck_node_result (sourceCode : string) (env : Env) (w : World) :
  ∃ heap, loopCheck sourceCode "node" env w
          = (Ok (admission_scan sourceCode), set_regexps (fun _ => heap) w).
Proof.
  unfold loopCheck.
  pose proof (detect_result sourceCode "node" (regexps w)) as H.
  destruct (SafetyService.detectInfiniteLoopPatterns _ _ _) as [r heap].
  cbn in H. subst r. eauto.
Qed.

(** Steps 1 to 7 under [reaches_enqueue], with everything they leave in
    the world. *)
Lemma submit_until_enqueue_full (sessionId : string) (timeLimit memoryLimit : Z)
    (env : Env) (w : World) (session : SessionRow) :
  reaches_enqueue sessionId timeLimit memoryLimit env w session →
  ∃ w2,
    executions w2 =
      <[uuid env := queued_row (uuid env) sessionId (now env)]> (executions w)
    ∧ sessions w2 = sessions w ∧ languages w2 = languages w
    ∧ queue w2 = queue w ∧ failed_jobs w2 = failed_jobs w
    ∧ queue_script w2 = queue_script w
    ∧ db_script w2 = drop 3 (db_script w)
    ∧ console_warn w2 = (console_warn w ++ scan_warnings (source_code session))%list
    ∧ submitExecution sessionId timeLimit memoryLimit env w =
      bind (Queue.add
              {| job_execution_id := uuid env; job_session_id := sessionId;
                 job_time_limit := timeLimit; job_memory_limit := memoryLimit |}
              (uuid env))
           (fun _ => ret {| execution_id := uuid env; submitted_status := QUEUED |})
           env w2.
Proof.
  intros [Hvalid Habuse Hfetch Hsess Hins Hfresh].
  unfold submitExecution. rewrite Hvalid. cbn [negb].
  rewrite bind_run.
  destruct (checkExecutionAbuse_frame sessionId env w) as [c Hc].
  rewrite Hc in Habuse |- *. rewrite (Habuse c eq_refl). cbn [negb].
  rewrite bind_run. unfold Session.findById at 1.
  rewrite bind_run, db_request_run. cbn [db_script set_db_script].
  destruct (drop 1 (db_script w)) as [|[?|] rest2] eqn:Hd1; try discriminate.
  all: rewrite bind_run; unfold get at 1, ret at 1; cbn [sessions set_db_script].
  all: rewrite Hsess.
  all: rewrite bind_run.
  all: match goal with
       | |- context [loopCheck ?src "node" ?e ?w1] =>
           destruct (loopCheck_node_result src e w1) as (heap & Hlc); rewrite Hlc
       end.
  all: rewrite bind_run.
  all: match goal with
       | |- context [(if ?b then ?m1 else ?m2) ?e ?w1] =>
           assert (∃ f, (if b then m1 else m2) e w1 = (Ok tt, set_console_warn f w1)
                        ∧ ∀ l, f l = (l ++ scan_warnings (source_code session))%list)
             as (f & Hcw & Hf)
             by (unfold scan_warnings; destruct b;
                 [eexists (fun l => (l ++ [_])%list) | exists (fun l => l)];
                 (split; [reflexivity | intros; rewrite ?app_nil_r; reflexivity]));
           rewrite Hcw
       end.
  all: rewrite bind_run; unfold ask at 1.
  all: rewrite bind_run; unfold Execution.create at 1.
  all: rewrite bind_run, db_request_run;
       cbn [db_script set_db_script set_console_warn set_regexps].
  all: assert (Hd2 : drop 1 (drop 1 (db_script w)) = drop 2 (db_script w))
         by (rewrite drop_drop; reflexivity).
  all: assert (Hd3 : drop 1 (drop 1 (drop 1 (db_script w))) = drop 3 (db_script w))
         by (rewrite !drop_drop; reflexivity).
  all: rewrite Hd2; destruct (drop 2 (db_script w)) as [|[?|] rest3] eqn:Hd2';
         try discriminate.
  all: unfold bind, get, ask, modify, ret;
       cbn [executions sessions set_db_script set_console_warn set_regexps set_executions].
  all: rewrite Hfresh, Hsess.
  all: match goal with
       | |- context [SafetyService.logExecutionEvent ?i ?st ?md ?e ?w1] =>
           destruct (logExecutionEvent_frame i st md e w1) as (ev & w2 & Hlog & Hro);
           rewrite Hlog
       end.
  all: exists w2; destruct Hro as [Rl Rs Re Rq Rf _ Rc Rd Rqs];
       cbn in Rl, Rs, Re, Rq, Rf, Rc, Rd, Rqs;
       rewrite Hf in Rc; rewrite Hd3 in Rd;
       repeat split; assumption || reflexivity.
Qed.

(** X13. An integer limit out of range is rejected before anything else
    happens: whatever the session and whatever the state of the store,
    the call throws [Validation failed: ...] listing every violation,
    sends no request and leaves the world as it was.  (A limit that is
    not a number is not rejected at all, as the counterexample to C5
    shows.) *)
Theorem invalid_limits_rejected_first (sessionId : string) (timeLimit memoryLimit : Z)
    (env : Env) (w : World) :
  ¬ (100 ≤ timeLimit ≤ 60000 ∧ 32 ≤ memoryLimit ≤ 2048) →
  ∃ violations,
    submitExecution sessionId timeLimit memoryLimit env w
    = (Throw (Error ("Validation failed: " +:+ join ", " violations)), w)
    ∧ violations ≠ []
    ∧ (Validation.time_message ∈ violations ↔ ¬ 100 ≤ timeLimit ≤ 60000)
    ∧ (Validation.memory_message ∈ violations ↔ ¬ 32 ≤ memoryLimit ≤ 2048).
Proof.
  intros Hbad. unfold submitExecution.
  rewrite validateExecutionParams_integers.
  assert (Hne : Validation.time_message ≠ Validation.memory_message)
    by (vm_compute; discriminate).
  destruct (Z.leb_spec 100 timeLimit), (Z.leb_spec timeLimit 60000),
    (Z.leb_spec 32 memoryLimit), (Z.leb_spec memoryLimit 2048); try lia;
    cbn [andb app negb Validation.valid Validation.errors];
    eexists; (split; [reflexivity|]); (split; [discriminate|]);
    rewrite ?elem_of_cons, ?elem_of_nil; split; split; intros; try lia;
    try tauto; intuition congruence.
Qed.

Lemma invalid_limits_rejected_first_witness :
  ∃ violations,
    submitExecution "sess-002" 50 256 Fixtures.env Fixtures.world
    = (Throw (Error ("Validation failed: " +:+ join ", " violations)), Fixtures.world)
    ∧ Validation.time_message ∈ violations.
Proof.
  destruct (invalid_limits_rejected_first "sess-002" 50 256 Fixtures.env Fixtures.world
              ltac:(lia)) as (v & H & _ & Ht & _).
  exists v. split; [exact H|]. apply Ht. lia.
Defined.

Lemma abuse_blocked (sessionId : string) (env : Env) (w : World) :
  fails_next (db_script w) = false →
  let rows := SafetyService.recent sessionId (SafetyService.windowStart (now env))
                (executions w) in
  (10 ≤ size rows)%nat ∨ (5 ≤ size (filter SafetyService.is_failed rows))%nat →
  ∃ why, SafetyService.checkExecutionAbuse sessionId env w
         = (Ok {| SafetyService.allowed := false; SafetyService.reason := Some why;
                  SafetyService.retryAfter := Some 60 |},
            set_db_script (drop 1) w).
Proof.
  intros Hdb rows Hmany.
  unfold SafetyService.checkExecutionAbuse, SafetyService.abuse_query, try_catch,
    db_request, request, bind, ask, get, modify, throw, ret.
  destruct w as [ls ss es q fj rl rt rx cw ds rs qs]. cbn [db_script executions] in *.
  destruct ds as [|[msg|] rest]; try discriminate;
    cbn -[SafetyService.recent size filter pretty SafetyService.windowStart].
  all: fold rows.
  all: unfold SafetyService.count, SafetyService.failed_count,
         SafetyService.MAX_EXECUTIONS_PER_MINUTE, SafetyService.MAX_FAILED_ATTEMPTS,
         SafetyService.ABUSE_CHECK_WINDOW.
  all: pose proof (map_filter_subseteq SafetyService.is_failed rows) as Hsub;
       apply map_subseteq_size in Hsub.
  all: destruct (Z.leb_spec 10 (Z.of_nat (size rows))) as [Hc|Hc];
         [eexists; reflexivity|].
  all: case_decide as Hz; cbn [default from_option id]; [lia|].
  all: destruct (Z.leb_spec 5 (Z.of_nat (size (filter SafetyService.is_failed rows))));
         [eexists; reflexivity | lia].
Qed.

(** X14. Rate limit and failure circuit at admission: when the store
    answers and the session has at least 10 executions in the window, or at
    least 5 FAILED ones, the call throws an error with status 429 and
    [retryAfter] 60, and creates neither a row nor a job: it stops after the
    one request of the abuse check. *)
Theorem busy_session_gets_429 (sessionId : string) (timeLimit memoryLimit : Z)
    (env : Env) (w : World) :
  100 ≤ timeLimit ≤ 60000 → 32 ≤ memoryLimit ≤ 2048 →
  fails_next (db_script w) = false →
  let rows := SafetyService.recent sessionId (SafetyService.windowStart (now env))
                (executions w) in
  (10 ≤ size rows)%nat ∨ (5 ≤ size (filter SafetyService.is_failed rows))%nat →
  ∃ why,
    submitExecution sessionId timeLimit memoryLimit env w
    = (Throw {| message := why; err_status := Some 429; err_retryAfter := Some 60 |},
       set_db_script (drop 1) w).
Proof.
  intros Ht Hm Hdb rows Hmany.
  destruct (abuse_blocked sessionId env w Hdb Hmany) as (why & Hrun).
  exists why. unfold submitExecution.
  assert (Hvalid : Validation.valid
                     (Validation.validateExecutionParams timeLimit memoryLimit) = true).
  { rewrite validateExecutionParams_integers. cbn [Validation.valid].
    destruct (Z.leb_spec 100 timeLimit), (Z.leb_spec timeLimit 60000),
      (Z.leb_spec 32 memoryLimit), (Z.leb_spec memoryLimit 2048);
      try lia; reflexivity. }
  rewrite Hvalid. cbn [negb]. rewrite bind_run, Hrun. reflexivity.
Qed.

Lemma busy_session_gets_429_witness :
  ∃ why,
    submitExecution "sess-002" 5000 256 Fixtures.env Fixtures.tripped_world
    = (Throw {| message := why; err_status := Some 429; err_retryAfter := Some 60 |},
       set_db_script (drop 1) Fixtures.tripped_world).
Proof.
  apply (busy_session_gets_429 "sess-002" 5000 256 Fixtures.env Fixtures.tripped_world);
    try lia; try reflexivity.
  right. vm_compute. lia.
Defined.

(** X15. A session that does not exist: with valid limits and an allowing
    abuse check, the call throws [Session not found: <id>] after the fetch
    and creates neither a row nor a job. *)
Theorem unknown_session_is_refused (sessionId : string) (timeLimit memoryLimit : Z)
    (env : Env) (w : World) :
  Validation.valid (Validation.validateExecutionParams timeLimit memoryLimit) = true →
  (∀ c, fst (SafetyService.checkExecutionAbuse sessionId env w) = Ok c →
        SafetyService.allowed c = true) →
  fails_next (drop 1 (db_script w)) = false →
  sessions w !! sessionId = None →
  submitExecution sessionId timeLimit memoryLimit env w
  = (Throw (Error ("Session not found: " +:+ sessionId)), set_db_script (drop 2) w).
Proof.
  intros Hvalid Habuse Hfetch Hsess.
  unfold submitExecution. rewrite Hvalid. cbn [negb].
  rewrite bind_run.
  destruct (checkExecutionAbuse_frame sessionId env w) as [c Hc].
  rewrite Hc in Habuse |- *. rewrite (Habuse c eq_refl). cbn [negb].
  rewrite bind_run. unfold Session.findById at 1.
  rewrite bind_run, db_request_run. cbn [db_script set_db_script].
  destruct w as [ls ss es q fj rl rt rx cw ds rs qs]. cbn in Hfetch, Hsess |- *.
  destruct ds as [|d0 [|[?|] rest]]; try discriminate; cbn; rewrite Hsess; reflexivity.
Qed.

Lemma unknown_session_is_refused_witness :
  submitExecution "sess-gone" 5000 256 Fixtures.env Fixtures.world
  = (Throw (Error "Session not found: sess-gone"), set_db_script (drop 2) Fixtures.world).
Proof.
  apply (unknown_session_is_refused "sess-gone" 5000 256 Fixtures.env Fixtures.world);
    try reflexivity.
  intros c. vm_compute. intros H. injection H as <-. reflexivity.
Defined.

Lemma admission_succeeds_witness :
  let result := submitExecution "sess-002" 5000 256 Fixtures.env Fixtures.world in
  fst result = Ok {| execution_id := "exec-003"; submitted_status := QUEUED |}
  ∧ queue (snd result) = [job_for "exec-003" "sess-002" 5000 256].
Proof.
  assert (Hreach : reaches_enqueue "sess-002" 5000 256 Fixtures.env Fixtures.world
                     Fixtures.open_session).
  { constructor; try (vm_compute; reflexivity).
    intros c. vm_compute. intros H. injection H as <-. reflexivity. }
  pose proof (admission_succeeds "sess-002" 5000 256 Fixtures.env Fixtures.world
                Fixtures.open_session Hreach eq_refl eq_refl eq_refl) as H.
  cbv zeta in H. destruct H as (H1 & _ & H2). split; [exact H1 | exact H2].
Defined.

Lemma getExecution_run (id : string) (env : Env) (w : World) :
  fails_next (db_script w) = false →
  getExecution id env w =
  (match executions w !! id with
   | None => Throw (Error ("Execution not found: " +:+ id))
   | Some e =>
       Ok (if terminal (status e)
           then {| resp_execution_id := exec_id e; resp_status := status e;
                   resp_stdout := Some (Js.or_opt (stdout e) "");
                   resp_stderr := Some (Js.or_opt (stderr e) "");
                   resp_execution_time_ms := Some (execution_time_ms e) |}
           else {| resp_execution_id := exec_id e; resp_status := status e;
                   resp_stdout := None; resp_stderr := None;
                   resp_execution_time_ms := None |})
   end, set_db_script (drop 1) w).
Proof.
  intros Hdb. unfold getExecution, Execution.findById.
  rewrite !bind_run, db_request_run.
  destruct (db_script w) as [|[?|] ?]; try discriminate.
  all: unfold bind, get, ret, throw; cbn [executions set_db_script].
  all: destruct (executions w !! id) as [e|]; [destruct (terminal (status e))|];
       reflexivity.
Qed.

(** X16. Admission and polling compose: after an admission that returned,
    [getExecution] with the returned id answers QUEUED and carries no
    output properties, and a flagged source changes nothing but the
    warning lines: the call is admitted all the same. *)
Theorem admitted_execution_polls_queued (sessionId : string) (timeLimit memoryLimit : Z)
    (env env' : Env) (w : World) (session : SessionRow) :
  reaches_enqueue sessionId timeLimit memoryLimit env w session →
  fails_next (queue_script w) = false →
  fails_next (drop 3 (db_script w)) = false →
  let admitted := submitExecution sessionId timeLimit memoryLimit env w in
  fst admitted = Ok {| execution_id := uuid env; submitted_status := QUEUED |}
  ∧ console_warn (snd admitted)
    = (console_warn w ++ scan_warnings (source_code session))%list
  ∧ fst (getExecution (uuid env) env' (snd admitted))
    = Ok {| resp_execution_id := uuid env; resp_status := QUEUED;
            resp_stdout := None; resp_stderr := None;
            resp_execution_time_ms := None |}.
Proof.
  intros Hreach Hq Hdb.
  destruct (submit_until_enqueue_full _ _ _ _ _ _ Hreach)
    as (w2 & He & Hs & Hl & Hqu & Hf & Hqs & Hd & Hcw & Hrun).
  cbv zeta. rewrite Hrun, bind_run, queue_add_run, Hqs.
  assert (Hafter : ∃ w3, (match queue_script w with
            | Some msg :: _ => (Throw (Error msg), set_queue_script (drop 1) w2)
            | _ => (Ok tt,
                    if Queue.has_job (uuid env) (queue w2)
                       || Queue.has_job (uuid env) (failed_jobs w2)
                    then set_queue_script (drop 1) w2
                    else set_queue (fun q =>
                           (q ++ [ {| job_id := uuid env;
                                      job_data :=
                                        {| job_execution_id := uuid env;
                                           job_session_id := sessionId;
                                           job_time_limit := timeLimit;
                                           job_memory_limit := memoryLimit |};
                                      attemptsMade := 0; job_delay := 0 |} ])%list)
                           (set_queue_script (drop 1) w2))
            end) = (Ok tt, w3)
            ∧ executions w3 = executions w2 ∧ console_warn w3 = console_warn w2
            ∧ db_script w3 = db_script w2).
  { destruct (queue_script w) as [|[?|] ?]; try discriminate;
      destruct (Queue.has_job _ _ || Queue.has_job _ _); eexists; repeat split. }
  destruct Hafter as (w3 & -> & He3 & Hc3 & Hd3).
  unfold ret. cbn [fst snd].
  split; [reflexivity|]. split; [congruence|].
  rewrite getExecution_run by (rewrite Hd3, Hd; exact Hdb).
  rewrite He3, He, lookup_insert_eq. reflexivity.
Qed.

Lemma admitted_execution_polls_queued_witness :
  let admitted := submitExecution "sess-002" 5000 256 Fixtures.env Fixtures.world in
  console_warn (snd admitted)
  = ["[ExecutionService] Infinite loop warning: "
     +:+ "Potential infinite loop detected: /while\s*\(\s*true\s*\)/gi"]
  ∧ fst (getExecution "exec-003" Fixtures.env (snd admitted))
    = Ok {| resp_execution_id := "exec-003"; resp_status := QUEUED;
            resp_stdout := None; resp_stderr := None;
            resp_execution_time_ms := None |}.
Proof.
  assert (Hreach : reaches_enqueue "sess-002" 5000 256 Fixtures.env Fixtures.world
                     Fixtures.open_session).
  { constructor; try (vm_compute; reflexivity).
    intros c. vm_compute. intros H. injection H as <-. reflexivity. }
  pose proof (admitted_execution_polls_queued "sess-002" 5000 256 Fixtures.env
                Fixtures.env Fixtures.world Fixtures.open_session Hreach
                eq_refl eq_refl) as H.
  cbv zeta in H. destruct H as (_ & H1 & H2). split; [|exact H2].
  rewrite H1. vm_compute. reflexivity.
Defined.

End AdmissionMore.

(** ** The worker: what it leaves alone, and the normal path *)

Section WorkerFrame.

Import Worker.

Variable env : Env.
Variable w0 : World.
Variable id : string.

Lemma frame_start : only_row_changed id w0 w0.
Proof.
  unfold only_row_changed. repeat split; try reflexivity.
  destruct (executions w0 !! id); auto.
Qed.

Lemma frame_drop_script (w : World) :
  only_row_changed id w0 w → only_row_changed id w0 (set_db_script (drop 1) w).
Proof. intros H. exact H. Qed.

Lemma frame_write (w : World) (row row' : ExecutionRow) :
  only_row_changed id w0 w → executions w !! id = Some row →
  exec_id row' = exec_id row → session_id row' = session_id row →
  created_at row' = created_at row →
  only_row_changed id w0 (set_executions <[id := row']> w).
Proof.
  intros (Hs & Hl & Hq & Hf & Hk & Hid) Hrow H1 H2 H3.
  unfold only_row_changed. cbn.
  repeat split; try assumption.
  - intros k Hne. rewrite lookup_insert_ne by congruence. apply Hk, Hne.
  - rewrite lookup_insert_eq. rewrite Hrow in Hid.
    destruct (executions w0 !! id) as [r0|]; [|contradiction].
    destruct Hid as (? & ? & ?). repeat split; congruence.
Qed.

Lemma frame_redis_only (w w' : World) :
  redis_only w w' → only_row_changed id w0 w → only_row_changed id w0 w'.
Proof.
  intros Hro (Hs & Hl & Hq & Hf & Hk & Hid).
  destruct Hro as [Rl Rs Re Rq Rf _ _ _ _].
  unfold only_row_changed. rewrite Rl, Rs, Re, Rq, Rf. repeat split; assumption.
Qed.

Lemma frame_db_request :
  hoare env (only_row_changed id w0) db_request
    (fun _ => only_row_changed id w0) (fun _ => only_row_changed id w0).
Proof.
  intros w Hw. rewrite db_request_run.
  destruct (db_script w) as [|[msg|] rest]; apply frame_drop_script, Hw.
Qed.

Lemma frame_read {A} (f : World → A) :
  hoare env (only_row_changed id w0)
    (run! db_request in let! w := get in ret (f w))
    (fun _ => only_row_changed id w0) (fun _ => only_row_changed id w0).
Proof.
  eapply hoare_bind; [apply frame_db_request|]. intros _ w Hw. exact Hw.
Qed.

Lemma frame_log (stage : string) (metadata : list (string * meta_value)) :
  hoare env (only_row_changed id w0)
    (SafetyService.logExecutionEvent id stage metadata)
    (fun _ => only_row_changed id w0) (fun _ => only_row_changed id w0).
Proof.
  intros w Hw.
  pose proof (logExecutionEvent_frame id stage metadata env w) as (ev & w' & Hlog & Hro).
  rewrite Hlog. eapply frame_redis_only; eassumption.
Qed.

Lemma frame_updateStarted :
  hoare env (only_row_changed id w0) (Execution.updateStarted id)
    (fun _ => only_row_changed id w0) (fun _ => only_row_changed id w0).
Proof.
  unfold Execution.updateStarted.
  eapply hoare_bind; [apply frame_db_request|]. intros _ w Hw.
  unfold bind, get, ask, modify, ret.
  destruct (executions w !! id) as [row|] eqn:Hrow; [|exact Hw].
  eapply frame_write; [exact Hw | exact Hrow | reflexivity..].
Qed.

Lemma frame_updateResult (d : Execution.ResultData) :
  hoare env (only_row_changed id w0) (Execution.updateResult id d)
    (fun _ => only_row_changed id w0) (fun _ => only_row_changed id w0).
Proof.
  unfold Execution.updateResult.
  eapply hoare_bind; [apply frame_db_request|]. intros _ w Hw.
  unfold bind, get, ask, modify, ret, throw.
  destruct (Execution.integer_param _) as [code|]; [|exact Hw].
  destruct (executions w !! id) as [row|] eqn:Hrow; [|exact Hw].
  destruct (_ <? 0); [exact Hw|].
  eapply frame_write; [exact Hw | exact Hrow | reflexivity..].
Qed.

Lemma frame_processExecution (job : Job) :
  job_execution_id (job_data job) = id →
  hoare env (only_row_changed id w0) (processExecution job)
    (fun _ => only_row_changed id w0) (fun _ => only_row_changed id w0).
Proof.
  intros Hid. unfold processExecution. rewrite Hid.
  eapply hoare_try_catch with (E1 := fun _ => only_row_changed id w0).
  - eapply hoare_bind; [apply frame_updateStarted|]. intros ?; cbv beta.
    eapply hoare_bind; [apply frame_log|]. intros ?; cbv beta.
    eapply hoare_bind; [apply frame_read|]. intros [[session lang]|].
    + eapply hoare_bind; [apply frame_read|]. intros [language|].
      * apply hoare_ask.
        eapply hoare_bind; [apply frame_updateResult|].
        intros ?; cbv beta. eapply hoare_bind; [apply frame_log|]. intros ?; cbv beta.
        apply hoare_ret.
      * intros w Hw. exact Hw.
    + intros w Hw. exact Hw.
  - intros e.
    eapply hoare_bind; [apply frame_log|]. intros ?; cbv beta.
    apply hoare_ask.
    eapply hoare_bind; [apply frame_updateResult|]. intros ?; cbv beta.
    intros w Hw. exact Hw.
Qed.

End WorkerFrame.

Section WorkerMore.

Import Worker CodeExecutionService.

(** X18. What processing a job leaves alone, whatever the store, Redis
    and the Runner do: sessions, languages and every execution row but
    the job's own are as before; the job's row is neither created nor
    deleted and keeps its id, its session and its creation time; the
    processor itself does not touch the queue. *)
Theorem worker_changes_only_its_row (job : Job) (env : Env) (w : World) :
  only_row_changed (job_execution_id (job_data job)) w
    (snd (processExecution job env w))
  ∧ executions (snd (run_job job env w))
    = executions (snd (processExecution job env w))
  ∧ sessions (snd (run_job job env w)) = sessions w.
Proof.
  pose proof (frame_processExecution env w _ job eq_refl w (frame_start w _)) as H.
  unfold run_job.
  destruct (processExecution job env w) as [[a|e] w']; cbn [fst snd].
  - split; [exact H|]. split; [reflexivity | apply H].
  - split; [exact H|].
    destruct (S (attemptsMade job) <? Queue.attempts)%nat;
      (split; [reflexivity | apply H]).
Qed.

Lemma language_findById_run (lid : Z) (env : Env) (w : World) :
  fails_next (db_script w) = false →
  Language.findById lid env w = (Ok (languages w !! lid), set_db_script (drop 1) w).
Proof.
  intros Hdb. unfold Language.findById.
  rewrite bind_run, db_request_run.
  destruct (db_script w) as [|[?|] ?]; try discriminate; reflexivity.
Qed.

Lemma try_catch_bind_ok {A B} (m : M A) (k : A → M B) (h : error → M B)
    (env : Env) (w w' : World) (a : A) :
  m env w = (Ok a, w') → try_catch (bind m k) h env w = try_catch (k a) h env w'.
Proof. intros H. unfold try_catch, bind. rewrite H. reflexivity. Qed.

Lemma updateResult_refused (id : string) (d : Execution.ResultData)
    (env : Env) (w : World) :
  fails_next (db_script w) = false →
  Execution.integer_param (Execution.d_exit_code d) = None →
  Execution.updateResult id d env w
  = (Throw (Error "invalid input syntax for type integer"), set_db_script (drop 1) w).
Proof.
  intros Hdb Hcode. unfold Execution.updateResult.
  rewrite bind_run, db_request_run.
  destruct (db_script w) as [|[?|] ?]; try discriminate.
  all: unfold bind, get, throw; rewrite Hcode; reflexivity.
Qed.

(** With the store answering and the session and its language present,
    the processor gets as far as the Runner: what is left is the write of
    the Runner's outcome, under the same handler. *)
Lemma processExecution_reaches_runner (job : Job) (env : Env) (w : World)
    (session : SessionRow) (language : LanguageRow) :
  fails_next (db_script w) = false →
  fails_next (drop 1 (db_script w)) = false →
  fails_next (drop 2 (db_script w)) = false →
  sessions w !! job_session_id (job_data job) = Some session →
  languages w !! language_id session = Some language →
  let id := job_execution_id (job_data job) in
  let attempt := MetaNum (Z.of_nat (attemptsMade job) + 1) in
  let result :=
    fst (executeCode (runner env) (runtime language) (source_code session)
           (job_time_limit (job_data job)) (job_memory_limit (job_data job))) in
  ∃ w3,
    processExecution job env w
    = try_catch
        (run! Execution.updateResult id (result_data result (finished env)) in
         run! SafetyService.logExecutionEvent id (status_name (r_status result))
                [ ("execution_time_ms", MetaNum (r_execution_time_ms result));
                  ("exit_code", meta_code (r_exit_code result));
                  ("timeout", MetaBool (r_timeout result)) ] in
         ret result)
        (fun error =>
           run! SafetyService.logExecutionEvent id "FAILED"
                  [("error", MetaStr (message error)); ("job_attempt", attempt)] in
           let! env := ask in
           run! Execution.updateResult id (failure_data error (finished env)) in
           throw error)
        env w3
    ∧ executions w3
      = match executions w !! id with
        | Some row => <[id := Execution.mark_started (now env) row]> (executions w)
        | None => executions w
        end
    ∧ queue w3 = queue w ∧ failed_jobs w3 = failed_jobs w
    ∧ db_script w3 = drop 3 (db_script w).
Proof.
  intros Hdb0 Hdb1 Hdb2 Hsess Hlang. cbv zeta.
  set (id := job_execution_id (job_data job)).
  assert (Hst : ∃ r w1,
    Execution.updateStarted id env w = (Ok r, w1)
    ∧ sessions w1 = sessions w ∧ languages w1 = languages w
    ∧ db_script w1 = drop 1 (db_script w)
    ∧ queue w1 = queue w ∧ failed_jobs w1 = failed_jobs w
    ∧ executions w1
      = match executions w !! id with
        | Some row => <[id := Execution.mark_started (now env) row]> (executions w)
        | None => executions w
        end).
  { rewrite updateStarted_run by assumption.
    destruct (executions w !! id); eexists _, _; cbn; auto 10. }
  destruct Hst as (r & w1 & Hst & Hs1 & Hl1 & Hd1 & Hq1 & Hf1 & He1).
  unfold processExecution. cbv zeta. fold id.
  rewrite (try_catch_bind_ok _ _ _ _ _ _ _ Hst).
  match goal with
  | |- context [SafetyService.logExecutionEvent ?i ?st ?md] =>
      destruct (logExecutionEvent_frame i st md env w1) as (ev & w2 & Hlog & Hro)
  end.
  rewrite (try_catch_bind_ok _ _ _ _ _ _ _ Hlog).
  destruct Hro as [Hl2 Hs2 He2 Hq2 Hf2 _ _ Hd2 _].
  assert (Hdb1' : fails_next (db_script w2) = false) by (rewrite Hd2, Hd1; assumption).
  rewrite (try_catch_bind_ok _ _ _ _ _ _ _ (findWithLanguage_run _ env w2 Hdb1')).
  rewrite Hs2, Hs1, Hsess, Hl2, Hl1, Hlang. cbv beta iota.
  assert (Hdb2' : fails_next (db_script (set_db_script (drop 1) w2)) = false)
    by (cbn; rewrite Hd2, Hd1, drop_drop; assumption).
  rewrite (try_catch_bind_ok _ _ _ _ _ _ _
             (language_findById_run (language_id session) env _ Hdb2')).
  cbn [languages set_db_script]. rewrite Hl2, Hl1, Hlang. cbv beta iota.
  rewrite (try_catch_bind_ok ask _ _ env _ _ env eq_refl).
  eexists. split; [reflexivity|].
  cbn. rewrite He2, Hq2, Hf2, Hd2, Hd1, !drop_drop. auto.
Qed.

(** The run of the processor on the normal path. *)
Lemma processExecution_normal (job : Job) (env : Env) (w : World)
    (session : SessionRow) (language : LanguageRow) (code : option Z) :
  fails_next (db_script w) = false →
  fails_next (drop 1 (db_script w)) = false →
  fails_next (drop 2 (db_script w)) = false →
  fails_next (drop 3 (db_script w)) = false →
  sessions w !! job_session_id (job_data job) = Some session →
  languages w !! language_id session = Some language →
  let id := job_execution_id (job_data job) in
  let result :=
    fst (executeCode (runner env) (runtime language) (source_code session)
           (job_time_limit (job_data job)) (job_memory_limit (job_data job))) in
  Execution.integer_param (r_exit_code result) = Some code →
  0 ≤ r_execution_time_ms result →
  ∃ w',
    processExecution job env w = (Ok result, w')
    ∧ executions w'
      = match executions w !! id with
        | Some row =>
            <[id := Execution.apply_result (result_data result (finished env)) code
                      (Execution.mark_started (now env) row)]> (executions w)
        | None => executions w
        end
    ∧ queue w' = queue w ∧ failed_jobs w' = failed_jobs w
    ∧ db_script w' = drop 4 (db_script w).
Proof.
  intros Hdb0 Hdb1 Hdb2 Hdb3 Hsess Hlang. cbv zeta. intros Hcode Htime.
  destruct (processExecution_reaches_runner job env w session language
              Hdb0 Hdb1 Hdb2 Hsess Hlang) as (w3 & -> & He & Hq & Hf & Hd).
  set (id := job_execution_id (job_data job)) in *.
  rewrite try_catch_run, bind_run.
  rewrite (updateResult_run id _ code);
    [| rewrite Hd; assumption | exact Hcode | exact Htime].
  assert (Hwrite : ∃ r w4,
    match executions w3 !! id with
    | Some row =>
        (Ok (Some (Execution.apply_result
                     (result_data
                        (fst (executeCode (runner env) (runtime language)
                                (source_code session)
                                (job_time_limit (job_data job))
                                (job_memory_limit (job_data job)))) (finished env))
                     code row)),
         set_executions
           <[id := Execution.apply_result
                     (result_data
                        (fst (executeCode (runner env) (runtime language)
                                (source_code session)
                                (job_time_limit (job_data job))
                                (job_memory_limit (job_data job)))) (finished env))
                     code row]>
           (set_db_script (drop 1) w3))
    | None => (Ok None, set_db_script (drop 1) w3)
    end = (Ok r, w4)
    ∧ executions w4
      = match executions w !! id with
        | Some row =>
            <[id := Execution.apply_result
                      (result_data
                         (fst (executeCode (runner env) (runtime language)
                                 (source_code session)
                                 (job_time_limit (job_data job))
                                 (job_memory_limit (job_data job)))) (finished env))
                      code (Execution.mark_started (now env) row)]> (executions w)
        | None => executions w
        end
    ∧ queue w4 = queue w ∧ failed_jobs w4 = failed_jobs w
    ∧ db_script w4 = drop 4 (db_script w)).
  { rewrite He. destruct (executions w !! id) as [row|] eqn:Hrow.
    - rewrite lookup_insert_eq. eexists _, _. split; [reflexivity|].
      cbn. rewrite He, insert_insert_eq, Hd, drop_drop. auto.
    - rewrite Hrow. eexists _, _. split; [reflexivity|].
      cbn. rewrite He, Hd, drop_drop. auto. }
  destruct Hwrite as (r & w4 & -> & He4 & Hq4 & Hf4 & Hd4).
  rewrite bind_run.
  match goal with
  | |- context [SafetyService.logExecutionEvent ?i ?st ?md ?e ?w0] =>
      destruct (logExecutionEvent_frame i st md e w0) as (ev' & w5 & Hlog' & Hro');
      rewrite Hlog'
  end.
  destruct Hro' as [_ _ He5 Hq5 Hf5 _ _ Hd5 _].
  unfold ret. eexists. split; [reflexivity|].
  rewrite He5, Hq5, Hf5, Hd5. auto.
Qed.

Lemma executeCode_status_terminal (env : RunnerEnv) (runtime sourceCode : string)
    (timeLimit memoryLimit : Z) :
  terminal (r_status (fst (executeCode env runtime sourceCode timeLimit memoryLimit)))
  = true.
Proof.
  apply executeCode_ind with (Q := fun _ => True); auto.
  - intros. apply post_compiled_case; [auto|]. reflexivity.
  - intros. apply post_run_step; intros; reflexivity.
Qed.

(** X19. The normal path of the worker.  If the store answers the four
    requests, the session and its language exist, the execution row
    exists, and the Runner's outcome is one the store accepts (a numeric
    or absent exit code, a non-negative time, no NUL character in stdout
    or stderr), then the processor returns the Runner's outcome; the
    job's row keeps its id, its session and its creation time and holds
    the outcome: its status (a terminal one), stdout, stderr, execution
    time, exit code and timeout flag, with [started_at] read from the
    store's clock when the job was taken up and [finished_at] from the
    worker's clock after the run; no other row changes; and the job
    leaves the queue without entering the failed set. *)
Theorem worker_stores_runner_outcome (job : Job) (env : Env) (w : World)
    (session : SessionRow) (language : LanguageRow) (code : option Z)
    (row : ExecutionRow) :
  fails_next (db_script w) = false →
  fails_next (drop 1 (db_script w)) = false →
  fails_next (drop 2 (db_script w)) = false →
  fails_next (drop 3 (db_script w)) = false →
  sessions w !! job_session_id (job_data job) = Some session →
  languages w !! language_id session = Some language →
  executions w !! job_execution_id (job_data job) = Some row →
  let result :=
    fst (executeCode (runner env) (runtime language) (source_code session)
           (job_time_limit (job_data job)) (job_memory_limit (job_data job))) in
  Execution.integer_param (r_exit_code result) = Some code →
  0 ≤ r_execution_time_ms result →
  Js.nul_free (r_stdout result) = true →
  Js.nul_free (r_stderr result) = true →
  let after := snd (run_job job env w) in
  fst (processExecution job env w) = Ok result
  ∧ (∃ row',
       executions after = <[job_execution_id (job_data job) := row']> (executions w)
       ∧ exec_id row' = exec_id row
       ∧ session_id row' = session_id row
       ∧ created_at row' = created_at row
       ∧ status row' = r_status result
       ∧ terminal (status row') = true
       ∧ stdout row' = Some (r_stdout result)
       ∧ stderr row' = Some (r_stderr result)
       ∧ execution_time_ms row' = Some (r_execution_time_ms result)
       ∧ exit_code row' = code
       ∧ timeout row' = r_timeout result
       ∧ started_at row' = Some (now env)
       ∧ finished_at row' = Some (finished env))
  ∧ queue after = without (job_id job) (queue w)
  ∧ failed_jobs after = failed_jobs w.
Proof.
  intros Hdb0 Hdb1 Hdb2 Hdb3 Hsess Hlang Hrow. cbv zeta. intros Hcode Htime _ _.
  pose proof (executeCode_status_terminal (runner env) (runtime language)
                (source_code session) (job_time_limit (job_data job))
                (job_memory_limit (job_data job))) as Hterm.
  destruct (processExecution_normal job env w session language code
              Hdb0 Hdb1 Hdb2 Hdb3 Hsess Hlang Hcode Htime)
    as (w' & Hrun & He & Hq & Hf & _).
  rewrite Hrow in He.
  unfold run_job. rewrite Hrun. cbn [fst snd].
  split; [reflexivity|]. split.
  - eexists. split; [exact He|]. cbn. repeat split. exact Hterm.
  - cbn. rewrite Hq, Hf. split; reflexivity.
Qed.

Lemma worker_stores_runner_outcome_witness :
  executions (snd (run_job Fixtures.queued_job Fixtures.exit7_env Fixtures.world))
    !! "exec-002" = Some Fixtures.exit7_row
  ∧ queue (snd (run_job Fixtures.queued_job Fixtures.exit7_env
                  (set_queue (fun _ => [Fixtures.queued_job]) Fixtures.world))) = [].
Proof.
  split.
  - pose proof (worker_stores_runner_outcome Fixtures.queued_job Fixtures.exit7_env
                  Fixtures.world Fixtures.open_session Fixtures.javascript (Some 7)
                  Fixtures.queued_execution
                  eq_refl eq_refl eq_refl eq_refl eq_refl eq_refl eq_refl) as H.
    cbv zeta in H.
    destruct (H eq_refl ltac:(vm_compute; discriminate) eq_refl eq_refl)
      as (_ & (row' & He & _) & _).
    rewrite He, lookup_insert_eq. f_equal.
    assert (Hin : executions (snd (run_job Fixtures.queued_job Fixtures.exit7_env
                     Fixtures.world)) !! "exec-002" = Some Fixtures.exit7_row)
      by (vm_compute; reflexivity).
    rewrite He, lookup_insert_eq in Hin. congruence.
  - pose proof (worker_stores_runner_outcome Fixtures.queued_job Fixtures.exit7_env
                  (set_queue (fun _ => [Fixtures.queued_job]) Fixtures.world)
                  Fixtures.open_session Fixtures.javascript (Some 7)
                  Fixtures.queued_execution
                  eq_refl eq_refl eq_refl eq_refl eq_refl eq_refl eq_refl) as H.
    cbv zeta in H.
    destruct (H eq_refl ltac:(vm_compute; discriminate) eq_refl eq_refl)
      as (_ & _ & Hq & _).
    rewrite Hq. vm_compute. reflexivity.
Defined.

(** X20. Processing and polling compose: after the normal path of the
    worker on an existing row (the store accepting the outcome: numeric
    or absent exit code, non-negative time, no NUL character in stdout or
    stderr), [getExecution] answers with the status, the stdout, the
    stderr and the time of the Runner's outcome. *)
Theorem processed_execution_polls_outcome (job : Job) (env env' : Env) (w : World)
    (session : SessionRow) (language : LanguageRow) (code : option Z)
    (row : ExecutionRow) :
  fails_next (db_script w) = false →
  fails_next (drop 1 (db_script w)) = false →
  fails_next (drop 2 (db_script w)) = false →
  fails_next (drop 3 (db_script w)) = false →
  fails_next (drop 4 (db_script w)) = false →
  sessions w !! job_session_id (job_data job) = Some session →
  languages w !! language_id session = Some language →
  executions w !! job_execution_id (job_data job) = Some row →
  let result :=
    fst (executeCode (runner env) (runtime language) (source_code session)
           (job_time_limit (job_data job)) (job_memory_limit (job_data job))) in
  Execution.integer_param (r_exit_code result) = Some code →
  0 ≤ r_execution_time_ms result →
  Js.nul_free (r_stdout result) = true →
  Js.nul_free (r_stderr result) = true →
  fst (ExecutionService.getExecution (job_execution_id (job_data job)) env'
         (snd (run_job job env w)))
  = Ok {| ExecutionService.resp_execution_id := exec_id row;
          ExecutionService.resp_status := r_status result;
          ExecutionService.resp_stdout := Some (r_stdout result);
          ExecutionService.resp_stderr := Some (r_stderr result);
          ExecutionService.resp_execution_time_ms :=
            Some (Some (r_execution_time_ms result)) |}.
Proof.
  intros Hdb0 Hdb1 Hdb2 Hdb3 Hdb4 Hsess Hlang Hrow. cbv zeta. intros Hcode Htime _ _.
  pose proof (executeCode_status_terminal (runner env) (runtime language)
                (source_code session) (job_time_limit (job_data job))
                (job_memory_limit (job_data job))) as Hterm.
  destruct (processExecution_normal job env w session language code
              Hdb0 Hdb1 Hdb2 Hdb3 Hsess Hlang Hcode Htime)
    as (w' & Hrun & He & Hq & Hf & Hd).
  unfold run_job. rewrite Hrun. cbn [fst snd].
  rewrite getExecution_run by (cbn; rewrite Hd; exact Hdb4).
  cbn [executions set_queue fst]. rewrite He, Hrow, lookup_insert_eq.
  cbn [status stdout stderr exec_id execution_time_ms Execution.apply_result
       Execution.mark_started result_data Execution.d_status Execution.d_stdout
       Execution.d_stderr Execution.d_execution_time_ms Js.or_opt].
  rewrite Hterm, !or_str_empty. reflexivity.
Qed.

Lemma processed_execution_polls_outcome_witness :
  fst (ExecutionService.getExecution "exec-002" Fixtures.env
         (snd (run_job Fixtures.queued_job Fixtures.exit7_env Fixtures.world)))
  = Ok {| ExecutionService.resp_execution_id := "exec-002";
          ExecutionService.resp_status := FAILED;
          ExecutionService.resp_stdout := Some "x";
          ExecutionService.resp_stderr := Some "Command failed: node index.js";
          ExecutionService.resp_execution_time_ms := Some (Some 42) |}.
Proof.
  pose proof (processed_execution_polls_outcome Fixtures.queued_job Fixtures.exit7_env
                Fixtures.env Fixtures.world Fixtures.open_session Fixtures.javascript
                (Some 7) Fixtures.queued_execution
                eq_refl eq_refl eq_refl eq_refl eq_refl eq_refl eq_refl eq_refl) as H.
  cbv zeta in H. exact (H eq_refl ltac:(vm_compute; discriminate) eq_refl eq_refl).
Defined.

(** X21. An exit code that is a name: when the Runner's outcome carries a
    string in [exit_code] (the [code] of a spawn error), the store refuses
    the write of the outcome, the processor takes its error path, writes
    a FAILED row with exit code 1 and the store's message as stderr, and
    rethrows: the attempt fails, and the job is retried or moved to the
    failed set although the Runner had produced an outcome. *)
Theorem named_exit_code_fails_attempt (job : Job) (env : Env) (w : World)
    (session : SessionRow) (language : LanguageRow) (name : string) :
  fails_next (db_script w) = false →
  fails_next (drop 1 (db_script w)) = false →
  fails_next (drop 2 (db_script w)) = false →
  fails_next (drop 3 (db_script w)) = false →
  fails_next (drop 4 (db_script w)) = false →
  sessions w !! job_session_id (job_data job) = Some session →
  languages w !! language_id session = Some language →
  let id := job_execution_id (job_data job) in
  let result :=
    fst (executeCode (runner env) (runtime language) (source_code session)
           (job_time_limit (job_data job)) (job_memory_limit (job_data job))) in
  r_exit_code result = Some (Js.CodeStr name) →
  let after := snd (run_job job env w) in
  ∃ e,
    fst (processExecution job env w) = Throw e
    ∧ executions after
      = match executions w !! id with
        | Some row =>
            <[id := Execution.apply_result (failure_data e (finished env)) (Some 1)
                      (Execution.mark_started (now env) row)]> (executions w)
        | None => executions w
        end
    ∧ if (S (attemptsMade job) <? Queue.attempts)%nat
      then queue after = (without (job_id job) (queue w) ++ [retried job])%list
           ∧ failed_jobs after = failed_jobs w
      else queue after = without (job_id job) (queue w)
           ∧ failed_jobs after = (failed_jobs w ++ [failed_for_good job])%list.
Proof.
  intros Hdb0 Hdb1 Hdb2 Hdb3 Hdb4 Hsess Hlang. cbv zeta. intros Hname.
  destruct (processExecution_reaches_runner job env w session language
              Hdb0 Hdb1 Hdb2 Hsess Hlang) as (w3 & Hrun & He & Hq & Hf & Hd).
  set (id := job_execution_id (job_data job)) in *.
  assert (Hproc : ∃ w',
    processExecution job env w
    = (Throw (Error "invalid input syntax for type integer"), w')
    ∧ executions w'
      = match executions w !! id with
        | Some row =>
            <[id := Execution.apply_result
                      (failure_data (Error "invalid input syntax for type integer")
                         (finished env)) (Some 1)
                      (Execution.mark_started (now env) row)]> (executions w)
        | None => executions w
        end
    ∧ queue w' = queue w ∧ failed_jobs w' = failed_jobs w).
  { rewrite Hrun, try_catch_run, bind_run.
    rewrite updateResult_refused;
      [| rewrite Hd; assumption | cbn [result_data Execution.d_exit_code];
         rewrite Hname; reflexivity].
    rewrite bind_run.
    match goal with
    | |- context [SafetyService.logExecutionEvent ?i ?st ?md ?e ?w0] =>
        destruct (logExecutionEvent_frame i st md e w0) as (ev & w4 & Hlog & Hro);
        rewrite Hlog
    end.
    destruct Hro as [_ _ He4 Hq4 Hf4 _ _ Hd4 _].
    cbn [executions queue failed_jobs db_script set_db_script] in He4, Hq4, Hf4, Hd4.
    rewrite bind_run. unfold ask at 1. rewrite bind_run.
    rewrite (updateResult_run id _ (Some 1));
      [| rewrite Hd4, Hd, drop_drop; assumption | reflexivity | cbn; lia].
    rewrite He4, He.
    destruct (executions w !! id) as [row|] eqn:Hrow.
    - rewrite lookup_insert_eq. unfold throw. eexists. split; [reflexivity|].
      cbn. rewrite He4, He, insert_insert_eq. repeat split; congruence.
    - rewrite Hrow. unfold throw. eexists. split; [reflexivity|].
      cbn. repeat split; congruence. }
  destruct Hproc as (w' & Hthrow & He' & Hq' & Hf').
  exists (Error "invalid input syntax for type integer").
  unfold run_job. rewrite Hthrow. cbn [fst snd].
  split; [reflexivity|].
  destruct (S (attemptsMade job) <? Queue.attempts)%nat; cbn; rewrite ?Hq', ?Hf'; auto.
Qed.

Lemma named_exit_code_fails_attempt_witness :
  ∃ e,
    fst (processExecution Fixtures.queued_job Fixtures.spawn_refused_env Fixtures.world)
    = Throw e
    ∧ queue (snd (run_job Fixtures.queued_job Fixtures.spawn_refused_env
                    Fixtures.world))
      = [retried Fixtures.queued_job].
Proof.
  pose proof (named_exit_code_fails_attempt Fixtures.queued_job
                Fixtures.spawn_refused_env Fixtures.world Fixtures.open_session
                Fixtures.javascript "EAGAIN"
                eq_refl eq_refl eq_refl eq_refl eq_refl eq_refl eq_refl) as H.
  cbv zeta in H. destruct (H eq_refl) as (e & H1 & _ & H2).
  exists e. split; [exact H1 | apply H2].
Defined.

End WorkerMore.

(** ** Reading an execution, and the service's write of a result *)

Section ExecutionReads.

Import ExecutionService CodeExecutionService.

(** X22. [getExecution] only reads: the rows, the sessions and the queue
    are as before, whatever the store does.  An answer comes from the row
    with the id asked for, and it carries the three output properties
    exactly when the status is COMPLETED, FAILED or TIMEOUT; a missing
    stdout or stderr is reported as the empty string.  With the store
    answering, an id without a row throws [Execution not found: <id>]. *)
Theorem getExecution_reads_only (executionId : string) (env : Env) (w : World) :
  let answer := getExecution executionId env w in
  executions (snd answer) = executions w
  ∧ sessions (snd answer) = sessions w
  ∧ queue (snd answer) = queue w
  ∧ (∀ resp, fst answer = Ok resp →
       ∃ row, executions w !! executionId = Some row
         ∧ resp_execution_id resp = exec_id row
         ∧ resp_status resp = status row
         ∧ (if terminal (status row)
            then resp_stdout resp = Some (default "" (stdout row))
                 ∧ resp_stderr resp = Some (default "" (stderr row))
                 ∧ resp_execution_time_ms resp = Some (execution_time_ms row)
            else resp_stdout resp = None ∧ resp_stderr resp = None
                 ∧ resp_execution_time_ms resp = None))
  ∧ (fails_next (db_script w) = false → executions w !! executionId = None →
     fst answer = Throw (Error ("Execution not found: " +:+ executionId))).
Proof.
  cbv zeta. unfold getExecution, Execution.findById.
  rewrite !bind_run, db_request_run.
  assert (Hor : ∀ o, Js.or_opt o "" = default "" o).
  { intros [s|]; [apply or_str_empty | reflexivity]. }
  destruct (db_script w) as [|[msg|] rest].
  all: unfold bind, get, ret, throw; cbn [executions set_db_script fst snd].
  all: destruct (executions w !! executionId) as [row|] eqn:Hrow;
    [destruct (terminal (status row)) eqn:Hterm|]; cbn [fst snd].
  all: repeat split; try reflexivity; try discriminate.
  all: intros resp [= <-]; exists row; rewrite ?Hterm, ?Hor; cbn; auto 10.
Qed.

(** X23. The service's write of a result is the worker's write: for every
    outcome, [updateExecutionWithResult] issues the update that the worker
    issues for that outcome (replacing an empty stdout or stderr by the
    empty string changes nothing), and differs only in throwing a
    TypeError when no row has the id. *)
Theorem updateExecutionWithResult_is_worker_write (executionId : string)
    (result : RunnerOutcome) (env : Env) (w : World) :
  updateExecutionWithResult executionId result env w
  = match Execution.updateResult executionId (Worker.result_data result (now env))
            env w with
    | (Ok (Some row), w') => (Ok row, w')
    | (Ok None, w') =>
        (Throw (Error "Cannot read properties of undefined (reading 'id')"), w')
    | (Throw e, w') => (Throw e, w')
    end.
Proof.
  unfold updateExecutionWithResult.
  rewrite bind_run. unfold ask at 1. rewrite bind_run, !or_str_empty.
  unfold Worker.result_data.
  destruct (Execution.updateResult _ _ env w) as [[[row|]|e] w']; reflexivity.
Qed.

End ExecutionReads.

(** ** Sessions: create, save, read, close *)

Section SessionFacts.

Import SessionService.

Lemma session_findById_run (id : string) (env : Env) (w : World) :
  fails_next (db_script w) = false →
  Session.findById id env w = (Ok (sessions w !! id), set_db_script (drop 1) w).
Proof.
  intros Hdb. unfold Session.findById.
  rewrite bind_run, db_request_run.
  destruct (db_script w) as [|[?|] ?]; try discriminate; reflexivity.
Qed.

Lemma session_update_run (id : string) (sourceCode : option string)
    (st : option session_status) (env : Env) (w : World) :
  is_Some sourceCode ∨ is_Some st →
  fails_next (db_script w) = false →
  Session.update id sourceCode st env w =
  match sessions w !! id with
  | None => (Ok None, set_db_script (drop 1) w)
  | Some row =>
      (Ok (Some (Session.apply_update sourceCode st (now env) row)),
       set_sessions <[id := Session.apply_update sourceCode st (now env) row]>
         (set_db_script (drop 1) w))
  end.
Proof.
  intros Hfield Hdb.
  assert (Hrun : (run! db_request in
                  let! w := get in
                  let! env := ask in
                  match sessions w !! id with
                  | None => ret None
                  | Some row =>
                      let row' := Session.apply_update sourceCode st (now env) row in
                      run! modify (set_sessions <[id := row']>) in
                      ret (Some row')
                  end) env w
                 = match sessions w !! id with
                   | None => (Ok None, set_db_script (drop 1) w)
                   | Some row =>
                       (Ok (Some (Session.apply_update sourceCode st (now env) row)),
                        set_sessions
                          <[id := Session.apply_update sourceCode st (now env) row]>
                          (set_db_script (drop 1) w))
                   end).
  { rewrite bind_run, db_request_run.
    destruct (db_script w) as [|[?|] ?]; try discriminate.
    all: unfold bind, get, ask, modify, ret; cbn [sessions set_db_script].
    all: destruct (sessions w !! id); reflexivity. }
  unfold Session.update.
  destruct sourceCode, st; try exact Hrun.
  destruct Hfield as [[? ?]|[? ?]]; discriminate.
Qed.

Lemma session_create_run (id : string) (languageId : Z) (sourceCode : string)
    (st : session_status) (env : Env) (w : World) (language : LanguageRow) :
  fails_next (db_script w) = false →
  sessions w !! id = None →
  languages w !! languageId = Some language →
  let row := {| sess_id := id; language_id := languageId; sess_status := st;
                source_code := sourceCode; sess_created_at := now env;
                sess_updated_at := now env |} in
  Session.create id languageId sourceCode st env w
  = (Ok row, set_sessions <[id := row]> (set_db_script (drop 1) w)).
Proof.
  intros Hdb Hfresh Hlang. cbv zeta. unfold Session.create.
  rewrite bind_run, db_request_run.
  destruct (db_script w) as [|[?|] ?]; try discriminate.
  all: unfold bind, get, ask, modify, ret; cbn [sessions languages set_db_script].
  all: rewrite Hfresh, Hlang; reflexivity.
Qed.

Lemma getSession_run (id : string) (env : Env) (w : World) :
  fails_next (db_script w) = false →
  getSession id env w =
  (match sessions w !! id with
   | Some s =>
       match languages w !! language_id s with
       | Some l => Ok (s, l)
       | None => Throw (Error ("Session not found: " +:+ id))
       end
   | None => Throw (Error ("Session not found: " +:+ id))
   end, set_db_script (drop 1) w).
Proof.
  intros Hdb. unfold getSession.
  rewrite bind_run, findWithLanguage_run by assumption.
  destruct (sessions w !! id) as [s|]; [|reflexivity].
  destruct (languages w !! language_id s); reflexivity.
Qed.



(** X25. Closing: [closeSession] on an existing session sets the status to
    INACTIVE whatever it was (closing twice succeeds), keeps the source
    and the language, and leaves every execution row and the queue as
    they are: jobs already admitted for the session stay queued. *)
Theorem closed_session_keeps_code_and_jobs (sessionId : string) (env env' : Env)
    (w : World) (row : SessionRow) (language : LanguageRow) :
  fails_next (db_script w) = false →
  fails_next (drop 1 (db_script w)) = false →
  fails_next (drop 2 (db_script w)) = false →
  sessions w !! sessionId = Some row →
  languages w !! language_id row = Some language →
  let closed := closeSession sessionId env w in
  fst closed = Ok {| summary_session_id := sess_id row; summary_status := INACTIVE |}
  ∧ executions (snd closed) = executions w
  ∧ queue (snd closed) = queue w
  ∧ ∃ row',
      fst (getSession sessionId env' (snd closed)) = Ok (row', language)
      ∧ sess_status row' = INACTIVE
      ∧ source_code row' = source_code row
      ∧ language_id row' = language_id row.
Proof.
  intros Hdb0 Hdb1 Hdb2 Hrow Hlang. cbv zeta.
  unfold closeSession.
  rewrite bind_run, session_findById_run, Hrow by assumption.
  rewrite bind_run, session_update_run; [| right; eexists; reflexivity | assumption].
  cbn [sessions set_db_script]. rewrite Hrow. unfold ret. cbn [fst snd].
  split; [reflexivity|]. split; [reflexivity|]. split; [reflexivity|].
  rewrite getSession_run by (cbn; rewrite drop_drop; assumption).
  cbn [sessions languages set_sessions set_db_script fst].
  rewrite lookup_insert_eq. cbn [language_id Session.apply_update]. rewrite Hlang.
  eexists. split; [reflexivity|]. repeat split.
Qed.

Lemma closed_session_keeps_code_and_jobs_witness :
  fst (closeSession "sess-001" Fixtures.env Fixtures.world)
  = Ok {| summary_session_id := "sess-001"; summary_status := INACTIVE |}
  ∧ executions (snd (closeSession "sess-001" Fixtures.env Fixtures.world))
    = executions Fixtures.world.
Proof.
  destruct (closed_session_keeps_code_and_jobs "sess-001" Fixtures.env Fixtures.env
              Fixtures.world Fixtures.closed_session Fixtures.javascript
              eq_refl eq_refl eq_refl eq_refl eq_refl) as (H1 & H2 & _).
  split; assumption.
Defined.

(** X26. A session that does not exist: [updateSessionCode], [closeSession]
    and [getSession] all throw [Session not found: <id>] after one read,
    and no session, execution or job is created or changed. *)
Theorem missing_session_is_reported (sessionId sourceCode : string) (env : Env)
    (w : World) :
  fails_next (db_script w) = false →
  sessions w !! sessionId = None →
  let err := Error ("Session not found: " +:+ sessionId) in
  updateSessionCode sessionId sourceCode env w = (Throw err, set_db_script (drop 1) w)
  ∧ closeSession sessionId env w = (Throw err, set_db_script (drop 1) w)
  ∧ getSession sessionId env w = (Throw err, set_db_script (drop 1) w).
Proof.
  intros Hdb Hnone. cbv zeta.
  unfold updateSessionCode, closeSession.
  rewrite !bind_run, session_findById_run, Hnone by assumption.
  rewrite getSession_run, Hnone by assumption.
  repeat split.
Qed.

Lemma missing_session_is_reported_witness :
  closeSession "sess-gone" Fixtures.env Fixtures.world
  = (Throw (Error "Session not found: sess-gone"),
     set_db_script (drop 1) Fixtures.world).
Proof.
  apply (missing_session_is_reported "sess-gone" "" Fixtures.env Fixtures.world
           eq_refl eq_refl).
Defined.

(** X27. Creating a session.  For an unknown language the call throws and
    the sessions are as before, whatever the store does.  For a known
    language, a fresh id and a store that answers, the session is created
    ACTIVE with the template of the language as its source, and
    [getSession] on the returned id reads exactly that. *)
Theorem created_session_starts_from_template (languageId : Z) (env env' : Env)
    (w : World) :
  (languages w !! languageId = None →
   (∃ e, fst (createSession languageId env w) = Throw e)
   ∧ sessions (snd (createSession languageId env w)) = sessions w)
  ∧ ∀ language,
      languages w !! languageId = Some language →
      sessions w !! uuid env = None →
      fails_next (db_script w) = false →
      fails_next (drop 1 (db_script w)) = false →
      fails_next (drop 2 (db_script w)) = false →
      let created := createSession languageId env w in
      fst created = Ok {| summary_session_id := uuid env; summary_status := ACTIVE |}
      ∧ fst (getSession (uuid env) env' (snd created))
        = Ok ({| sess_id := uuid env; language_id := languageId;
                 sess_status := ACTIVE; source_code := template_code language;
                 sess_created_at := now env; sess_updated_at := now env |},
              language).
Proof.
  split.
  - intros Hnone. unfold createSession, Language.findById.
    rewrite !bind_run, db_request_run.
    destruct (db_script w) as [|[msg|] rest]; cbn; rewrite ?Hnone; cbn; eauto.
  - intros language Hlang Hfresh Hdb0 Hdb1 Hdb2. cbv zeta.
    assert (Hrun : createSession languageId env w
              = (Ok {| summary_session_id := uuid env; summary_status := ACTIVE |},
                 set_sessions
                   <[uuid env :=
                       {| sess_id := uuid env; language_id := languageId;
                          sess_status := ACTIVE;
                          source_code := Js.or_str (template_code language) "";
                          sess_created_at := now env; sess_updated_at := now env |}]>
                   (set_db_script (drop 1) (set_db_script (drop 1) w)))).
    { unfold createSession.
      rewrite bind_run, language_findById_run, Hlang by assumption.
      rewrite bind_run. unfold ask at 1.
      rewrite bind_run, (session_create_run _ _ _ _ _ _ language); try assumption.
      reflexivity. }
    rewrite Hrun. cbn [fst snd].
    split; [reflexivity|].
    rewrite getSession_run by (cbn; rewrite drop_drop; exact Hdb2).
    cbn [sessions languages set_sessions set_db_script fst].
    rewrite lookup_insert_eq; cbn [language_id]; rewrite Hlang, or_str_empty.
    reflexivity.
Qed.

Lemma created_session_starts_from_template_witness :
  fst (createSession 2 Fixtures.env Fixtures.world)
  = Ok {| summary_session_id := "exec-003"; summary_status := ACTIVE |}
  ∧ sessions (snd (createSession 7 Fixtures.env Fixtures.world))
    = sessions Fixtures.world.
Proof.
  pose proof (created_session_starts_from_template 2 Fixtures.env Fixtures.env
                Fixtures.world) as [_ Hknown].
  pose proof (created_session_starts_from_template 7 Fixtures.env Fixtures.env
                Fixtures.world) as [Hunknown _].
  split.
  - apply (Hknown Fixtures.javascript eq_refl eq_refl eq_refl eq_refl eq_refl).
  - apply (Hunknown eq_refl).
Defined.

End SessionFacts.

(** ** Admission: what it never does *)

Section AdmissionFrame.

Import ExecutionService.

Variable env : Env.
Variable w0 : World.
Variable sessionId : string.
Variables timeLimit memoryLimit : Z.

Lemma adm_start : admission_frame env sessionId timeLimit memoryLimit w0 w0.
Proof. unfold admission_frame. auto 10. Qed.

Lemma adm_keep (w w' : World) :
  sessions w' = sessions w → languages w' = languages w →
  failed_jobs w' = failed_jobs w → executions w' = executions w →
  queue w' = queue w →
  admission_frame env sessionId timeLimit memoryLimit w0 w →
  admission_frame env sessionId timeLimit memoryLimit w0 w'.
Proof.
  unfold admission_frame. intros -> -> -> -> ->. auto.
Qed.

Lemma adm_db_request :
  hoare env (admission_frame env sessionId timeLimit memoryLimit w0) db_request
    (fun _ => admission_frame env sessionId timeLimit memoryLimit w0)
    (fun _ => admission_frame env sessionId timeLimit memoryLimit w0).
Proof.
  intros w Hw. rewrite db_request_run.
  destruct (db_script w) as [|[msg|] rest]; exact Hw.
Qed.

Lemma adm_abuse :
  hoare env (admission_frame env sessionId timeLimit memoryLimit w0)
    (SafetyService.checkExecutionAbuse sessionId)
    (fun _ => admission_frame env sessionId timeLimit memoryLimit w0)
    (fun _ => admission_frame env sessionId timeLimit memoryLimit w0).
Proof.
  intros w Hw. destruct (checkExecutionAbuse_frame sessionId env w) as [c ->].
  exact Hw.
Qed.

Lemma adm_findById :
  hoare env (admission_frame env sessionId timeLimit memoryLimit w0)
    (Session.findById sessionId)
    (fun _ => admission_frame env sessionId timeLimit memoryLimit w0)
    (fun _ => admission_frame env sessionId timeLimit memoryLimit w0).
Proof.
  unfold Session.findById.
  eapply hoare_bind; [apply adm_db_request|]. intros _ w Hw. exact Hw.
Qed.

Lemma adm_loopCheck (sourceCode : string) :
  hoare env (admission_frame env sessionId timeLimit memoryLimit w0)
    (loopCheck sourceCode "node")
    (fun _ => admission_frame env sessionId timeLimit memoryLimit w0)
    (fun _ => admission_frame env sessionId timeLimit memoryLimit w0).
Proof.
  intros w Hw. destruct (loopCheck_node sourceCode env w) as (c & heap & ->).
  exact Hw.
Qed.

Lemma adm_create :
  hoare env (admission_frame env sessionId timeLimit memoryLimit w0)
    (Execution.create (uuid env) sessionId QUEUED)
    (fun row w =>
       (admission_frame env sessionId timeLimit memoryLimit w0 w
        ∧ executions w !! uuid env = Some row)
       ∧ row = queued_row (uuid env) sessionId (now env))
    (fun _ => admission_frame env sessionId timeLimit memoryLimit w0).
Proof.
  unfold Execution.create.
  eapply hoare_bind; [apply adm_db_request|]. intros _ w Hw.
  unfold bind, get, ask, modify, ret, throw.
  destruct (executions w !! uuid env) as [old|] eqn:Hold; [exact Hw|].
  destruct (sessions w !! sessionId); [|exact Hw].
  cbn. split; [|reflexivity]. split; [|apply lookup_insert_eq].
  destruct Hw as (Hs & Hl & Hf & Hk & Hid & Hq).
  unfold admission_frame. cbn. repeat split; try assumption.
  - intros k Hne. rewrite lookup_insert_ne by congruence. apply Hk, Hne.
  - intros row Hrow. apply Hid in Hrow. congruence.
Qed.

Lemma adm_log (row : ExecutionRow) (stage : string)
    (metadata : list (string * meta_value)) :
  hoare env
    (fun w => admission_frame env sessionId timeLimit memoryLimit w0 w
              ∧ executions w !! uuid env = Some row)
    (SafetyService.logExecutionEvent (uuid env) stage metadata)
    (fun _ w => admission_frame env sessionId timeLimit memoryLimit w0 w
                ∧ executions w !! uuid env = Some row)
    (fun _ => admission_frame env sessionId timeLimit memoryLimit w0).
Proof.
  intros w [Hw Hrow].
  destruct (logExecutionEvent_frame (uuid env) stage metadata env w)
    as (ev & w' & -> & [Rl Rs Re Rq Rf _ _ _ _]).
  split; [|rewrite Re; exact Hrow].
  eapply adm_keep; [..|exact Hw]; assumption.
Qed.

Lemma adm_enqueue (row : ExecutionRow) :
  hoare env
    (fun w => (admission_frame env sessionId timeLimit memoryLimit w0 w
               ∧ executions w !! uuid env = Some row)
              ∧ queue w = queue w0)
    (Queue.add
       {| job_execution_id := uuid env; job_session_id := sessionId;
          job_time_limit := timeLimit; job_memory_limit := memoryLimit |}
       (uuid env))
    (fun _ w => admission_frame env sessionId timeLimit memoryLimit w0 w
                ∧ executions w !! uuid env = Some row)
    (fun _ => admission_frame env sessionId timeLimit memoryLimit w0).
Proof.
  intros w [[Hw Hrow] Hqueue]. rewrite queue_add_run.
  destruct (queue_script w) as [|[msg|] rest]; [| exact Hw |].
  all: destruct (Queue.has_job _ _ || Queue.has_job _ _);
    [split; [exact Hw | exact Hrow]|].
  all: split; [|exact Hrow].
  all: destruct Hw as (Hs & Hl & Hf & Hk & Hid & _).
  all: unfold admission_frame; cbn; repeat split; try assumption.
  all: right; rewrite Hqueue; reflexivity.
Qed.

Lemma adm_queue_kept {A} (m : M A) (Q : A → World → Prop) (E : error → World → Prop) :
  (∀ w, queue (snd (m env w)) = queue w) →
  hoare env (admission_frame env sessionId timeLimit memoryLimit w0) m Q E →
  hoare env
    (fun w => admission_frame env sessionId timeLimit memoryLimit w0 w
              ∧ queue w = queue w0)
    m (fun a w => Q a w ∧ queue w = queue w0) (fun e w => E e w).
Proof.
  intros Hq Hm w [Hw Hqueue]. specialize (Hm w Hw). specialize (Hq w).
  destruct (m env w) as [[a|e] w']; cbn in Hq; [split; [exact Hm | congruence] | exact Hm].
Qed.

End AdmissionFrame.

Section AdmissionNever.

Import ExecutionService.

(** X28. What admission never does, whatever the store, Redis and the
    queue do and however the call ends: it changes no session and no
    language, rewrites or deletes no execution row, creates no row but
    the one with the generated id, leaves the failed set alone and adds
    at most its own job to the queue.  When it returns, the row with the
    returned id exists and is QUEUED. *)
Theorem admission_never_rewrites (sessionId : string) (timeLimit memoryLimit : Z)
    (env : Env) (w : World) :
  let answer := submitExecution sessionId timeLimit memoryLimit env w in
  admission_frame env sessionId timeLimit memoryLimit w (snd answer)
  ∧ ∀ s, fst answer = Ok s →
      s = {| execution_id := uuid env; submitted_status := QUEUED |}
      ∧ executions (snd answer) !! uuid env
        = Some (queued_row (uuid env) sessionId (now env)).
Proof.
  cbv zeta.
  assert (H : hoare env
    (fun w' => admission_frame env sessionId timeLimit memoryLimit w w'
               ∧ queue w' = queue w)
    (submitExecution sessionId timeLimit memoryLimit)
    (fun s w' =>
       admission_frame env sessionId timeLimit memoryLimit w w'
       ∧ s = {| execution_id := uuid env; submitted_status := QUEUED |}
       ∧ executions w' !! uuid env = Some (queued_row (uuid env) sessionId (now env)))
    (fun _ => admission_frame env sessionId timeLimit memoryLimit w)).
  { unfold submitExecution.
    destruct (negb (Validation.valid _)); [intros w' [Hw' _]; exact Hw'|].
    eapply hoare_bind.
    { apply adm_queue_kept; [|apply adm_abuse].
      intros w'. destruct (checkExecutionAbuse_frame sessionId env w') as [c ->].
      reflexivity. }
    intros abuseCheck. cbv beta.
    destruct (negb (SafetyService.allowed abuseCheck)); [intros w' [Hw' _]; exact Hw'|].
    eapply hoare_bind.
    { apply adm_queue_kept; [|apply adm_findById].
      intros w'. unfold Session.findById. rewrite bind_run, db_request_run.
      destruct (db_script w') as [|[?|] ?]; reflexivity. }
    intros [session|]; cbv beta; [|intros w' [Hw' _]; exact Hw'].
    eapply hoare_bind.
    { apply adm_queue_kept; [|apply adm_loopCheck].
      intros w'. destruct (loopCheck_node (source_code session) env w')
        as (c & heap & ->). reflexivity. }
    intros check. cbv beta.
    eapply hoare_bind with
      (Q := fun _ w' => admission_frame env sessionId timeLimit memoryLimit w w'
                        ∧ queue w' = queue w).
    { destruct (SafetyService.detected check); intros w' Hw'; exact Hw'. }
    intros _. apply hoare_ask.
    eapply hoare_bind.
    { apply adm_queue_kept; [|apply adm_create].
      intros w'. unfold Execution.create. rewrite bind_run, db_request_run.
      destruct (db_script w') as [|[?|] ?]; cbn; try reflexivity.
      all: destruct (executions w' !! uuid env); [reflexivity|].
      all: destruct (sessions w' !! sessionId); reflexivity. }
    intros row. cbv beta.
    intros w1 [[[Hw1 Hrow] ->] Hq1].
    pose proof (adm_log env w sessionId timeLimit memoryLimit
                  (queued_row (uuid env) sessionId (now env)) "QUEUED"
                  [ ("session_id", MetaStr sessionId);
                    ("time_limit", MetaNum timeLimit);
                    ("memory_limit", MetaNum memoryLimit) ] w1 (conj Hw1 Hrow)) as Hlog.
    rewrite bind_run.
    destruct (logExecutionEvent_frame (uuid env) "QUEUED"
                [ ("session_id", MetaStr sessionId);
                  ("time_limit", MetaNum timeLimit);
                  ("memory_limit", MetaNum memoryLimit) ] env w1)
      as (ev & w2 & Hrun & [_ _ _ Rq _ _ _ _ _]).
    rewrite Hrun in Hlog |- *. destruct Hlog as [Hw2 Hrow2].
    pose proof (adm_enqueue env w sessionId timeLimit memoryLimit
                  (queued_row (uuid env) sessionId (now env)) w2
                  (conj (conj Hw2 Hrow2) (eq_trans Rq Hq1))) as Hadd.
    rewrite bind_run.
    destruct (Queue.add _ _ env w2) as [[[]|e] w3]; [|exact Hadd].
    destruct Hadd as [Hw3 Hrow3]. unfold ret. cbn. auto. }
  specialize (H w (conj (adm_start env w sessionId timeLimit memoryLimit) eq_refl)).
  destruct (submitExecution sessionId timeLimit memoryLimit env w) as [[s|e] w'];
    cbn [fst snd].
  - destruct H as (Hw' & -> & Hrow). split; [exact Hw'|].
    intros s [= <-]. auto.
  - split; [exact H | discriminate].
Qed.

End AdmissionNever.
